(** * TIS-py00: lexer, parser, validator and node execution engine

    A shallow embedding of [ast_nodes.py], [tis_helpers.py], [tis_node.py],
    [tis_lexer.py], [tis_parser.py] and the grid construction of
    [tis_machine.py], followed by the properties of the engine.

    - Python integers are [Z]; list indexing keeps Python's negative
      indices; [is] on integers is CPython's object identity.
    - Port names and opcodes are the closed sets of strings that the lexer's
      converters produce, as inductive types.
    - The dictionary of nodes that every [step] call receives is a
      [gmap Z TISNode] threaded through a state-and-exception monad, so that
      a node writing into a neighbour ([target_node.sent_value = ...],
      [... .port_value = None]) writes into the shared store, and attribute
      writes made before a [raise] persist.
    - [step] calls itself on a label; the depth of this nesting is an
      explicit argument, and running out of it is Python's RecursionError.
      Other frames are not counted.
    - [int] on the text of an integer token is taken within the
      interpreter's limit on the digits of a numeral. *)

From Stdlib Require Import ZArith Lia Bool List Ascii String.
From stdpp Require Import base option list gmap strings.
Import ListNotations.
Local Open Scope string_scope.
Local Open Scope Z_scope.

(* ===================================================================== *)
(** ** Python helpers *)
(* ===================================================================== *)

Module Py.

(** The exceptions that the modelled code can raise. *)
Inductive exn : Type :=
| TISSyntaxError        (* tis_helpers.TISSyntaxError, a subclass of ExecutionError *)
| ExecutionError
| NotImplementedError
| TypeError
| IndexError
| KeyError
| AttributeError
| UnboundLocalError
| ZeroDivisionError
| RecursionError
| SyntaxError            (* raised by [lex] *)
| ParserError.           (* tis_parser.ParserError *)

#[global] Instance exn_eq_dec : EqDecision exn.
Proof. solve_decision. Defined.

(** [a is b] on integers.  CPython compares object identity; two integers
    that are equal are the same object exactly when they come from the
    small-integer cache, which holds -5 .. 256. *)
Definition int_is (a b : Z) : bool :=
  (a =? b) && (-5 <=? a) && (a <=? 256).

(** [l[i]] with Python's negative indices; [None] stands for IndexError. *)
Definition getitem {A : Type} (l : list A) (i : Z) : option A :=
  if 0 <=? i then l !! Z.to_nat i
  else if 0 <=? Z.of_nat (length l) + i then l !! Z.to_nat (Z.of_nat (length l) + i)
  else None.

(** [l[i] = x]; [None] stands for IndexError. *)
Definition setitem {A : Type} (l : list A) (i : Z) (x : A) : option (list A) :=
  match getitem l i with
  | None => None
  | Some _ =>
      Some (if 0 <=? i then <[Z.to_nat i := x]> l
            else <[Z.to_nat (Z.of_nat (length l) + i) := x]> l)
  end.

(** [len(l)] *)
Definition len {A : Type} (l : list A) : Z := Z.of_nat (length l).

End Py.

(* ===================================================================== *)
(** ** ast_nodes.py *)
(* ===================================================================== *)

(** The four keys of [TISNode.directions]. *)
Inductive Direction : Type := UP | DOWN | LEFT | RIGHT.

(** Port names, as the lexer's PORT converters produce them:
    "UP", "DOWN", "LEFT", "RIGHT", "ANY", "LAST", "NIL". *)
Inductive Port : Type :=
| Dir (d : Direction)
| ANY
| LAST
| NIL.

#[global] Instance Direction_eq_dec : EqDecision Direction.
Proof. solve_decision. Defined.
#[global] Instance Port_eq_dec : EqDecision Port.
Proof. solve_decision. Defined.

Definition direction_name (d : Direction) : string :=
  match d with UP => "UP" | DOWN => "DOWN" | LEFT => "LEFT" | RIGHT => "RIGHT" end.

Definition port_name (p : Port) : string :=
  match p with
  | Dir d => direction_name d
  | ANY => "ANY" | LAST => "LAST" | NIL => "NIL"
  end.

(** Opcodes: the fifteen INSTRUCTION rules of the lexer. *)
Inductive Opcode : Type :=
| mov | nop | swp | swt | sav | add | sub | neg
| jmp | jez | jnz | jgz | jlz | jro | hcf.

#[global] Instance Opcode_eq_dec : EqDecision Opcode.
Proof. solve_decision. Defined.

(** The AST node classes (namedtuples) that occur inside one node's code. *)
#[warnings="-register-all"]
Inductive ASTNode : Type :=
| IntegerLiteral (value : Z)
| NArgumentInstruction (op : Opcode) (args : list ASTNode)
| PortLiteral (name : Port)
| RegisterLiteral (name : string)
| Label (name : string)
| LabelReference (name : string).

(** [type(node)] *)
Inductive ASTType : Type :=
| TIntegerLiteral | TNArgumentInstruction | TPortLiteral
| TRegisterLiteral | TLabel | TLabelReference.

#[global] Instance ASTType_eq_dec : EqDecision ASTType.
Proof. solve_decision. Defined.

Definition type_of (n : ASTNode) : ASTType :=
  match n with
  | IntegerLiteral _ => TIntegerLiteral
  | NArgumentInstruction _ _ => TNArgumentInstruction
  | PortLiteral _ => TPortLiteral
  | RegisterLiteral _ => TRegisterLiteral
  | Label _ => TLabel
  | LabelReference _ => TLabelReference
  end.

(** [node.name]; [None] stands for AttributeError (the namedtuple has no
    such field). *)
Definition name_of (n : ASTNode) : option string :=
  match n with
  | PortLiteral p => Some (port_name p)
  | RegisterLiteral s | Label s | LabelReference s => Some s
  | IntegerLiteral _ | NArgumentInstruction _ _ => None
  end.

(* ===================================================================== *)
(** ** tis_helpers.py *)
(* ===================================================================== *)

Inductive NodeWriteState : Type :=
| READABLE | WILL_BE_READABLE | RUNNING | WILL_BE_RUNNING.

(** An entry of [opcode_check_dict]: the required number of arguments and,
    when present, the permitted types per argument position, already in the
    uniform shape that [validate_instruction] converts the entry to. *)
Definition IPR : list ASTType := [TIntegerLiteral; TPortLiteral; TRegisterLiteral].

Definition opcode_check_dict (o : Opcode) : option (Z * option (list (list ASTType))) :=
  match o with
  | mov => Some (2, Some [IPR; [TPortLiteral; TRegisterLiteral]])
  | nop => Some (0, None)
  | swp => Some (0, None)
  | swt => Some (1, Some [IPR])
  | sav => Some (0, None)
  | add => Some (1, Some [IPR])
  | sub => Some (1, Some [IPR])
  | neg => Some (0, None)
  | jmp | jez | jnz | jgz | jlz => Some (1, Some [[TLabelReference]])
  | jro => Some (1, Some [IPR])
  | hcf => None
  end.

(** Validation neither reads nor writes any node state: its outcome is
    either success or the exception raised. *)
Definition check := option Py.exn.

Definition instr_arg_num_check (args : list ASTNode) (num : Z) : check :=
  if negb (Py.int_is (Py.len args) num) then Some Py.TISSyntaxError else None.

Definition instr_arg_type_check (node : ASTNode) (_type : list ASTType) : check :=
  if bool_decide (type_of node ∈ _type) then None else Some Py.TISSyntaxError.

(** The loop [for inx, arg in enumerate(node.args)] over
    [check_args[1][inx]]; running out of [check_args[1]] is an IndexError.
    The loop also prints each argument, which is not modelled. *)
Fixpoint check_arg_types (args : list ASTNode) (types : list (list ASTType)) : check :=
  match args with
  | [] => None
  | arg :: args' =>
      match types with
      | [] => Some Py.IndexError
      | t :: types' =>
          match instr_arg_type_check arg t with
          | Some e => Some e
          | None => check_arg_types args' types'
          end
      end
  end.

(** [validate_instruction]: [inl e] when it raises [e], [inr r] when it
    returns [r] (a label name for a bare [LabelReference], else [None]). *)
Definition validate_instruction (node : ASTNode) : Py.exn + option string :=
  match node with
  | NArgumentInstruction op args =>
      match opcode_check_dict op with
      | Some (num, types) =>
          match instr_arg_num_check args num with
          | Some e => inl e
          | None =>
              match types with
              | Some ts =>
                  match check_arg_types args ts with
                  | Some e => inl e
                  | None => inr None
                  end
              | None => inr None
              end
          end
      | None =>
          if bool_decide (op = hcf) then inl Py.TISSyntaxError else inr None
      end
  | LabelReference name => inr (Some name)
  | _ => inr None
  end.

(** [validate_node], over the node's [ast] and [label_table]. *)
Fixpoint validate_node (ast : list ASTNode) (label_table : gmap string Z) : check :=
  match ast with
  | [] => None
  | ast_node :: rest =>
      match validate_instruction ast_node with
      | inl e => Some e
      | inr (Some result) =>
          match label_table !! result with
          | None => Some Py.TISSyntaxError
          | Some _ => validate_node rest label_table
          end
      | inr None => validate_node rest label_table
      end
  end.

(* ===================================================================== *)
(** ** tis_node.py: the node object *)
(* ===================================================================== *)

(** The attributes of a [TISNode].  [directions] is the dictionary built once
    from the four [*_id] attributes, [node_dict] is the store of the monad
    below.  [sent_value] and [last_port] only ever hold one of the four
    mirrored directions: the only writes are
    [target_node.sent_value = (look_for_port, value)] and
    [self.last_port = self.sent_value[0]]. *)
Record TISNode : Type := mkTISNode {
  id : Z;
  ast : list ASTNode;
  ast_instr_real_lookup : list Z;
  ast_real_instr_lookup : gmap Z Z;
  ast_len : Z;
  instruction_pointer : Z;
  up_id : option Z;
  down_id : option Z;
  left_id : option Z;
  right_id : option Z;
  port_value : option (Port * Z);
  wait_port : option Port;
  sent_value : option (Direction * Z);
  last_port : option Direction;
  accs : list Z;
  baks : list Z;
  _register_cursor : Z;
  label_table : gmap string Z;
  state : NodeWriteState
}.

Definition directions (nd : TISNode) (d : Direction) : option Z :=
  match d with
  | UP => up_id nd | DOWN => down_id nd | LEFT => left_id nd | RIGHT => right_id nd
  end.

(** Attribute assignments. *)
Definition set_instruction_pointer (v : Z) (n : TISNode) : TISNode :=
  mkTISNode (id n) (ast n) (ast_instr_real_lookup n) (ast_real_instr_lookup n)
    (ast_len n) v (up_id n) (down_id n) (left_id n) (right_id n)
    (port_value n) (wait_port n) (sent_value n) (last_port n) (accs n) (baks n)
    (_register_cursor n) (label_table n) (state n).
Definition set_port_value (v : option (Port * Z)) (n : TISNode) : TISNode :=
  mkTISNode (id n) (ast n) (ast_instr_real_lookup n) (ast_real_instr_lookup n)
    (ast_len n) (instruction_pointer n) (up_id n) (down_id n) (left_id n) (right_id n)
    v (wait_port n) (sent_value n) (last_port n) (accs n) (baks n)
    (_register_cursor n) (label_table n) (state n).
Definition set_wait_port (v : option Port) (n : TISNode) : TISNode :=
  mkTISNode (id n) (ast n) (ast_instr_real_lookup n) (ast_real_instr_lookup n)
    (ast_len n) (instruction_pointer n) (up_id n) (down_id n) (left_id n) (right_id n)
    (port_value n) v (sent_value n) (last_port n) (accs n) (baks n)
    (_register_cursor n) (label_table n) (state n).
Definition set_sent_value (v : option (Direction * Z)) (n : TISNode) : TISNode :=
  mkTISNode (id n) (ast n) (ast_instr_real_lookup n) (ast_real_instr_lookup n)
    (ast_len n) (instruction_pointer n) (up_id n) (down_id n) (left_id n) (right_id n)
    (port_value n) (wait_port n) v (last_port n) (accs n) (baks n)
    (_register_cursor n) (label_table n) (state n).
Definition set_last_port (v : option Direction) (n : TISNode) : TISNode :=
  mkTISNode (id n) (ast n) (ast_instr_real_lookup n) (ast_real_instr_lookup n)
    (ast_len n) (instruction_pointer n) (up_id n) (down_id n) (left_id n) (right_id n)
    (port_value n) (wait_port n) (sent_value n) v (accs n) (baks n)
    (_register_cursor n) (label_table n) (state n).
Definition set_accs (v : list Z) (n : TISNode) : TISNode :=
  mkTISNode (id n) (ast n) (ast_instr_real_lookup n) (ast_real_instr_lookup n)
    (ast_len n) (instruction_pointer n) (up_id n) (down_id n) (left_id n) (right_id n)
    (port_value n) (wait_port n) (sent_value n) (last_port n) v (baks n)
    (_register_cursor n) (label_table n) (state n).
Definition set_baks (v : list Z) (n : TISNode) : TISNode :=
  mkTISNode (id n) (ast n) (ast_instr_real_lookup n) (ast_real_instr_lookup n)
    (ast_len n) (instruction_pointer n) (up_id n) (down_id n) (left_id n) (right_id n)
    (port_value n) (wait_port n) (sent_value n) (last_port n) (accs n) v
    (_register_cursor n) (label_table n) (state n).
Definition set_register_cursor (v : Z) (n : TISNode) : TISNode :=
  mkTISNode (id n) (ast n) (ast_instr_real_lookup n) (ast_real_instr_lookup n)
    (ast_len n) (instruction_pointer n) (up_id n) (down_id n) (left_id n) (right_id n)
    (port_value n) (wait_port n) (sent_value n) (last_port n) (accs n) (baks n)
    v (label_table n) (state n).
Definition set_state (v : NodeWriteState) (n : TISNode) : TISNode :=
  mkTISNode (id n) (ast n) (ast_instr_real_lookup n) (ast_real_instr_lookup n)
    (ast_len n) (instruction_pointer n) (up_id n) (down_id n) (left_id n) (right_id n)
    (port_value n) (wait_port n) (sent_value n) (last_port n) (accs n) (baks n)
    (_register_cursor n) (label_table n) v.

(** *** [TISNode.__init__] *)

(** [for ast_inx, ast_node in enumerate(self.ast)]: the ast indices of the
    instructions, in order. *)
Fixpoint instr_indices (ast : list ASTNode) (ast_inx : Z) : list Z :=
  match ast with
  | [] => []
  | NArgumentInstruction _ _ :: rest => ast_inx :: instr_indices rest (ast_inx + 1)
  | _ :: rest => instr_indices rest (ast_inx + 1)
  end.

(** [for instr_inx, instr_node_inx in enumerate(self.ast_instr_real_lookup)] *)
Fixpoint reverse_lookup (lookup : list Z) (instr_inx : Z) (d : gmap Z Z) : gmap Z Z :=
  match lookup with
  | [] => d
  | instr_node_inx :: rest =>
      reverse_lookup rest (instr_inx + 1) (<[instr_node_inx := instr_inx]> d)
  end.

(** [for inx, node in enumerate(self.ast)]: a later definition of a label
    name overwrites an earlier one. *)
Fixpoint build_label_table (ast : list ASTNode) (inx : Z) (t : gmap string Z)
  : gmap string Z :=
  match ast with
  | [] => t
  | Label name :: rest => build_label_table rest (inx + 1) (<[name := inx]> t)
  | _ :: rest => build_label_table rest (inx + 1) t
  end.

(** The port ids.  [%] raises ZeroDivisionError on a zero divisor; it sits
    behind an [and] whose left operand is evaluated first. *)
Definition py_mod (a b : Z) : Py.exn + Z :=
  if b =? 0 then inl Py.ZeroDivisionError else inr (a mod b).

Definition up_of (id grid_width : Z) : option Z :=
  if negb (id - grid_width <? 0) then Some (id - grid_width) else None.
Definition down_of (id grid_height grid_width : Z) : option Z :=
  if id + grid_width <? grid_width * grid_height then Some (id + grid_width) else None.
Definition left_of (id grid_width : Z) : Py.exn + option Z :=
  if id >? 0 then
    match py_mod id grid_width with
    | inl e => inl e
    | inr r => inr (if negb (Py.int_is r 0) then Some (id - 1) else None)
    end
  else inr None.
Definition right_of (id grid_height grid_width : Z) : Py.exn + option Z :=
  if id + 1 <? grid_width * grid_height then
    match py_mod (id + 1) grid_width with
    | inl e => inl e
    | inr r => inr (if negb (Py.int_is r 0) then Some (id + 1) else None)
    end
  else inr None.

(** The attributes of a freshly constructed node. *)
Definition new_node (id : Z) (ast : list ASTNode)
    (up_id down_id left_id right_id : option Z) : TISNode :=
  let lookup := instr_indices ast 0 in
  {| id := id;
     ast := ast;
     ast_instr_real_lookup := lookup;
     ast_real_instr_lookup := reverse_lookup lookup 0 ∅;
     ast_len := Py.len ast;
     instruction_pointer := 0;
     up_id := up_id;
     down_id := down_id;
     left_id := left_id;
     right_id := right_id;
     port_value := None;
     wait_port := None;
     sent_value := None;
     last_port := None;
     accs := replicate 8 0;
     baks := replicate 8 0;
     _register_cursor := 0;
     label_table := build_label_table ast 0 ∅;
     state := RUNNING |}.

(** The constructor; [inl e] when it raises.  [ast = None] is the default
    argument.  [validate_node] runs on the finished tables, after the port
    ids have been computed. *)
Definition TISNode_init (id grid_height grid_width : Z) (ast : option (list ASTNode))
  : Py.exn + TISNode :=
  let ast := match ast with None => [] | Some a => a end in
  match left_of id grid_width with
  | inl e => inl e
  | inr left_id' =>
      match right_of id grid_height grid_width with
      | inl e => inl e
      | inr right_id' =>
          let node := new_node id ast (up_of id grid_width)
                        (down_of id grid_height grid_width) left_id' right_id' in
          match validate_node ast (label_table node) with
          | Some e => inl e
          | None => inr node
          end
      end
  end.

(* ===================================================================== *)
(** ** The store of nodes and the monad of node methods *)
(* ===================================================================== *)

(** [nodes]: the dictionary from node id to node object that the driver
    passes to every [step] (and that [step] keeps as [self.node_dict]).
    Every node is stored under its own id, as [run_src] builds it. *)
Abbreviation machine := (gmap Z TISNode).

(** The outcome of a call: a returned value or a raised exception, each with
    the store as the call left it (attribute writes made before a [raise]
    persist). *)
Inductive result (A : Type) : Type :=
| Return (a : A) (m : machine)
| Raise (e : Py.exn) (m : machine).
Arguments Return {A} a m.
Arguments Raise {A} e m.

Definition final_store {A : Type} (r : result A) : machine :=
  match r with Return _ m | Raise _ m => m end.

Definition M (A : Type) : Type := machine -> result A.

Definition ret {A : Type} (a : A) : M A := fun m => Return a m.
Definition raise {A : Type} (e : Py.exn) : M A := fun m => Raise e m.
Definition bind {A B : Type} (c : M A) (k : A -> M B) : M B :=
  fun m => match c m with
           | Return a m' => k a m'
           | Raise e m' => Raise e m'
           end.

Declare Scope py_scope.
Delimit Scope py_scope with py.
Notation "x <- c1 ;; c2" := (bind c1 (fun x => c2))
  (at level 100, c1 at next level, right associativity) : py_scope.
Notation "c1 ;; c2" := (bind c1 (fun _ => c2))
  (at level 100, right associativity) : py_scope.
Local Open Scope py_scope.

(** Reading the object [self]; a missing key is the KeyError of looking the
    node up in the dictionary. *)
Definition self_ (self : Z) : M TISNode :=
  fun m => match m !! self with
           | Some nd => Return nd m
           | None => Raise Py.KeyError m
           end.

(** An attribute assignment on the node stored under [i]. *)
Definition assign (i : Z) (f : TISNode -> TISNode) : M unit :=
  fun m => match m !! i with
           | Some nd => Return tt (<[i := f nd]> m)
           | None => Raise Py.KeyError m
           end.

(** [get_node_with_id]: [None] when the dictionary has no such key. *)
Definition get_node_with_id (_id : Z) : M (option TISNode) :=
  fun m => Return (m !! _id) m.

(** Lifting a partial operation, raising [e] where it is undefined. *)
Definition or_raise {A : Type} (e : Py.exn) (o : option A) : M A :=
  match o with Some a => ret a | None => raise e end.

(** [self.accs[self._register_cursor]] and the assignment to it. *)
Definition cur_acc (self : Z) : M Z :=
  nd <- self_ self ;;
  or_raise Py.IndexError (Py.getitem (accs nd) (_register_cursor nd)).

Definition set_cur_acc (self : Z) (v : Z) : M unit :=
  nd <- self_ self ;;
  accs' <- or_raise Py.IndexError (Py.setitem (accs nd) (_register_cursor nd) v) ;;
  assign self (set_accs accs').

Definition cur_bak (self : Z) : M Z :=
  nd <- self_ self ;;
  or_raise Py.IndexError (Py.getitem (baks nd) (_register_cursor nd)).

Definition set_cur_bak (self : Z) (v : Z) : M unit :=
  nd <- self_ self ;;
  baks' <- or_raise Py.IndexError (Py.setitem (baks nd) (_register_cursor nd) v) ;;
  assign self (set_baks baks').

(** *** [incr_instr_pointer] *)
Definition incr_instr_pointer (self : Z) : M unit :=
  nd <- self_ self ;;
  assign self (set_instruction_pointer (instruction_pointer nd + 1)) ;;
  nd <- self_ self ;;
  if Py.int_is (instruction_pointer nd) (ast_len nd)
  then assign self (set_instruction_pointer 0)
  else ret tt.

(** *** [get_value_from_port]

    Returns [Some v] for an integer and [None] for Python's [None] (also the
    implicit one at the end of the function). *)
Definition get_value_from_port (self : Z) (port : Port) : M (option Z) :=
  nd <- self_ self ;;
  match wait_port nd with
  | Some _ =>
      match sent_value nd with
      | Some (from, value) =>
          assign self (set_last_port (Some from)) ;;
          nd <- self_ self ;;
          (* self.get_node_with_id(self.directions[self.last_port]).port_value = None *)
          match directions nd from with
          | None => raise Py.AttributeError    (* node_dict[None] is a KeyError, *)
          | Some sid =>                        (* so the sender is None          *)
              sender <- get_node_with_id sid ;;
              match sender with
              | None => raise Py.AttributeError
              | Some _ => assign sid (set_port_value None) ;; ret (Some value)
              end
          end
      | None => ret None
      end
  | None =>
      match port with
      | NIL => ret (Some 0)
      | LAST =>
          match last_port nd with
          | None => ret None
          | Some d =>
              assign self (set_wait_port (Some (Dir d))) ;;
              assign self (set_state WILL_BE_RUNNING) ;;
              ret None
          end
      | _ =>
          assign self (set_wait_port (Some port)) ;;
          assign self (set_state WILL_BE_RUNNING) ;;
          ret None
      end
  end.

(** *** [set_value_to_port] *)

(** [{"UP": "DOWN", "DOWN": "UP", "LEFT": "RIGHT", "RIGHT": "LEFT"}] *)
Definition look_for (port : Direction) : Direction :=
  match port with UP => DOWN | DOWN => UP | LEFT => RIGHT | RIGHT => LEFT end.

(** The part of [set_value_to_port] after the special ports (source lines
    257-283), for a port that is one of the four directions. *)
Definition deliver (self : Z) (port : Direction) (value : Z) : M bool :=
  nd <- self_ self ;;
  match directions nd port with
  | None => ret false
  | Some tid =>
      target_node <- get_node_with_id tid ;;
      match target_node with
      | None => ret false
      | Some target =>
          let look_for_port := look_for port in
          if bool_decide (wait_port target = Some ANY
                          \/ wait_port target = Some (Dir look_for_port))
          then assign tid (set_sent_value (Some (look_for_port, value))) ;; ret true
          else ret false
      end
  end.

(** [set_value_to_port(direction, value)] for one of the four directions:
    the two assignments that open the function, then [deliver]. *)
Definition set_value_to_direction (self : Z) (port : Direction) (value : Z) : M bool :=
  assign self (set_port_value (Some (Dir port, value))) ;;
  assign self (set_state WILL_BE_RUNNING) ;;
  deliver self port value.

(** [order = ("UP", "LEFT", "RIGHT", "DOWN")] *)
Definition order : list Direction := [UP; LEFT; RIGHT; DOWN].

(** [for direction in order: ... else: return False] *)
Fixpoint any_loop (self : Z) (value : Z) (order : list Direction) : M bool :=
  match order with
  | [] => ret false
  | direction :: rest =>
      nd <- self_ self ;;
      match directions nd direction with
      | Some _ =>
          result <- set_value_to_direction self direction value ;;
          if result then ret result else any_loop self value rest
      | None => any_loop self value rest
      end
  end.

Definition set_value_to_port (self : Z) (port : Port) (value : Z) : M bool :=
  assign self (set_port_value (Some (port, value))) ;;
  assign self (set_state WILL_BE_RUNNING) ;;
  match port with
  | ANY => any_loop self value order
  | LAST =>
      nd <- self_ self ;;
      match last_port nd with
      | None => ret false
      | Some d => set_value_to_direction self d value
      end
  | NIL => ret true
  | Dir d => deliver self d value
  end.

(** *** The instruction functions

    Each returns the truth value of what the Python function returns:
    [True], or [False]/[None] (both falsy, and [step] only tests truth). *)

(** The second half of [instr_mov]; [source_val = None] is the local variable
    left unbound because the source had none of the three handled types. *)
Definition mov_destination (self : Z) (destination : ASTNode) (source_val : option Z)
  : M bool :=
  match destination with
  | PortLiteral name =>
      v <- or_raise Py.UnboundLocalError source_val ;;
      set_value_to_port self name v
  | RegisterLiteral _ =>
      v <- or_raise Py.UnboundLocalError source_val ;;
      set_cur_acc self v ;;
      ret true
  | _ => ret false
  end.

Definition instr_mov (self : Z) (args : list ASTNode) : M bool :=
  if negb (Py.int_is (Py.len args) 2) then raise Py.TISSyntaxError else
  source <- or_raise Py.IndexError (Py.getitem args 0) ;;
  destination <- or_raise Py.IndexError (Py.getitem args 1) ;;
  match source with
  | IntegerLiteral value => mov_destination self destination (Some value)
  | PortLiteral name =>
      source_val <- get_value_from_port self name ;;
      match source_val with
      | None => ret false
      | Some v => mov_destination self destination (Some v)
      end
  | RegisterLiteral _ =>
      v <- cur_acc self ;;
      mov_destination self destination (Some v)
  | _ => mov_destination self destination None
  end.

Definition instr_add (self : Z) (args : list ASTNode) : M bool :=
  add_operand <- or_raise Py.IndexError (Py.getitem args 0) ;;
  match add_operand with
  | IntegerLiteral value =>
      a <- cur_acc self ;; set_cur_acc self (a + value) ;; ret true
  | PortLiteral name =>
      add_operand_value <- get_value_from_port self name ;;
      match add_operand_value with
      | None => ret false
      | Some v => a <- cur_acc self ;; set_cur_acc self (a + v) ;; ret true
      end
  | RegisterLiteral _ =>
      a <- cur_acc self ;; set_cur_acc self (a * 2) ;; ret true
  | _ => ret true
  end.

Definition instr_sub (self : Z) (args : list ASTNode) : M bool :=
  sub_operand <- or_raise Py.IndexError (Py.getitem args 0) ;;
  match sub_operand with
  | IntegerLiteral value =>
      a <- cur_acc self ;; set_cur_acc self (a - value) ;; ret true
  | PortLiteral name =>
      sub_operand_value <- get_value_from_port self name ;;
      match sub_operand_value with
      | None => ret false
      | Some v => a <- cur_acc self ;; set_cur_acc self (a - v) ;; ret true
      end
  | RegisterLiteral _ =>
      set_cur_acc self 0 ;; ret true
  | _ => ret true
  end.

Definition instr_sav (self : Z) (args : list ASTNode) : M bool :=
  a <- cur_acc self ;; set_cur_bak self a ;; ret true.

(** [instr_swt].  The test after the port read is [if swt_operand is None],
    on the operand (an AST node, never [None]), so it never returns early;
    a [None] port value then reaches [len(self.accs) > None], a TypeError. *)
Definition instr_swt (self : Z) (args : list ASTNode) : M bool :=
  swt_operand <- or_raise Py.IndexError (Py.getitem args 0) ;;
  swt_operand_value <-
    match swt_operand with
    | IntegerLiteral value => ret (Some value)
    | PortLiteral name => get_value_from_port self name
    | _ => a <- cur_acc self ;; ret (Some a)
    end ;;
  nd <- self_ self ;;
  v <- or_raise Py.TypeError swt_operand_value ;;
  if negb ((Py.len (accs nd) >? v) && (v >=? 0)) then raise Py.TISSyntaxError else
  assign self (set_register_cursor v) ;;
  ret true.

Definition instr_swp (self : Z) (args : list ASTNode) : M bool :=
  b <- cur_bak self ;;
  a <- cur_acc self ;;
  set_cur_acc self b ;;
  set_cur_bak self a ;;
  ret true.

Definition instr_neg (self : Z) (args : list ASTNode) : M bool :=
  a <- cur_acc self ;; set_cur_acc self (a * -1) ;; ret true.

Definition instr_nop (self : Z) (args : list ASTNode) : M bool := ret true.

Definition instr_jmp (self : Z) (args : list ASTNode) : M bool :=
  a0 <- or_raise Py.IndexError (Py.getitem args 0) ;;
  name <- or_raise Py.AttributeError (name_of a0) ;;
  nd <- self_ self ;;
  target <- or_raise Py.KeyError (label_table nd !! name) ;;
  assign self (set_instruction_pointer target) ;;
  ret true.

(** The conditional jumps call [instr_jmp] on a fresh
    [NArgumentInstruction("jmp", [node.args[0]])]. *)
Definition jump_if (self : Z) (args : list ASTNode) (test : Z -> bool) : M bool :=
  a <- cur_acc self ;;
  if test a then
    a0 <- or_raise Py.IndexError (Py.getitem args 0) ;;
    instr_jmp self [a0]
  else ret true.

Definition instr_jez (self : Z) (args : list ASTNode) : M bool :=
  jump_if self args (fun a => Py.int_is a 0).
Definition instr_jnz (self : Z) (args : list ASTNode) : M bool :=
  jump_if self args (fun a => negb (Py.int_is a 0)).
Definition instr_jgz (self : Z) (args : list ASTNode) : M bool :=
  jump_if self args (fun a => a >? 0).
Definition instr_jlz (self : Z) (args : list ASTNode) : M bool :=
  jump_if self args (fun a => a <? 0).

Definition instr_jro (self : Z) (args : list ASTNode) : M bool :=
  jro_operand <- or_raise Py.IndexError (Py.getitem args 0) ;;
  jro_operand_value <-
    match jro_operand with
    | IntegerLiteral value => ret (Some value)
    | PortLiteral name => get_value_from_port self name
    | _ => a <- cur_acc self ;; ret (Some a)
    end ;;
  match jro_operand_value with
  | None => ret false
  | Some v =>
      nd <- self_ self ;;
      ordinal <- or_raise Py.KeyError
                   (ast_real_instr_lookup nd !! instruction_pointer nd) ;;
      target <- or_raise Py.IndexError
                  (Py.getitem (ast_instr_real_lookup nd) (ordinal + v - 1)) ;;
      assign self (set_instruction_pointer target) ;;
      ret true
  end.

(** *** [do_instr]: [getattr(self, "instr_" + instruction_node.op, None)].
    There is no [instr_hcf]; a node without an [op] field is an
    AttributeError. *)
Definition do_instr (self : Z) (instruction_node : ASTNode) : M bool :=
  match instruction_node with
  | NArgumentInstruction op args =>
      match op with
      | mov => instr_mov self args
      | nop => instr_nop self args
      | swp => instr_swp self args
      | swt => instr_swt self args
      | sav => instr_sav self args
      | add => instr_add self args
      | sub => instr_sub self args
      | neg => instr_neg self args
      | jmp => instr_jmp self args
      | jez => instr_jez self args
      | jnz => instr_jnz self args
      | jgz => instr_jgz self args
      | jlz => instr_jlz self args
      | jro => instr_jro self args
      | hcf => raise Py.NotImplementedError
      end
  | _ => raise Py.AttributeError
  end.

(** *** [step]

    [depth] bounds the nesting of [step] in itself: the recursive call on a
    [Label] uses one level, and a call with none left is the RecursionError
    in which an unbounded recursion ends.  The frames of the methods that
    [step] calls ([do_instr], the instruction functions,
    [set_value_to_port], [get_node_with_id], [incr_instr_pointer]) are not
    counted, so [depth] is an upper bound on the calls of [step] that the
    interpreter's stack has room for, not its recursion limit. *)
Fixpoint step (depth : nat) (self : Z) : M unit :=
  match depth with
  | O => raise Py.RecursionError
  | S depth' =>
      nd <- self_ self ;;
      cur_node <- or_raise Py.IndexError (Py.getitem (ast nd) (instruction_pointer nd)) ;;
      match wait_port nd with
      | Some _ =>
          match sent_value nd with
          | Some _ =>
              done <- do_instr self cur_node ;;
              if done then
                assign self (set_wait_port None) ;;
                assign self (set_sent_value None) ;;
                assign self (set_state RUNNING) ;;
                incr_instr_pointer self
              else ret tt
          | None => ret tt
          end
      | None =>
          match port_value nd with
          | Some _ =>
              done <- do_instr self cur_node ;;
              if done then
                assign self (set_port_value None) ;;
                assign self (set_state RUNNING) ;;
                incr_instr_pointer self
              else ret tt
          | None =>
              match cur_node with
              | NArgumentInstruction _ _ =>
                  done <- do_instr self cur_node ;;
                  if done then incr_instr_pointer self else ret tt
              | Label _ =>
                  incr_instr_pointer self ;;
                  step depth' self
              | _ => raise Py.ExecutionError
              end
          end
      end
  end.

(** *** The driver's loop body, [for n_id, tis_node in machine.items():
    tis_node.step(nodes=machine)]; [ids] are the keys in the dictionary's
    iteration (insertion) order. *)
Fixpoint tick (depth : nat) (ids : list Z) : M unit :=
  match ids with
  | [] => ret tt
  | n_id :: rest => step depth n_id ;; tick depth rest
  end.

Fixpoint ticks (depth : nat) (ids : list Z) (n : nat) : M unit :=
  match n with
  | O => ret tt
  | S n' => tick depth ids ;; ticks depth ids n'
  end.

(** [n] consecutive [step] calls on one node. *)
Fixpoint steps (depth : nat) (self : Z) (n : nat) : M unit :=
  match n with
  | O => ret tt
  | S n' => step depth self ;; steps depth self n'
  end.

(* ===================================================================== *)
(** ** tis_lexer.py *)
(* ===================================================================== *)

Module Lexer.

(** Source text is a list of characters. *)
Definition chars (s : string) : list ascii := list_ascii_of_string s.
Definition text (l : list ascii) : string := string_of_list_ascii l.

Definition code (c : ascii) : N := N_of_ascii c.

Definition in_range (lo hi : ascii) (c : ascii) : bool :=
  ((code lo <=? code c) && (code c <=? code hi))%N.

Definition is_digit (c : ascii) : bool := in_range "0" "9" c.
Definition is_digit19 (c : ascii) : bool := in_range "1" "9" c.

(** [str.lower()] on the characters the token patterns can match. *)
Definition lower (c : ascii) : ascii :=
  if in_range "A" "Z" c then ascii_of_N (code c + 32) else c.

(** The character class shared by the LABEL, LABEL_REF and COMMENT
    patterns: the digits, [a-z], [A-z] (a range that also covers the six
    characters between Z and a), the punctuation listed below and the
    double quote. *)
Definition double_quote : ascii := ascii_of_N 34.

Definition is_symbol (c : ascii) : bool :=
  is_digit c || in_range "a" "z" c || in_range "A" "z" c
  || bool_decide (c ∈ chars "~`$%^&*()_-+={}[]|\;'<>.?/")
  || bool_decide (c = double_quote).

(** The longest prefix of characters satisfying [p], and what follows. *)
Fixpoint span (p : ascii -> bool) (l : list ascii) : list ascii * list ascii :=
  match l with
  | c :: l' => if p c then let (a, b) := span p l' in (c :: a, b) else ([], l)
  | [] => ([], [])
  end.

(** [match_text.lower().startswith(pattern)] *)
Fixpoint startswith_lower (l pattern : list ascii) : bool :=
  match pattern, l with
  | [], _ => true
  | p :: pattern', c :: l' => bool_decide (lower c = p) && startswith_lower l' pattern'
  | _ :: _, [] => false
  end.

(** The compiled patterns; each function is [pattern.match(match_text)] and
    returns [match.group(0)]. *)
Inductive Regex : Type :=
| ReInteger        (* an optional minus, a digit 1-9, any digits; or a single 0 *)
| ReNodeSpecifier  (* an at sign and one or more digits *)
| ReSeparator      (* one or more commas *)
| ReLabel          (* one or more symbols, lazily, and a colon; anchored *)
| ReLabelRef       (* one or more symbols *)
| ReWhitespace     (* one or more of space, newline, tab *)
| ReComment.       (* a hash and one or more of space and the symbols *)

Definition newline : ascii := ascii_of_N 10.
Definition tab : ascii := ascii_of_N 9.

Definition is_space (c : ascii) : bool :=
  bool_decide (c = " "%char) || bool_decide (c = newline) || bool_decide (c = tab).

(** One or more characters of a class. *)
Definition some_of (p : ascii -> bool) (l : list ascii) : option (list ascii) :=
  match fst (span p l) with
  | [] => None
  | m => Some m
  end.

Definition is_char (x : ascii) (c : ascii) : bool := bool_decide (c = x).

Definition re_match (r : Regex) (l : list ascii) : option (list ascii) :=
  match r with
  | ReInteger =>
      match l with
      | c :: l' =>
          if is_digit19 c then Some (c :: fst (span is_digit l'))
          else if is_char "0" c then Some [c]
          else if is_char "-" c then
            match l' with
            | c' :: l'' =>
                if is_digit19 c' then Some (c :: c' :: fst (span is_digit l'')) else None
            | [] => None
            end
          else None
      | [] => None
      end
  | ReNodeSpecifier =>
      match l with
      | c :: l' =>
          if is_char "@" c then
            match some_of is_digit l' with
            | Some ds => Some (c :: ds)
            | None => None
            end
          else None
      | [] => None
      end
  | ReSeparator => some_of (is_char ",") l
  | ReLabel =>
      (* the lazy repetition stops at the first colon, which no symbol is *)
      match span is_symbol l with
      | (c :: m, c' :: _) =>
          if is_char ":" c' then Some ((c :: m) ++ [c'])%list else None
      | _ => None
      end
  | ReLabelRef => some_of is_symbol l
  | ReWhitespace => some_of is_space l
  | ReComment =>
      match l with
      | c :: l' =>
          if is_char "#" c then
            match some_of (fun c => is_char " " c || is_symbol c) l' with
            | Some m => Some (c :: m)
            | None => None
            end
          else None
      | [] => None
      end
  end.

(** [int(s)] on a run of decimal digits with an optional sign.  CPython
    refuses a numeral of more than [int_max_str_digits] digits with a
    ValueError; [int] below is the conversion within that limit, and the
    properties that say that a token is returned are stated for texts
    within it. *)
Definition int_max_str_digits : nat := 4300.

Definition digit_value (c : ascii) : Z := Z.of_N (code c) - 48.

Definition int_of_digits (l : list ascii) : Z :=
  fold_left (fun acc c => 10 * acc + digit_value c) l 0.

Definition int (l : list ascii) : Z :=
  match l with
  | "-"%char :: l' => - int_of_digits l'
  | _ => int_of_digits l
  end.

(** Token values: what the converters return (for a definition without a
    converter, the matched text). *)
Inductive Value : Type :=
| VOpcode (o : Opcode)
| VPort (p : Port)
| VInt (z : Z)
| VStr (s : string).

Inductive Name : Type :=
| INSTRUCTION | REGISTER | INTEGER | PORT | NODE_SPECIFIER
| SEPARATOR | LABEL | LABEL_REF | WHITESPACE | COMMENT.

Inductive Matcher : Type :=
| Str (pattern : string)
| Re (r : Regex).

Inductive Converter : Type :=
| Const (v : Value)     (* a lambda returning a constant *)
| ConvInt               (* int *)
| ConvNode              (* lambda s: int(s[1:]) *)
| ConvLabel             (* lambda s: s[:-1] *)
| ConvSame.             (* lambda s: s *)

Record TokenDef : Type := mkTokenDef {
  name : Name;
  matcher : Matcher;
  source_sink : bool * bool;
  converter : option Converter
}.

#[global] Instance Value_eq_dec : EqDecision Value.
Proof. solve_decision. Defined.
#[global] Instance Name_eq_dec : EqDecision Name.
Proof. solve_decision. Defined.
#[global] Instance Regex_eq_dec : EqDecision Regex.
Proof. solve_decision. Defined.
#[global] Instance Matcher_eq_dec : EqDecision Matcher.
Proof. solve_decision. Defined.
#[global] Instance Converter_eq_dec : EqDecision Converter.
Proof. solve_decision. Defined.
#[global] Instance TokenDef_eq_dec : EqDecision TokenDef.
Proof. solve_decision. Defined.

Definition instruction_def (pattern : string) (o : Opcode) : TokenDef :=
  mkTokenDef INSTRUCTION (Str pattern) (false, false) (Some (Const (VOpcode o))).
Definition port_def (pattern : string) (p : Port) : TokenDef :=
  mkTokenDef PORT (Str pattern) (true, true) (Some (Const (VPort p))).

Definition REGISTER_def : TokenDef :=
  mkTokenDef REGISTER (Str "acc") (true, true) (Some (Const (VStr "ACC"))).
Definition INTEGER_def : TokenDef :=
  mkTokenDef INTEGER (Re ReInteger) (true, false) (Some ConvInt).
Definition NODE_SPECIFIER_def : TokenDef :=
  mkTokenDef NODE_SPECIFIER (Re ReNodeSpecifier) (false, false) (Some ConvNode).
Definition SEPARATOR_def : TokenDef :=
  mkTokenDef SEPARATOR (Re ReSeparator) (false, false) None.
Definition LABEL_def : TokenDef :=
  mkTokenDef LABEL (Re ReLabel) (false, false) (Some ConvLabel).
Definition LABEL_REF_def : TokenDef :=
  mkTokenDef LABEL_REF (Re ReLabelRef) (false, false) (Some ConvSame).
Definition WHITESPACE_def : TokenDef :=
  mkTokenDef WHITESPACE (Re ReWhitespace) (false, false) None.
Definition COMMENT_def : TokenDef :=
  mkTokenDef COMMENT (Re ReComment) (false, false) None.

(** [TokenType.INSTRUCTION] and [TokenType.PORT]: the definitions that share
    the name, collected into a list by the module's set-up loop. *)
Definition INSTRUCTION_defs : list TokenDef :=
  [ instruction_def "mov" mov; instruction_def "nop" nop; instruction_def "swp" swp;
    instruction_def "swt" swt; instruction_def "sav" sav; instruction_def "add" add;
    instruction_def "sub" sub; instruction_def "neg" neg; instruction_def "jmp" jmp;
    instruction_def "jez" jez; instruction_def "jnz" jnz; instruction_def "jgz" jgz;
    instruction_def "jlz" jlz; instruction_def "jro" jro; instruction_def "hcf" hcf ].

Definition PORT_defs : list TokenDef :=
  [ port_def "up" (Dir UP); port_def "down" (Dir DOWN); port_def "left" (Dir LEFT);
    port_def "right" (Dir RIGHT); port_def "last" LAST; port_def "any" ANY;
    port_def "nil" NIL ].

(** [TokenType._defs], in order. *)
Definition _defs : list TokenDef :=
  (INSTRUCTION_defs
   ++ [REGISTER_def; INTEGER_def]
   ++ PORT_defs
   ++ [NODE_SPECIFIER_def; SEPARATOR_def; LABEL_def; LABEL_REF_def;
       WHITESPACE_def; COMMENT_def])%list.

(** [Token(type, value, slice)], with the slice as [start] and [stop]. *)
Record Token : Type := mkToken {
  type : TokenDef;
  value : Value;
  slice_start : nat;
  slice_stop : nat
}.

Definition convert (c : option Converter) (match_value : list ascii) : Value :=
  match c with
  | None => VStr (text match_value)
  | Some (Const v) => v
  | Some ConvInt => VInt (int match_value)
  | Some ConvNode => VInt (int (tail match_value))
  | Some ConvLabel => VStr (text (removelast match_value))
  | Some ConvSame => VStr (text match_value)
  end.

(** The match of one definition against [match_text]. *)
Definition match_def (d : TokenDef) (match_text : list ascii) : option (list ascii) :=
  match matcher d with
  | Str pattern =>
      if startswith_lower match_text (chars pattern) then Some (chars pattern) else None
  | Re r => re_match r match_text
  end.

(** The token kinds that suppress LABEL_REF. *)
Definition outranks_label_ref (d : TokenDef) : bool :=
  bool_decide (d ∈ (INSTRUCTION_defs ++ PORT_defs ++ [REGISTER_def; INTEGER_def])%list).

(** One iteration of the loop of [get_first_token]; the loop state is
    [(token, token_text)]. *)
Definition consider (match_text : list ascii) (start : nat)
    (st : option Token * list ascii) (token_type : TokenDef)
  : option Token * list ascii :=
  let (token, token_text) := st in
  match match_def token_type match_text with
  | None => st
  | Some match_value =>
      if (length match_value <? length token_text)%nat then st
      else if bool_decide (token_type = LABEL_REF_def)
              && match token with
                 | Some t => outranks_label_ref (type t)
                 | None => false
                 end
      then st
      else
        (Some (mkToken token_type (convert (converter token_type) match_value)
                 start (start + length match_value)),
         match_value)
  end.

Definition get_first_token (source : list ascii) (start : nat) : option Token :=
  let match_text := drop start source in
  fst (fold_left (consider match_text start) _defs (None, [])).

(** [lex_gen]: the tokens yielded.  Every token is at least one character
    long ([LexerFacts.get_first_token_advances] below), so the loop runs
    at most [length source + 1] times. *)
Fixpoint lex_gen_loop (fuel : nat) (source : list ascii) (start : nat) : list Token :=
  match fuel with
  | O => []
  | S fuel' =>
      if (length source <=? start)%nat then []
      else match get_first_token source start with
           | None => []
           | Some token => token :: lex_gen_loop fuel' source (slice_stop token)
           end
  end.

Definition lex_gen (source : list ascii) : list Token :=
  lex_gen_loop (S (length source)) source 0.

(** [lex]; [None] stands for the SyntaxError of either check. *)
Definition lex (source : list ascii) : option (list Token) :=
  let tokens := lex_gen source in
  match tokens, last tokens with
  | first :: _, Some final =>
      if bool_decide (slice_start first = 0%nat /\ slice_stop final = length source)
      then Some tokens else None
  | _, _ => None
  end.

End Lexer.

(* ===================================================================== *)
(** ** tis_parser.py *)
(* ===================================================================== *)

Module Parser.
Import Lexer.

(** The parsers read one shared token stack through its cursor; here the
    stack is the list of tokens from the cursor on, and popping the cursor
    back is going back to an earlier list. *)

Inductive outcome (A : Type) : Type :=
| Ok (a : A)
| Fail (e : Py.exn)
| Unfinished.           (* the loop was still running when the fuel ran out *)
Arguments Ok {A} a.
Arguments Fail {A} e.
Arguments Unfinished {A}.

(** [filter_token_stack] *)
Definition filter_token_stack (items : list Token) : list Token :=
  filter (fun item => name (type item) <> WHITESPACE /\ name (type item) <> COMMENT) items.

(** The expression parsers run on a one-token stack whose type the caller
    has just tested; they wrap the token's value. *)
Definition IntegerLiteralExpression (t : Token) : outcome ASTNode :=
  if bool_decide (type t = INTEGER_def) then
    match value t with VInt z => Ok (IntegerLiteral z) | _ => Fail Py.TypeError end
  else Fail Py.ParserError.

Definition PortLiteralExpression (t : Token) : outcome ASTNode :=
  if bool_decide (type t ∈ PORT_defs) then
    match value t with VPort p => Ok (PortLiteral p) | _ => Fail Py.TypeError end
  else Fail Py.ParserError.

Definition RegisterLiteralExpression (t : Token) : outcome ASTNode :=
  if bool_decide (type t = REGISTER_def) then
    match value t with VStr s => Ok (RegisterLiteral s) | _ => Fail Py.TypeError end
  else Fail Py.ParserError.

Definition LabelReferenceExpression (t : Token) : outcome ASTNode :=
  if bool_decide (type t = LABEL_REF_def) then
    match value t with VStr s => Ok (LabelReference s) | _ => Fail Py.TypeError end
  else Fail Py.ParserError.

(** The token can be parsed as part of an instruction's operand list. *)
Definition operand_token (t : Token) : bool :=
  bool_decide (type t ∈ (SEPARATOR_def :: INTEGER_def :: PORT_defs
                          ++ [REGISTER_def; LABEL_REF_def])%list).

(** The [while True] loop of [InstructionStatement.parse]; it pops one token
    per round.  Returns the operands and the tokens left. *)
Fixpoint instruction_arguments (stack : list Token)
    (instruction_ast_arguments : list ASTNode) (last_was_sep : bool)
  : outcome (list ASTNode * list Token) :=
  match stack with
  | [] => Ok (instruction_ast_arguments, stack)
  | next_token :: stack' =>
      if negb (operand_token next_token) then Ok (instruction_ast_arguments, stack)
      else if (0 <? length instruction_ast_arguments)%nat
              && negb (last_was_sep || bool_decide (type next_token = SEPARATOR_def))
      then Fail Py.ParserError
      else if bool_decide (type next_token = SEPARATOR_def)
      then instruction_arguments stack' instruction_ast_arguments true
      else
        let parsed :=
          if bool_decide (type next_token = INTEGER_def)
          then IntegerLiteralExpression next_token
          else if bool_decide (type next_token ∈ PORT_defs)
          then PortLiteralExpression next_token
          else if bool_decide (type next_token = REGISTER_def)
          then RegisterLiteralExpression next_token
          else LabelReferenceExpression next_token in
        match parsed with
        | Ok node =>
            instruction_arguments stack' (instruction_ast_arguments ++ [node])%list false
        | Fail e => Fail e
        | Unfinished => Unfinished
        end
  end.

Definition InstructionStatement (stack : list Token) : outcome (ASTNode * list Token) :=
  match stack with
  | [] => Fail Py.IndexError
  | instruction_token :: stack' =>
      if bool_decide (type instruction_token ∈ INSTRUCTION_defs) then
        match value instruction_token with
        | VOpcode op =>
            match instruction_arguments stack' [] true with
            | Ok (args, rest) => Ok (NArgumentInstruction op args, rest)
            | Fail e => Fail e
            | Unfinished => Unfinished
            end
        | _ => Fail Py.TypeError
        end
      else Fail Py.ParserError
  end.

Definition LabelStatement (stack : list Token) : outcome (ASTNode * list Token) :=
  match stack with
  | [] => Fail Py.IndexError
  | label_token :: stack' =>
      if bool_decide (type label_token = LABEL_def) then
        match value label_token with
        | VStr s => Ok (Label s, stack')
        | _ => Fail Py.TypeError
        end
      else Fail Py.ParserError
  end.

(** [SingleNodeASTParser.parse]: the statements of one node.  A COMMENT
    token is passed over without being popped, so the loop would see it
    again; [parse] filters comments out before this parser runs. *)
Fixpoint SingleNodeASTParser (fuel : nat) (stack : list Token) (nodes : list ASTNode)
  : outcome (list ASTNode) :=
  match fuel with
  | O => Unfinished
  | S fuel' =>
      match stack with
      | [] => Ok nodes
      | next_token :: _ =>
          if bool_decide (type next_token ∈ INSTRUCTION_defs) then
            match InstructionStatement stack with
            | Ok (node, rest) => SingleNodeASTParser fuel' rest (nodes ++ [node])%list
            | Fail e => Fail e
            | Unfinished => Unfinished
            end
          else if bool_decide (type next_token = LABEL_def) then
            match LabelStatement stack with
            | Ok (node, rest) => SingleNodeASTParser fuel' rest (nodes ++ [node])%list
            | Fail e => Fail e
            | Unfinished => Unfinished
            end
          else if bool_decide (type next_token = NODE_SPECIFIER_def) then Ok nodes
          else if bool_decide (type next_token = COMMENT_def)
          then SingleNodeASTParser fuel' stack nodes
          else Fail Py.ParserError
      end
  end.

(** [ASTRoot.nodes]: a dictionary from node id to that node's statements,
    in insertion order; assigning to a key that is present keeps its
    position. *)
Definition ASTRoot := list (Value * list ASTNode).

Fixpoint dict_set (d : ASTRoot) (k : Value) (v : list ASTNode) : ASTRoot :=
  match d with
  | [] => [(k, v)]
  | (k', v') :: d' => if decide (k' = k) then (k, v) :: d' else (k', v') :: dict_set d' k v
  end.

(** The loop of [MultiNodeParser.parse], after the filtering: every round
    pops one token; on a node specifier the node's statements are parsed from
    the tokens that follow, and the cursor is then popped back to where that
    sub-parse began. *)
Fixpoint MultiNodeParser_loop (stack : list Token) (node_asts : ASTRoot)
  : outcome ASTRoot :=
  match stack with
  | [] => Ok node_asts
  | next_token :: stack' =>
      if bool_decide (type next_token = NODE_SPECIFIER_def) then
        match SingleNodeASTParser (S (length stack')) stack' [] with
        | Ok nodes => MultiNodeParser_loop stack' (dict_set node_asts (value next_token) nodes)
        | Fail e => Fail e
        | Unfinished => Unfinished
        end
      else MultiNodeParser_loop stack' node_asts
  end.

Definition MultiNodeParser (items : list Token) : outcome ASTRoot :=
  MultiNodeParser_loop (filter_token_stack items) [].

(** [parse(text)] *)
Definition parse (source : string) : outcome ASTRoot :=
  match lex (chars source) with
  | Some tokens => MultiNodeParser tokens
  | None => Fail Py.SyntaxError
  end.

End Parser.

(* ===================================================================== *)
(** ** tis_machine.py: building the grid *)
(* ===================================================================== *)

(** [{n_id: TISNode(n_id, node_height, node_width, ast=val) for n_id, val in
    ast_root.nodes.items()}]: the store and its keys in iteration order;
    [inl e] when a constructor raises. *)
Fixpoint build_machine (node_height node_width : Z) (nodes : Parser.ASTRoot)
  : Py.exn + (gmap Z TISNode * list Z) :=
  match nodes with
  | [] => inr (∅, [])
  | (Lexer.VInt n_id, val) :: rest =>
      match TISNode_init n_id node_height node_width (Some val) with
      | inl e => inl e
      | inr node =>
          match build_machine node_height node_width rest with
          | inl e => inl e
          | inr (machine, ids) => inr (<[n_id := node]> machine, n_id :: ids)
          end
      end
  | _ :: _ => inl Py.TypeError
  end.

(* ===================================================================== *)
(** ** Observations on a node *)
(* ===================================================================== *)

(** The current accumulator of a node, [accs[_register_cursor]]. *)
Definition current_acc (nd : TISNode) : option Z :=
  Py.getitem (accs nd) (_register_cursor nd).
Definition current_bak (nd : TISNode) : option Z :=
  Py.getitem (baks nd) (_register_cursor nd).


(* ===================================================================== *)
(** ** Concrete programs and grids used below *)
(* ===================================================================== *)

(** A grid of the driver's default shape, 4 rows of 5 nodes. *)
Definition grid_height : Z := 4.
Definition grid_width : Z := 5.

(** [mov up, acc], the single instruction of a receiving node. *)
Definition mov_up_acc : ASTNode :=
  NArgumentInstruction mov [PortLiteral (Dir UP); RegisterLiteral "ACC"].

(** Node 5 of the grid running [mov up, acc], as constructed and after it
    has parked on the receive. *)
Definition receiver5 : TISNode :=
  new_node 5 [mov_up_acc] (Some 0) (Some 10) None (Some 6).
Definition parked5 : TISNode :=
  set_state WILL_BE_RUNNING (set_wait_port (Some (Dir UP)) receiver5).

(** [mov last, acc] *)
Definition mov_last_acc : ASTNode :=
  NArgumentInstruction mov [PortLiteral LAST; RegisterLiteral "ACC"].

(** Node 5 of the grid with [mov last, acc] as its whole program, as the
    constructor leaves it. *)
Definition last_reader5 : TISNode :=
  new_node 5 [mov_last_acc] (Some 0) (Some 10) None (Some 6).

(** The register-sensitive instructions, in the forms that have no port
    operand, as the instruction table describes them: the pair [(acc, bak)]
    they leave behind when run on the pair [(a, b)]. *)
Definition register_effect (instr : ASTNode) (a b : Z) : option (Z * Z) :=
  match instr with
  | NArgumentInstruction add [IntegerLiteral x] => Some (a + x, b)
  | NArgumentInstruction add [RegisterLiteral _] => Some (a * 2, b)
  | NArgumentInstruction sub [IntegerLiteral x] => Some (a - x, b)
  | NArgumentInstruction sub [RegisterLiteral _] => Some (0, b)
  | NArgumentInstruction neg _ => Some (- a, b)
  | NArgumentInstruction sav _ => Some (a, a)
  | NArgumentInstruction swp _ => Some (b, a)
  | NArgumentInstruction mov [IntegerLiteral x; RegisterLiteral _] => Some (x, b)
  | NArgumentInstruction mov [RegisterLiteral _; RegisterLiteral _] => Some (a, b)
  | _ => None
  end.

(** A node with the register pair [(a, b)] written at index [k]. *)
Definition with_pair (k : nat) (a b : Z) (nd : TISNode) : TISNode :=
  set_baks (<[k := b]> (baks nd)) (set_accs (<[k := a]> (accs nd)) nd).

(** The instruction is not a [swt]. *)
Definition not_swt (instr : ASTNode) : Prop :=
  forall args, instr <> NArgumentInstruction swt args.

(** The node's cursor is [c], and the register pair at another index [j]
    holds [(x, y)]. *)
Definition other_pair (c : Z) (j : nat) (x y : Z) (nd : TISNode) : Prop :=
  _register_cursor nd = c /\ accs nd !! j = Some x /\ baks nd !! j = Some y.

(** [swt n] with an integer operand. *)
Definition swt_int (n : Z) : ASTNode := NArgumentInstruction swt [IntegerLiteral n].

(** Node 5 with [swt 3] (resp. [swt 8]) followed by [add 4]. *)
Definition swt3_node : TISNode :=
  new_node 5 [swt_int 3; NArgumentInstruction add [IntegerLiteral 4]]
    (Some 0) (Some 10) None (Some 6).
Definition swt8_node : TISNode :=
  new_node 5 [swt_int 8; NArgumentInstruction add [IntegerLiteral 4]]
    (Some 0) (Some 10) None (Some 6).

(** [target] is parked receiving from the direction mirrored to [d], or from
    [ANY]: the test [target_node.wait_port in ("ANY", look_for_port)]. *)
Definition receptive (d : Direction) (target : TISNode) : bool :=
  bool_decide (wait_port target = Some ANY \/ wait_port target = Some (Dir (look_for d))).

(** The neighbour of [nd] in direction [d] exists in the grid, has code, and
    is receptive. *)
Definition accepts (m : machine) (nd : TISNode) (d : Direction) : bool :=
  match directions nd d with
  | Some tid =>
      match m !! tid with
      | Some target => receptive d target
      | None => false
      end
  | None => false
  end.

(** A node after the two assignments that open [set_value_to_port]. *)
Definition sending (port : Port) (value : Z) (nd : TISNode) : TISNode :=
  set_state WILL_BE_RUNNING (set_port_value (Some (port, value)) nd).

(** What a send of [value] to [ANY] by node [self] (attributes [nd], store
    [m]) returns and leaves behind, as the protocol describes it: success at
    the first direction of [ds] that accepts, with the value in that
    neighbour's [sent_value]; failure when none accepts. *)
Definition any_outcome (self value : Z) (m : machine) (nd : TISNode)
    (ds : list Direction) (r : result bool) : Prop :=
  match List.find (accepts m nd) ds with
  | Some d =>
      exists tid target,
        directions nd d = Some tid /\ m !! tid = Some target
        /\ r = Return true
                 (<[tid := set_sent_value (Some (look_for d, value)) target]>
                    (<[self := sending (Dir d) value nd]> m))
  | None => exists p, r = Return false (<[self := sending p value nd]> m)
  end.

(** Node 6 of the grid (neighbours 1 above, 5 left, 7 right, 11 below)
    running [mov 9, any], with nodes 1 and 5 parked on [mov down, acc] and
    [mov right, acc]. *)
Definition any_sender6 : TISNode :=
  new_node 6 [NArgumentInstruction mov [IntegerLiteral 9; PortLiteral ANY]]
    (Some 1) (Some 11) (Some 5) (Some 7).
Definition parked1 : TISNode :=
  set_state WILL_BE_RUNNING (set_wait_port (Some (Dir DOWN))
    (new_node 1 [NArgumentInstruction mov [PortLiteral (Dir DOWN); RegisterLiteral "ACC"]]
       None (Some 6) (Some 0) (Some 2))).
Definition parked5_right : TISNode :=
  set_state WILL_BE_RUNNING (set_wait_port (Some (Dir RIGHT))
    (new_node 5 [NArgumentInstruction mov [PortLiteral (Dir RIGHT); RegisterLiteral "ACC"]]
       (Some 0) (Some 10) None (Some 6))).
Definition any_grid : machine :=
  <[6 := any_sender6]> (<[1 := parked1]> (<[5 := parked5_right]> ∅)).

(** Node 5 with [swt up] as its program. *)
Definition swt_up : ASTNode := NArgumentInstruction swt [PortLiteral (Dir UP)].
Definition swt_up_node : TISNode :=
  new_node 5 [swt_up] (Some 0) (Some 10) None (Some 6).

(** Node 5 with a program that is a single label, [a:]. *)
Definition label_only_node : TISNode :=
  new_node 5 [Label "a"] (Some 0) (Some 10) None (Some 6).

(** Every statement of the program is a label. *)
Definition label_only (nd : TISNode) : Prop :=
  forall i, 0 <= i < ast_len nd -> exists name, Py.getitem (ast nd) i = Some (Label name).

(** Node 0 running [mov 1, down] above node 5 running [mov up, down]; node
    10, below node 5, has no code. *)
Definition relay_grid : machine :=
  <[0 := new_node 0 [NArgumentInstruction mov [IntegerLiteral 1; PortLiteral (Dir DOWN)]]
           None (Some 5) None (Some 1)]>
    (<[5 := new_node 5 [NArgumentInstruction mov [PortLiteral (Dir UP); PortLiteral (Dir DOWN)]]
              (Some 0) (Some 10) None (Some 6)]> ∅).

(** A single node 0 running [mov 1, nil] then [mov right, acc]. *)
Definition nil_then_read : machine :=
  {[ 0 := new_node 0 [NArgumentInstruction mov [IntegerLiteral 1; PortLiteral NIL];
                      NArgumentInstruction mov [PortLiteral (Dir RIGHT); RegisterLiteral "ACC"]]
            None (Some 5) None (Some 1) ]}.

(** The invariant of the data model: a node is never both parked on a
    receive and holding a pending send. *)
Definition send_receive_exclusive (nd : TISNode) : Prop :=
  ~ (is_Some (wait_port nd) /\ is_Some (port_value nd)).

(** The default limit of the interpreter on nested calls. *)
Definition recursion_limit : nat := 1000.

(** The two-node scenario as written, one statement per line. *)
Definition nl : string := String Lexer.newline EmptyString.

Definition scenario_source : string :=
  "@0" ++ nl ++ "mov 5, acc" ++ nl ++ "add 3, acc" ++ nl ++ "mov acc, down" ++ nl
  ++ "@5" ++ nl ++ "mov up, acc".

Definition scenario_node0 : list ASTNode :=
  [ NArgumentInstruction mov [IntegerLiteral 5; RegisterLiteral "ACC"];
    NArgumentInstruction add [IntegerLiteral 3; RegisterLiteral "ACC"];
    NArgumentInstruction mov [RegisterLiteral "ACC"; PortLiteral (Dir DOWN)] ].

(** The scenario with [add] given its one operand. *)
Definition one_operand_source : string :=
  "@0" ++ nl ++ "mov 5, acc" ++ nl ++ "add 3" ++ nl ++ "mov acc, down" ++ nl
  ++ "@5" ++ nl ++ "mov up, acc".

Definition one_operand_node0 : list ASTNode :=
  [ NArgumentInstruction mov [IntegerLiteral 5; RegisterLiteral "ACC"];
    NArgumentInstruction add [IntegerLiteral 3];
    NArgumentInstruction mov [RegisterLiteral "ACC"; PortLiteral (Dir DOWN)] ].

Definition one_operand_grid : machine :=
  <[0 := new_node 0 one_operand_node0 None (Some 5) None (Some 1)]>
    (<[5 := receiver5]> ∅).

(** A node is running: neither parked on a receive nor holding a send, and
    with no delivered value waiting. *)
Definition running (nd : TISNode) : Prop :=
  wait_port nd = None /\ port_value nd = None /\ sent_value nd = None.

(* ===================================================================== *)
(** ** Properties of computations *)
(* ===================================================================== *)

(** [preserves P c]: if [P] holds of the store before [c], it holds of the
    store [c] leaves behind, whether [c] returns or raises. *)
Definition preserves {A : Type} (P : machine -> Prop) (c : M A) : Prop :=
  forall m, P m -> P (final_store (c m)).

(** The node stored under [i] satisfies [Q]. *)
Definition node_sat (i : Z) (Q : TISNode -> Prop) (m : machine) : Prop :=
  exists nd, m !! i = Some nd /\ Q nd.

(** Node properties that do not depend on the control and communication
    attributes. *)
Class ControlInsensitive (Q : TISNode -> Prop) : Prop := {
  ci_instruction_pointer v nd : Q nd -> Q (set_instruction_pointer v nd);
  ci_port_value v nd : Q nd -> Q (set_port_value v nd);
  ci_wait_port v nd : Q nd -> Q (set_wait_port v nd);
  ci_sent_value v nd : Q nd -> Q (set_sent_value v nd);
  ci_last_port v nd : Q nd -> Q (set_last_port v nd);
  ci_state v nd : Q nd -> Q (set_state v nd)
}.

(** The outcome is not a RecursionError; [c] never ends in one. *)
Definition not_recursion_error {A : Type} (r : result A) : Prop :=
  match r with
  | Raise e _ => e <> Py.RecursionError
  | Return _ _ => True
  end.

Definition no_recursion_error {A : Type} (c : M A) : Prop :=
  forall m, not_recursion_error (c m).

(** An instruction function that, when it returns, returns [True]: the
    instruction has completed. *)
Definition completes (c : M bool) : Prop :=
  forall m b m', c m = Return b m' -> b = true.

(** No operand of the instruction is a port. *)
Definition no_port_operand (instr : ASTNode) : Prop :=
  match instr with
  | NArgumentInstruction _ args => forall p, PortLiteral p ∉ args
  | _ => True
  end.

(** The statement is a label. *)
Definition is_label (n : ASTNode) : Prop := exists name, n = Label name.

(** The register files keep their eight slots and the cursor stays inside
    them. *)
Definition registers_ok (nd : TISNode) : Prop :=
  length (accs nd) = 8%nat /\ length (baks nd) = 8%nat /\ 0 <= _register_cursor nd < 8.

(* ===================================================================== *)
(** ** Observations used for the register pairs and for deliveries *)
(* ===================================================================== *)

(** The register pair at index [k], [(accs[k], baks[k])]. *)
Definition pair_at (k : nat) (nd : TISNode) : option (Z * Z) :=
  match accs nd !! k, baks nd !! k with
  | Some a, Some b => Some (a, b)
  | _, _ => None
  end.

(** The register-sensitive instructions that take their operand from a
    port: the accumulator they leave behind when it held [a] and the port
    gave [v]. *)
Definition port_effect (instr : ASTNode) (a v : Z) : option Z :=
  match instr with
  | NArgumentInstruction add [PortLiteral _] => Some (a + v)
  | NArgumentInstruction sub [PortLiteral _] => Some (a - v)
  | NArgumentInstruction mov [PortLiteral _; RegisterLiteral _] => Some v
  | _ => None
  end.

(** The port operand of [instr] gives node [self] the value [v] at once:
    the port is NIL and the node is not waiting, or the node is parked on a
    read and [v] has been delivered to it by a neighbour that has code. *)
Definition value_ready (m : machine) (self : Z) (nd : TISNode) (instr : ASTNode)
    (v : Z) : Prop :=
  (wait_port nd = None /\ v = 0
   /\ exists op rest, instr = NArgumentInstruction op (PortLiteral NIL :: rest))
  \/ (exists p from sid,
        wait_port nd = Some p /\ sent_value nd = Some (from, v)
        /\ directions nd from = Some sid /\ sid <> self /\ is_Some (m !! sid)).

(** What a send of [value] to [ANY] by node [self] (attributes [nd], store
    [m]) returns and leaves behind, read off the attributes: success at the
    first direction of [ds] that accepts, with the value in that neighbour's
    [sent_value] and on the sender's [port_value], and no other node
    changed; failure when none accepts, with no node but the sender
    changed. *)
Definition any_delivery (self value : Z) (m : machine) (nd : TISNode)
    (ds : list Direction) (r : result bool) : Prop :=
  match List.find (accepts m nd) ds with
  | Some d =>
      exists tid target m' target' nd',
        r = Return true m'
        /\ directions nd d = Some tid /\ m !! tid = Some target
        /\ m' !! tid = Some target'
        /\ sent_value target' = Some (look_for d, value)
        /\ wait_port target' = wait_port target
        /\ m' !! self = Some nd'
        /\ port_value nd' = Some (Dir d, value)
        /\ forall j, j <> self -> j <> tid -> m' !! j = m !! j
  | None =>
      exists m' nd' p,
        r = Return false m'
        /\ m' !! self = Some nd'
        /\ port_value nd' = Some (p, value)
        /\ forall j, j <> self -> m' !! j = m !! j
  end.

(* ===================================================================== *)
(** ** Further notions used in the properties of the whole engine *)
(* ===================================================================== *)

(** The attributes that [__init__] computes and no method assigns again. *)
Definition static_attributes (nd : TISNode) :=
  (id nd, ast nd, ast_instr_real_lookup nd, ast_real_instr_lookup nd, ast_len nd,
   (up_id nd, down_id nd, left_id nd, right_id nd), label_table nd).

(** The attribute assignments that the methods make. *)
Inductive is_setter : (TISNode -> TISNode) -> Prop :=
| setter_instruction_pointer v : is_setter (set_instruction_pointer v)
| setter_port_value v : is_setter (set_port_value v)
| setter_wait_port v : is_setter (set_wait_port v)
| setter_sent_value v : is_setter (set_sent_value v)
| setter_last_port v : is_setter (set_last_port v)
| setter_accs v : is_setter (set_accs v)
| setter_baks v : is_setter (set_baks v)
| setter_register_cursor v : is_setter (set_register_cursor v)
| setter_state v : is_setter (set_state v).

(** The statement is an instruction. *)
Definition is_instruction (n : ASTNode) : Prop :=
  exists op args, n = NArgumentInstruction op args.

(** [type(ast_node) == NArgumentInstruction] *)
Definition is_instruction_b (n : ASTNode) : bool :=
  match n with NArgumentInstruction _ _ => true | _ => false end.

(** The number of instructions among the first [n] statements. *)
Definition instructions_before (ast : list ASTNode) (n : nat) : nat :=
  length (List.filter is_instruction_b (take n ast)).

(** The operands that the table of [validate_instruction] allows for an
    opcode. *)
Definition well_formed_operands (op : Opcode) (args : list ASTNode) : Prop :=
  match op with
  | mov => exists s d, args = [s; d] /\ type_of s ∈ IPR
                       /\ type_of d ∈ [TPortLiteral; TRegisterLiteral]
  | nop | swp | sav | neg => args = []
  | swt | add | sub | jro => exists a, args = [a] /\ type_of a ∈ IPR
  | jmp | jez | jnz | jgz | jlz => exists name, args = [LabelReference name]
  | hcf => False
  end.

(** A statement that [validate_node] lets through, given the names that the
    label table holds. *)
Definition statement_accepted (defined : string -> Prop) (stmt : ASTNode) : Prop :=
  match stmt with
  | NArgumentInstruction op args => well_formed_operands op args
  | LabelReference name => defined name
  | _ => True
  end.

(** The tables of the node are the ones that [__init__] builds from its
    program. *)
Definition tables_built (nd : TISNode) : Prop :=
  ast_instr_real_lookup nd = instr_indices (ast nd) 0
  /\ ast_real_instr_lookup nd = reverse_lookup (instr_indices (ast nd) 0) 0 ∅
  /\ ast_len nd = Py.len (ast nd)
  /\ label_table nd = build_label_table (ast nd) 0 ∅.

(** The node has between 1 and 256 statements, and its instruction pointer
    is the index of one of them. *)
Definition pointer_in_range (nd : TISNode) : Prop :=
  tables_built nd
  /\ 0 < Py.len (ast nd) <= 256
  /\ 0 <= instruction_pointer nd < Py.len (ast nd).

(** The instruction pointer after [incr_instr_pointer] on a pointer [ip]. *)
Definition next_pointer (nd : TISNode) (ip : Z) : Z :=
  if Py.int_is (ip + 1) (ast_len nd) then 0 else ip + 1.

(** Whether a jump instruction jumps when the current accumulator holds
    [a]. *)
Definition jump_taken (op : Opcode) (a : Z) : option bool :=
  match op with
  | jmp => Some true
  | jez => Some (a =? 0)
  | jnz => Some (negb (a =? 0))
  | jgz => Some (0 <? a)
  | jlz => Some (a <? 0)
  | _ => None
  end.

(** The value of a [mov] source that is an integer or the accumulator. *)
Definition immediate_source (nd : TISNode) (source : ASTNode) : option Z :=
  match source with
  | IntegerLiteral value => Some value
  | RegisterLiteral _ => current_acc nd
  | _ => None
  end.




(** The tokens cover the characters from [start] to [stop] without gap or
    overlap, each with at least one character. *)
Fixpoint tiles (start : nat) (tokens : list Lexer.Token) (stop : nat) : Prop :=
  match tokens with
  | [] => start = stop
  | t :: rest =>
      Lexer.slice_start t = start
      /\ (start < Lexer.slice_stop t)%nat
      /\ tiles (Lexer.slice_stop t) rest stop
  end.

(** What the parser builds: an operand is an integer, port or register
    literal or a label reference; a statement is an instruction with such
    operands, or a label. *)
Definition parsed_operand (a : ASTNode) : Prop :=
  type_of a ∈ [TIntegerLiteral; TPortLiteral; TRegisterLiteral; TLabelReference].

Definition parsed_statement (stmt : ASTNode) : Prop :=
  match stmt with
  | NArgumentInstruction _ args => Forall parsed_operand args
  | Label _ => True
  | _ => False
  end.

(** No token of the stack is a comment. *)
Definition comment_free (stack : list Lexer.Token) : Prop :=
  Forall (fun t => Lexer.type t <> Lexer.COMMENT_def) stack.

(** [c] raises only exceptions that [allowed] lets through. *)
Definition raises_only {A : Type} (allowed : Py.exn -> bool) (c : M A) : Prop :=
  forall m e m', c m = Raise e m' -> allowed e = true.

(** The errors of a failed lookup: a key that a dictionary does not hold, an
    index outside a list, an attribute of the [None] that
    [get_node_with_id] returns for a missing node. *)
Definition lookup_error (e : Py.exn) : bool :=
  bool_decide (e ∈ [Py.KeyError; Py.IndexError; Py.AttributeError]).

(** The errors of [swt]: those, and the two of its range check. *)
Definition swt_error (e : Py.exn) : bool :=
  lookup_error e || bool_decide (e ∈ [Py.TypeError; Py.TISSyntaxError]).



(** Nodes 0 and 1 of the grid, each sending to the other. *)
Definition right_sender0 : TISNode :=
  new_node 0 [NArgumentInstruction mov [IntegerLiteral 1; PortLiteral (Dir RIGHT)]]
    None (Some 5) None (Some 1).
Definition left_sender1 : TISNode :=
  new_node 1 [NArgumentInstruction mov [IntegerLiteral 2; PortLiteral (Dir LEFT)]]
    None (Some 6) (Some 0) (Some 2).
Definition deadlock_grid : machine :=
  <[0 := right_sender0]> (<[1 := left_sender1]> ∅).


(* ===================================================================== *)
(** ** Reasoning about the monad *)
(* ===================================================================== *)

Section MonadFacts.
Context {A B : Type}.
Implicit Types (k : A -> M B) (m : machine).

Lemma bind_Return (c : M A) k m a m' :
  c m = Return a m' -> bind c k m = k a m'.
Proof. unfold bind. intros ->. reflexivity. Qed.

Lemma bind_Raise (c : M A) k m e m' :
  c m = Raise e m' -> bind c k m = Raise e m'.
Proof. unfold bind. intros ->. reflexivity. Qed.

Lemma bind_ret (a : A) k m : bind (ret a) k m = k a m.
Proof. reflexivity. Qed.

Lemma bind_raise e k m : bind (raise e) k m = Raise e m.
Proof. reflexivity. Qed.

Lemma bind_or_raise_Some e (a : A) k m : bind (or_raise e (Some a)) k m = k a m.
Proof. reflexivity. Qed.

Lemma bind_or_raise_None e k m : bind (or_raise e None) k m = Raise e m.
Proof. reflexivity. Qed.
End MonadFacts.

Lemma bind_assoc {A B C : Type} (c : M A) (k1 : A -> M B) (k2 : B -> M C) m :
  bind (bind c k1) k2 m = bind c (fun x => bind (k1 x) k2) m.
Proof. unfold bind. destruct (c m); reflexivity. Qed.

Lemma bind_ext {A B : Type} (c : M A) (k1 k2 : A -> M B) m :
  (forall a m', k1 a m' = k2 a m') -> bind c k1 m = bind c k2 m.
Proof. intros H. unfold bind. destruct (c m); [apply H | reflexivity]. Qed.

Lemma self_Some m s nd : m !! s = Some nd -> self_ s m = Return nd m.
Proof. unfold self_. intros ->. reflexivity. Qed.

Lemma assign_Some m s nd f :
  m !! s = Some nd -> assign s f m = Return tt (<[s := f nd]> m).
Proof. unfold assign. intros ->. reflexivity. Qed.

Lemma bind_self {B : Type} m s nd (k : TISNode -> M B) :
  m !! s = Some nd -> bind (self_ s) k m = k nd m.
Proof. intros H. apply bind_Return, self_Some, H. Qed.

Lemma bind_assign {B : Type} m s nd f (k : unit -> M B) :
  m !! s = Some nd -> bind (assign s f) k m = k tt (<[s := f nd]> m).
Proof. intros H. apply bind_Return, assign_Some, H. Qed.

Lemma bind_get_node_with_id {B : Type} m i (k : option TISNode -> M B) :
  bind (get_node_with_id i) k m = k (m !! i) m.
Proof. reflexivity. Qed.

Lemma getitem_0 {A : Type} (x : A) (l : list A) : Py.getitem (x :: l) 0 = Some x.
Proof. reflexivity. Qed.

Lemma getitem_1 {A : Type} (x y : A) (l : list A) : Py.getitem (x :: y :: l) 1 = Some y.
Proof. reflexivity. Qed.

(** Symbolic execution of straight-line monadic code on a store whose
    relevant lookups are known. *)
Ltac mlookup := first [ eassumption | apply lookup_insert_eq ].
Ltac mexec :=
  repeat first
    [ rewrite bind_assoc
    | rewrite bind_ret
    | rewrite getitem_0
    | rewrite getitem_1
    | rewrite bind_raise
    | rewrite bind_or_raise_Some
    | rewrite bind_or_raise_None
    | rewrite bind_get_node_with_id
    | erewrite bind_self by mlookup
    | erewrite bind_assign by mlookup
    | erewrite self_Some by mlookup
    | erewrite assign_Some by mlookup
    | rewrite insert_insert_eq
    | progress cbn [negb andb orb]
    | progress cbv beta iota ].

(* ===================================================================== *)
(** ** Python list indexing *)
(* ===================================================================== *)

Lemma getitem_setitem {A : Type} (l : list A) (i : Z) (v x : A) :
  Py.getitem l i = Some v ->
  exists l', Py.setitem l i x = Some l'
             /\ Py.getitem l' i = Some x
             /\ length l' = length l.
Proof.
  intros H. unfold Py.setitem. rewrite H.
  eexists. split; [reflexivity|].
  unfold Py.getitem in *.
  destruct (0 <=? i) eqn:Hi.
  - rewrite length_insert. split; [|reflexivity].
    apply list_lookup_insert_eq. eapply lookup_lt_Some; eauto.
  - rewrite length_insert.
    destruct (0 <=? Z.of_nat (length l) + i) eqn:Hj; [|discriminate].
    split; [|reflexivity].
    apply list_lookup_insert_eq. eapply lookup_lt_Some; eauto.
Qed.

Lemma cur_acc_Some m s nd v :
  m !! s = Some nd -> current_acc nd = Some v -> cur_acc s m = Return v m.
Proof.
  intros Hs Hv. unfold cur_acc. mexec. unfold current_acc in Hv. rewrite Hv. reflexivity.
Qed.

Lemma set_cur_acc_Some m s nd v x :
  m !! s = Some nd -> current_acc nd = Some v ->
  exists accs', Py.setitem (accs nd) (_register_cursor nd) x = Some accs'
    /\ set_cur_acc s x m = Return tt (<[s := set_accs accs' nd]> m)
    /\ current_acc (set_accs accs' nd) = Some x.
Proof.
  intros Hs Hv.
  destruct (getitem_setitem _ _ _ x Hv) as (l' & Hset & Hget & _).
  exists l'. split; [exact Hset|]. split.
  - unfold set_cur_acc. mexec. rewrite Hset. mexec. reflexivity.
  - exact Hget.
Qed.


(* ===================================================================== *)
(** ** Store properties kept by a computation *)
(* ===================================================================== *)

Section Preserves.
Context (P : machine -> Prop).

Lemma preserves_ret {A} (a : A) : preserves P (ret a).
Proof. intros m H. exact H. Qed.

Lemma preserves_raise {A} e : preserves P (@raise A e).
Proof. intros m H. exact H. Qed.

Lemma preserves_or_raise {A} e (o : option A) : preserves P (or_raise e o).
Proof. destruct o; [apply preserves_ret | apply preserves_raise]. Qed.

Lemma preserves_self s : preserves P (self_ s).
Proof. intros m H. unfold self_. destruct (m !! s); exact H. Qed.

Lemma preserves_get_node_with_id i : preserves P (get_node_with_id i).
Proof. intros m H. exact H. Qed.

Lemma preserves_bind {A B} (c : M A) (k : A -> M B) :
  preserves P c -> (forall a, preserves P (k a)) -> preserves P (bind c k).
Proof.
  intros Hc Hk m H. specialize (Hc m H). unfold bind.
  destruct (c m) as [a m'|e m']; simpl in *; [apply Hk|]; assumption.
Qed.
End Preserves.

(** An assignment keeps [node_sat i Q] when, in case it hits node [i], the
    assigned attribute does not matter to [Q]. *)
Lemma preserves_assign i Q j f :
  (i = j -> forall nd, Q nd -> Q (f nd)) ->
  preserves (node_sat i Q) (assign j f).
Proof.
  intros Hf m (nd & Hnd & HQ). unfold assign.
  destruct (m !! j) as [ndj|] eqn:Hj; simpl; [|exists nd; auto].
  destruct (decide (i = j)) as [->|Hne].
  - rewrite Hj in Hnd. injection Hnd as ->.
    exists (f nd). rewrite lookup_insert_eq. auto.
  - exists nd. rewrite lookup_insert_ne by congruence. auto.
Qed.

(** Structural steps shared by all preservation proofs: [known] applies the
    lemmas already proved for the methods called, [side] discharges the
    condition of [preserves_assign]. *)
Ltac preserves_with known side :=
  repeat first
    [ known
    | apply preserves_ret
    | apply preserves_raise
    | apply preserves_or_raise
    | apply preserves_self
    | apply preserves_get_node_with_id
    | apply preserves_assign; solve [side]
    | apply preserves_bind; [|intro]
    | match goal with
      | |- preserves _ (match ?x with _ => _ end) => destruct x
      | |- preserves _ (if ?b then _ else _) => destruct b
      end
    | assumption ].

(* ===================================================================== *)
(** ** What a step of one node can do to another node *)
(* ===================================================================== *)

Lemma set_port_value_None_id nd : port_value nd = None -> set_port_value None nd = nd.
Proof. destruct nd; simpl; intros ->; reflexivity. Qed.

(** A node that is neither parked on a receive nor holding a pending send is
    out of reach of every other node: the only writes into a neighbour are
    the delivery into a node whose [wait_port] is set and the reset of a
    sender's [port_value]. *)
Section Frame.
Context (self : Z) (nd0 : TISNode).
Hypothesis Hwait : wait_port nd0 = None.
Hypothesis Hport : port_value nd0 = None.

Let untouched : machine -> Prop := node_sat self (eq nd0).

Ltac side :=
  intros ? ? <-;
  first [ congruence
        | symmetry; apply set_port_value_None_id; assumption ].

Lemma frame_deliver t port value : preserves untouched (deliver t port value).
Proof.
  unfold deliver. apply preserves_bind; [apply preserves_self|]. intros nd.
  destruct (directions nd port) as [tid|]; [|apply preserves_ret].
  intros m (x & Hx & <-). unfold bind, get_node_with_id.
  destruct (m !! tid) as [target|] eqn:Ht; [|exists nd0; auto].
  case_bool_decide as Hrec; [|exists nd0; auto].
  unfold assign. rewrite Ht. simpl.
  exists nd0. split; [|reflexivity].
  rewrite lookup_insert_ne; [assumption|].
  intros ->. rewrite Hx in Ht. injection Ht as <-.
  rewrite Hwait in Hrec. destruct Hrec; discriminate.
Qed.

Section Other.
Context (t : Z) (Hne : t <> self).

Lemma frame_get_value_from_port port :
  preserves untouched (get_value_from_port t port).
Proof. unfold get_value_from_port. preserves_with fail side. Qed.

Lemma frame_set_value_to_direction port value :
  preserves untouched (set_value_to_direction t port value).
Proof.
  unfold set_value_to_direction.
  preserves_with ltac:(apply frame_deliver) side.
Qed.

Lemma frame_any_loop value ds : preserves untouched (any_loop t value ds).
Proof.
  induction ds as [|d ds IH]; cbn [any_loop];
    preserves_with ltac:(apply frame_set_value_to_direction) side.
Qed.

Lemma frame_set_value_to_port port value :
  preserves untouched (set_value_to_port t port value).
Proof.
  unfold set_value_to_port.
  preserves_with
    ltac:(first [ apply frame_deliver | apply frame_any_loop
                | apply frame_set_value_to_direction ]) side.
Qed.

Ltac frame_ports :=
  first [ apply frame_get_value_from_port | apply frame_set_value_to_port ].

Lemma frame_do_instr instr : preserves untouched (do_instr t instr).
Proof.
  destruct instr as [| op args | | | |]; cbn [do_instr]; try apply preserves_raise.
  destruct op;
    unfold instr_mov, mov_destination, instr_nop, instr_swp, instr_swt, instr_sav,
      instr_add, instr_sub, instr_neg, instr_jez, instr_jnz, instr_jgz, instr_jlz,
      jump_if, instr_jro, instr_jmp, cur_acc, cur_bak, set_cur_acc, set_cur_bak;
    preserves_with frame_ports side.
Qed.

Lemma frame_incr_instr_pointer : preserves untouched (incr_instr_pointer t).
Proof. unfold incr_instr_pointer. preserves_with fail side. Qed.

Lemma frame_step depth : preserves untouched (step depth t).
Proof.
  induction depth as [|d IH]; cbn [step];
    preserves_with
      ltac:(first [ apply frame_do_instr | apply frame_incr_instr_pointer ]) side.
Qed.
End Other.
End Frame.

(* ===================================================================== *)
(** ** The lexer always advances *)
(* ===================================================================== *)

Module LexerFacts.
Import Lexer.

Lemma some_of_nonempty p l m : some_of p l = Some m -> (0 < length m)%nat.
Proof.
  unfold some_of. destruct (fst (span p l)); [discriminate|].
  intros [= <-]. cbn. lia.
Qed.

Lemma re_match_nonempty r l m : re_match r l = Some m -> (0 < length m)%nat.
Proof.
  destruct r; cbn [re_match]; try apply some_of_nonempty.
  - destruct l as [|c l']; [discriminate|].
    destruct (is_digit19 c); [intros [= <-]; cbn; lia|].
    destruct (is_char "0" c); [intros [= <-]; cbn; lia|].
    destruct (is_char "-" c); [|discriminate].
    destruct l' as [|c' l'']; [discriminate|].
    destruct (is_digit19 c'); [intros [= <-]; cbn; lia | discriminate].
  - destruct l as [|c l']; [discriminate|].
    destruct (is_char "@" c); [|discriminate].
    destruct (some_of is_digit l'); [intros [= <-]; cbn; lia | discriminate].
  - destruct (span is_symbol l) as [[|c m'] [|c' rest]]; try discriminate.
    destruct (is_char ":" c'); [intros [= <-]; cbn; lia | discriminate].
  - destruct l as [|c l']; [discriminate|].
    destruct (is_char "#" c); [|discriminate].
    destruct (some_of _ l'); [intros [= <-]; cbn; lia | discriminate].
Qed.

Lemma match_def_nonempty d l m :
  d ∈ _defs -> match_def d l = Some m -> (0 < length m)%nat.
Proof.
  intros Hd. unfold match_def.
  destruct (matcher d) as [pattern|r] eqn:Hm; [|apply re_match_nonempty].
  destruct (startswith_lower l (chars pattern)); [|discriminate].
  intros [= <-].
  apply list_elem_of_In in Hd. cbn in Hd.
  repeat destruct Hd as [<-|Hd]; try contradiction;
    cbn in Hm; try discriminate Hm; injection Hm as <-; cbn; lia.
Qed.

(** The loop state of [get_first_token]: a held token starts at [start] and
    is as long as the non-empty text it was made from. *)
Definition held_ok (start : nat) (st : option Token * list ascii) : Prop :=
  match fst st with
  | Some t => slice_start t = start
              /\ slice_stop t = (start + length (snd st))%nat
              /\ (0 < length (snd st))%nat
  | None => True
  end.

Lemma consider_held_ok match_text start st d :
  d ∈ _defs -> held_ok start st -> held_ok start (consider match_text start st d).
Proof.
  intros Hd Hst. unfold consider. destruct st as [token token_text].
  destruct (match_def d match_text) as [m|] eqn:Hm; [|exact Hst].
  destruct (_ <? _)%nat; [exact Hst|].
  destruct (_ && _); [exact Hst|].
  unfold held_ok. cbn. repeat split. eapply match_def_nonempty; eassumption.
Qed.

Lemma fold_consider_held_ok match_text start ds st :
  (forall d, d ∈ ds -> d ∈ _defs) ->
  held_ok start st ->
  held_ok start (fold_left (consider match_text start) ds st).
Proof.
  revert st. induction ds as [|d ds IH]; intros st Hin Hst; [exact Hst|].
  cbn [fold_left]. apply IH.
  - intros d' Hd'. apply Hin. right. exact Hd'.
  - apply consider_held_ok; [apply Hin; left | exact Hst].
Qed.

(** Every token that [get_first_token] returns starts at [start] and ends
    after it. *)
Lemma get_first_token_advances source start t :
  get_first_token source start = Some t ->
  slice_start t = start /\ (start < slice_stop t)%nat.
Proof.
  unfold get_first_token. cbv zeta.
  generalize (fold_consider_held_ok (drop start source) start _defs (None, [])
                (fun d Hd => Hd) I).
  generalize (fold_left (consider (drop start source) start) _defs (None, [])).
  intros st Hok H. unfold held_ok in Hok. rewrite H in Hok. lia.
Qed.

(** So the loop of [lex_gen] ends by itself: past [length source - start]
    rounds, more rounds yield nothing more. *)
Lemma lex_gen_loop_enough source :
  forall fuel fuel' start,
    (length source - start < fuel)%nat -> (length source - start < fuel')%nat ->
    lex_gen_loop fuel source start = lex_gen_loop fuel' source start.
Proof.
  induction fuel as [|fuel IH]; intros fuel' start Hf Hf'; [lia|].
  destruct fuel' as [|fuel']; [lia|].
  cbn [lex_gen_loop].
  destruct (Nat.leb_spec (length source) start) as [Hle|Hlt]; [reflexivity|].
  destruct (get_first_token source start) as [t|] eqn:Ht; [|reflexivity].
  apply get_first_token_advances in Ht as [_ Hadv].
  f_equal. apply IH; lia.
Qed.

End LexerFacts.

(* ===================================================================== *)
(** ** Which instructions touch which registers *)
(* ===================================================================== *)

Lemma getitem_nonneg {A : Type} (l : list A) (i : Z) :
  0 <= i -> Py.getitem l i = l !! Z.to_nat i.
Proof. intros H. unfold Py.getitem. destruct (Z.leb_spec 0 i); [reflexivity|lia]. Qed.

Lemma setitem_nonneg {A : Type} (l : list A) (i : Z) (v x : A) :
  0 <= i -> Py.getitem l i = Some v ->
  Py.setitem l i x = Some (<[Z.to_nat i := x]> l).
Proof.
  intros H Hv. unfold Py.setitem. rewrite Hv.
  destruct (Z.leb_spec 0 i); [reflexivity|lia].
Qed.

Section RegisterProperties.
Context (i : Z) (Q : TISNode -> Prop) `{!ControlInsensitive Q}.
Hypothesis Hacc : forall s v, preserves (node_sat i Q) (set_cur_acc s v).
Hypothesis Hbak : forall s v, preserves (node_sat i Q) (set_cur_bak s v).

Ltac side :=
  intros _ ? ?;
  first [ apply ci_instruction_pointer | apply ci_port_value | apply ci_wait_port
        | apply ci_sent_value | apply ci_last_port | apply ci_state ];
  assumption.

Lemma reg_get_value_from_port s port :
  preserves (node_sat i Q) (get_value_from_port s port).
Proof. unfold get_value_from_port. preserves_with fail side. Qed.

Lemma reg_set_value_to_direction s port value :
  preserves (node_sat i Q) (set_value_to_direction s port value).
Proof. unfold set_value_to_direction, deliver. preserves_with fail side. Qed.

Lemma reg_any_loop s value ds : preserves (node_sat i Q) (any_loop s value ds).
Proof.
  induction ds as [|d ds IH]; cbn [any_loop];
    preserves_with ltac:(apply reg_set_value_to_direction) side.
Qed.

Lemma reg_set_value_to_port s port value :
  preserves (node_sat i Q) (set_value_to_port s port value).
Proof.
  unfold set_value_to_port, deliver.
  preserves_with
    ltac:(first [ apply reg_any_loop | apply reg_set_value_to_direction ]) side.
Qed.

Lemma reg_do_instr s instr :
  not_swt instr -> preserves (node_sat i Q) (do_instr s instr).
Proof.
  intros Hns.
  destruct instr as [| op args | | | |]; cbn [do_instr]; try apply preserves_raise.
  destruct op; try (exfalso; eapply Hns; reflexivity);
    unfold instr_mov, mov_destination, instr_nop, instr_swp, instr_sav,
      instr_add, instr_sub, instr_neg, instr_jez, instr_jnz, instr_jgz, instr_jlz,
      jump_if, instr_jro, instr_jmp, cur_acc, cur_bak;
    preserves_with
      ltac:(first [ apply Hacc | apply Hbak | apply reg_get_value_from_port
                  | apply reg_set_value_to_port ]) side.
Qed.
End RegisterProperties.

(** The cursor itself. *)
#[local] Instance cursor_insensitive k :
  ControlInsensitive (fun nd => _register_cursor nd = k).
Proof. split; intros v nd H; exact H. Qed.

Lemma cursor_kept_unless_swt (i k s : Z) (instr : ASTNode) :
  not_swt instr ->
  preserves (node_sat i (fun nd => _register_cursor nd = k)) (do_instr s instr).
Proof.
  apply reg_do_instr; [apply _| |]; intros s' v;
    unfold set_cur_acc, set_cur_bak;
    preserves_with fail ltac:(intros _ ? H; exact H).
Qed.

(** The pairs other than the one under the cursor. *)
#[local] Instance other_pair_insensitive c j x y :
  ControlInsensitive (other_pair c j x y).
Proof. split; intros v nd H; exact H. Qed.

Lemma other_pair_set_cur_acc i c j x y s v :
  0 <= c -> j <> Z.to_nat c ->
  preserves (node_sat i (other_pair c j x y)) (set_cur_acc s v).
Proof.
  intros Hc Hj m (nd & Hnd & HQ). unfold set_cur_acc, bind, self_.
  destruct (m !! s) as [ns|] eqn:Hs; [|exists nd; auto].
  unfold Py.setitem.
  destruct (Py.getitem (accs ns) (_register_cursor ns)); [|exists nd; auto].
  cbn [or_raise ret]. unfold assign. rewrite Hs. cbn [final_store].
  destruct (decide (i = s)) as [->|Hne].
  - rewrite Hs in Hnd. injection Hnd as ->.
    eexists. split; [apply lookup_insert_eq|].
    destruct HQ as (Hcur & Ha & Hb). repeat split; try assumption.
    cbn [accs set_accs]. rewrite Hcur.
    destruct (Z.leb_spec 0 c); [|lia].
    rewrite list_lookup_insert_ne by congruence. exact Ha.
  - exists nd. rewrite lookup_insert_ne by congruence. auto.
Qed.

Lemma other_pair_set_cur_bak i c j x y s v :
  0 <= c -> j <> Z.to_nat c ->
  preserves (node_sat i (other_pair c j x y)) (set_cur_bak s v).
Proof.
  intros Hc Hj m (nd & Hnd & HQ). unfold set_cur_bak, bind, self_.
  destruct (m !! s) as [ns|] eqn:Hs; [|exists nd; auto].
  unfold Py.setitem.
  destruct (Py.getitem (baks ns) (_register_cursor ns)); [|exists nd; auto].
  cbn [or_raise ret]. unfold assign. rewrite Hs. cbn [final_store].
  destruct (decide (i = s)) as [->|Hne].
  - rewrite Hs in Hnd. injection Hnd as ->.
    eexists. split; [apply lookup_insert_eq|].
    destruct HQ as (Hcur & Ha & Hb). repeat split; try assumption.
    cbn [baks set_baks]. rewrite Hcur.
    destruct (Z.leb_spec 0 c); [|lia].
    rewrite list_lookup_insert_ne by congruence. exact Hb.
  - exists nd. rewrite lookup_insert_ne by congruence. auto.
Qed.

Lemma other_pair_kept_unless_swt (i c : Z) (j : nat) (x y s : Z) (instr : ASTNode) :
  0 <= c -> j <> Z.to_nat c -> not_swt instr ->
  preserves (node_sat i (other_pair c j x y)) (do_instr s instr).
Proof.
  intros Hc Hj. apply reg_do_instr; [apply _| |]; intros s' v.
  - apply other_pair_set_cur_acc; assumption.
  - apply other_pair_set_cur_bak; assumption.
Qed.

(* ===================================================================== *)
(** ** The register cursor is always in range *)
(* ===================================================================== *)

#[local] Instance registers_ok_insensitive : ControlInsensitive registers_ok.
Proof. split; intros v nd H; exact H. Qed.

Lemma registers_ok_new_node id ast u d l r : registers_ok (new_node id ast u d l r).
Proof. repeat split; cbn; lia. Qed.

Lemma registers_ok_set_cur_acc i s v :
  preserves (node_sat i registers_ok) (set_cur_acc s v).
Proof.
  intros m (nd & Hnd & HQ). unfold set_cur_acc, bind, self_.
  destruct (m !! s) as [ns|] eqn:Hs; [|exists nd; auto].
  unfold Py.setitem.
  destruct (Py.getitem (accs ns) (_register_cursor ns)); [|exists nd; auto].
  cbn [or_raise ret]. unfold assign. rewrite Hs. cbn [final_store].
  destruct (decide (i = s)) as [->|Hne].
  - rewrite Hs in Hnd. injection Hnd as ->.
    eexists. split; [apply lookup_insert_eq|].
    destruct HQ as (Ha & Hb & Hc). repeat split; try assumption; try apply Hc.
    cbn [accs set_accs]. destruct (0 <=? _register_cursor nd);
      rewrite length_insert; exact Ha.
  - exists nd. rewrite lookup_insert_ne by congruence. auto.
Qed.

Lemma registers_ok_set_cur_bak i s v :
  preserves (node_sat i registers_ok) (set_cur_bak s v).
Proof.
  intros m (nd & Hnd & HQ). unfold set_cur_bak, bind, self_.
  destruct (m !! s) as [ns|] eqn:Hs; [|exists nd; auto].
  unfold Py.setitem.
  destruct (Py.getitem (baks ns) (_register_cursor ns)); [|exists nd; auto].
  cbn [or_raise ret]. unfold assign. rewrite Hs. cbn [final_store].
  destruct (decide (i = s)) as [->|Hne].
  - rewrite Hs in Hnd. injection Hnd as ->.
    eexists. split; [apply lookup_insert_eq|].
    destruct HQ as (Ha & Hb & Hc). repeat split; try assumption; try apply Hc.
    cbn [baks set_baks]. destruct (0 <=? _register_cursor nd);
      rewrite length_insert; exact Hb.
  - exists nd. rewrite lookup_insert_ne by congruence. auto.
Qed.

(** The range check of [instr_swt] is what keeps the cursor in range. *)
Lemma registers_ok_instr_swt i s args :
  preserves (node_sat i registers_ok) (instr_swt s args).
Proof.
  unfold instr_swt.
  apply preserves_bind; [apply preserves_or_raise|]. intros swt_operand.
  apply preserves_bind.
  { destruct swt_operand;
      preserves_with
        ltac:(first [ apply reg_get_value_from_port; apply _ ])
        ltac:(intros _ ? H; exact H);
      unfold cur_acc; preserves_with fail ltac:(intros _ ? H; exact H). }
  intros value m (nd & Hnd & HQ). unfold bind, self_.
  destruct (m !! s) as [ns|] eqn:Hs; [|exists nd; auto].
  destruct value as [v|]; cbn [or_raise ret raise]; [|exists nd; auto].
  destruct ((Py.len (accs ns) >? v) && (v >=? 0)) eqn:Hrange; cbn [negb];
    [|exists nd; auto].
  unfold assign. rewrite Hs. cbn [final_store ret].
  destruct (decide (i = s)) as [->|Hne].
  - rewrite Hs in Hnd. injection Hnd as ->.
    eexists. split; [apply lookup_insert_eq|].
    destruct HQ as (Ha & Hb & Hc). repeat split; try assumption;
      cbn [_register_cursor set_register_cursor]; unfold Py.len in Hrange; lia.
  - exists nd. rewrite lookup_insert_ne by congruence. auto.
Qed.

Lemma registers_ok_do_instr i s instr :
  preserves (node_sat i registers_ok) (do_instr s instr).
Proof.
  destruct instr as [| op args | | | |]; try apply preserves_raise.
  destruct (decide (op = swt)) as [->|Hop].
  - apply registers_ok_instr_swt.
  - apply reg_do_instr; [apply _ | | |].
    + intros s' v. apply registers_ok_set_cur_acc.
    + intros s' v. apply registers_ok_set_cur_bak.
    + intros args' E. injection E as E _. exact (Hop E).
Qed.

(** Every [step] of every node keeps every node's register files and
    cursor well formed. *)
Lemma registers_ok_step i depth s :
  preserves (node_sat i registers_ok) (step depth s).
Proof.
  induction depth as [|d IH]; cbn [step]; unfold incr_instr_pointer;
    preserves_with ltac:(apply registers_ok_do_instr) ltac:(intros _ ? H; exact H).
Qed.

(** With the cursor in range the current accumulator and backup exist. *)
Lemma registers_ok_current nd :
  registers_ok nd -> is_Some (current_acc nd) /\ is_Some (current_bak nd).
Proof.
  intros (Ha & Hb & Hc). unfold current_acc, current_bak.
  rewrite !getitem_nonneg by lia.
  split; apply lookup_lt_is_Some; lia.
Qed.

(* ===================================================================== *)
(** ** Instructions without a port operand complete *)
(* ===================================================================== *)

Lemma completes_ret_true : completes (ret true).
Proof. intros m b m' H. injection H as <- _. reflexivity. Qed.

Lemma completes_raise e : completes (raise e).
Proof. intros m b m' H. discriminate H. Qed.

Lemma completes_bind {A : Type} (c : M A) (k : A -> M bool) :
  (forall a, completes (k a)) -> completes (bind c k).
Proof.
  intros Hk m b m' H. unfold bind in H.
  destruct (c m) as [a m1|e m1]; [exact (Hk a m1 b m' H) | discriminate H].
Qed.

Lemma completes_bind_ret {A : Type} (a : A) (k : A -> M bool) :
  completes (k a) -> completes (bind (ret a) k).
Proof. intros Hk m b m' H. exact (Hk m b m' H). Qed.

Lemma completes_bind_assoc {A B : Type} (c : M A) (k1 : A -> M B) (k2 : B -> M bool) :
  completes (bind c (fun x => bind (k1 x) k2)) -> completes (bind (bind c k1) k2).
Proof. intros H m b m' Hr. rewrite bind_assoc in Hr. exact (H m b m' Hr). Qed.

Ltac completes_tac :=
  repeat first
    [ apply completes_ret_true
    | apply completes_raise
    | rewrite getitem_0
    | rewrite getitem_1
    | apply completes_bind_assoc
    | apply completes_bind_ret
    | apply completes_bind; intro
    | match goal with
      | |- completes (or_raise _ ?o ;; _)%py => destruct o
      | |- completes (match ?x with _ => _ end) => destruct x
      | |- completes (if ?b then _ else _) => destruct b
      end ].

Lemma num_check_length args num :
  instr_arg_num_check args num = None -> Z.of_nat (length args) = num.
Proof.
  unfold instr_arg_num_check, Py.int_is, Py.len.
  destruct (Z.eqb_spec (Z.of_nat (length args)) num); [auto|].
  cbn. discriminate.
Qed.

Lemma completes_instr_jmp s args : completes (instr_jmp s args).
Proof. unfold instr_jmp. completes_tac. Qed.

(** An instruction that passed validation and has no port among its operands
    never returns "not yet complete": port reads and writes are the only
    source of an incomplete instruction. *)
Lemma port_free_instruction_completes s instr :
  validate_instruction instr = inr None ->
  no_port_operand instr ->
  completes (do_instr s instr).
Proof.
  intros Hval Hnp.
  destruct instr as [| op args | | | |]; cbn [do_instr]; try apply completes_raise.
  cbn [validate_instruction] in Hval. cbn [no_port_operand] in Hnp.
  destruct op; cbn [opcode_check_dict] in Hval;
    (* no path of these, nor of [instr_swt], returns False *)
    try (unfold instr_nop, instr_swp, instr_sav, instr_neg, instr_swt;
         completes_tac; fail);
    try (unfold instr_jez, instr_jnz, instr_jgz, instr_jlz, jump_if;
         completes_tac; apply completes_instr_jmp);
    try apply completes_instr_jmp;
    try apply completes_raise;
    destruct (instr_arg_num_check args _) eqn:Hnum; try discriminate;
    apply num_check_length in Hnum.
  - (* mov *)
    destruct args as [|src [|dst [|]]]; try (cbn [length] in Hnum; lia).
    assert (Hs : forall p, src <> PortLiteral p).
    { intros p ->. apply (Hnp p). left. }
    assert (Hd : forall p, dst <> PortLiteral p).
    { intros p ->. apply (Hnp p). right. left. }
    unfold instr_mov. change (Py.int_is _ 2) with true. cbn [negb].
    destruct src, dst; try (exfalso; eapply Hs; reflexivity);
      try (exfalso; eapply Hd; reflexivity);
      try (vm_compute in Hval; discriminate Hval);
      unfold mov_destination; completes_tac.
  - (* add *)
    destruct args as [|a0 [|]]; try (cbn [length] in Hnum; lia).
    assert (Ha : forall p, a0 <> PortLiteral p).
    { intros p ->. apply (Hnp p). left. }
    unfold instr_add.
    destruct a0; try (exfalso; eapply Ha; reflexivity); completes_tac.
  - (* sub *)
    destruct args as [|a0 [|]]; try (cbn [length] in Hnum; lia).
    assert (Ha : forall p, a0 <> PortLiteral p).
    { intros p ->. apply (Hnp p). left. }
    unfold instr_sub.
    destruct a0; try (exfalso; eapply Ha; reflexivity); completes_tac.
  - (* jro *)
    destruct args as [|a0 [|]]; try (cbn [length] in Hnum; lia).
    assert (Ha : forall p, a0 <> PortLiteral p).
    { intros p ->. apply (Hnp p). left. }
    unfold instr_jro.
    destruct a0; try (exfalso; eapply Ha; reflexivity); completes_tac.
Qed.

(* ===================================================================== *)
(** ** Running the register accesses *)
(* ===================================================================== *)

Section RunRegisters.
Context {B : Type} (m : machine) (s : Z) (nd : TISNode).
Hypothesis Hs : m !! s = Some nd.

Lemma run_cur_acc a (k : Z -> M B) :
  current_acc nd = Some a -> bind (cur_acc s) k m = k a m.
Proof.
  intros Ha. unfold cur_acc. mexec. unfold current_acc in Ha. rewrite Ha. reflexivity.
Qed.

Lemma run_cur_bak b (k : Z -> M B) :
  current_bak nd = Some b -> bind (cur_bak s) k m = k b m.
Proof.
  intros Hb. unfold cur_bak. mexec. unfold current_bak in Hb. rewrite Hb. reflexivity.
Qed.

Lemma run_set_cur_acc a v (k : unit -> M B) :
  0 <= _register_cursor nd -> current_acc nd = Some a ->
  bind (set_cur_acc s v) k m
  = k tt (<[s := set_accs (<[Z.to_nat (_register_cursor nd) := v]> (accs nd)) nd]> m).
Proof.
  intros Hc Ha. unfold set_cur_acc. mexec.
  rewrite (setitem_nonneg _ _ a v Hc Ha). mexec. reflexivity.
Qed.

Lemma run_set_cur_bak b v (k : unit -> M B) :
  0 <= _register_cursor nd -> current_bak nd = Some b ->
  bind (set_cur_bak s v) k m
  = k tt (<[s := set_baks (<[Z.to_nat (_register_cursor nd) := v]> (baks nd)) nd]> m).
Proof.
  intros Hc Hb. unfold set_cur_bak. mexec.
  rewrite (setitem_nonneg _ _ b v Hc Hb). mexec. reflexivity.
Qed.
End RunRegisters.

(** Writing back the pair that is already there changes nothing. *)
Lemma with_pair_accs_only k a b nd :
  baks nd !! k = Some b ->
  with_pair k a b nd = set_accs (<[k := a]> (accs nd)) nd.
Proof.
  intros Hb. unfold with_pair. destruct nd; cbn in *.
  rewrite (list_insert_id _ _ _ Hb). reflexivity.
Qed.

Lemma with_pair_baks_only k a b nd :
  accs nd !! k = Some a ->
  with_pair k a b nd = set_baks (<[k := b]> (baks nd)) nd.
Proof.
  intros Ha. unfold with_pair. destruct nd; cbn in *.
  rewrite (list_insert_id _ _ _ Ha). reflexivity.
Qed.

(** The register-only instructions do to the pair under the cursor what
    [register_effect] says, and complete. *)
Lemma register_effect_sound m self nd instr a b a' b' :
  m !! self = Some nd ->
  0 <= _register_cursor nd ->
  current_acc nd = Some a ->
  current_bak nd = Some b ->
  register_effect instr a b = Some (a', b') ->
  do_instr self instr m
  = Return true (<[self := with_pair (Z.to_nat (_register_cursor nd)) a' b' nd]> m).
Proof.
  intros Hs Hc Ha Hb He.
  assert (Ha' : accs nd !! Z.to_nat (_register_cursor nd) = Some a).
  { unfold current_acc in Ha. rewrite getitem_nonneg in Ha by assumption. exact Ha. }
  assert (Hb' : baks nd !! Z.to_nat (_register_cursor nd) = Some b).
  { unfold current_bak in Hb. rewrite getitem_nonneg in Hb by assumption. exact Hb. }
  unfold register_effect in He.
  repeat match type of He with
         | context [match ?x with _ => _ end] => destruct x; try discriminate
         end;
    injection He as <- <-;
    cbn [do_instr];
    unfold instr_add, instr_sub, instr_neg, instr_sav, instr_swp, instr_mov,
      mov_destination;
    try change (Py.int_is (Py.len _) 2) with true;
    mexec;
    repeat first
      [ erewrite run_cur_acc by eassumption
      | erewrite run_cur_bak by eassumption
      | erewrite run_set_cur_acc by (first [eassumption | mlookup])
      | erewrite run_set_cur_bak by (first [eassumption | mlookup])
      | progress mexec ];
    cbn [_register_cursor set_accs set_baks accs baks];
    try replace (a * -1) with (- a) by lia;
    first
      [ rewrite (with_pair_accs_only _ _ _ _ Hb'); reflexivity
      | rewrite (with_pair_baks_only _ _ _ _ Ha'); reflexivity
      | reflexivity ].
Qed.

(* ===================================================================== *)
(** ** Where RecursionError can come from *)
(* ===================================================================== *)

Section NoRecursionError.
Lemma nre_ret {A} (a : A) : no_recursion_error (ret a).
Proof. intros m. exact I. Qed.

Lemma nre_raise {A} e : e <> Py.RecursionError -> no_recursion_error (@raise A e).
Proof. intros He m. exact He. Qed.

Lemma nre_or_raise {A} e (o : option A) :
  e <> Py.RecursionError -> no_recursion_error (or_raise e o).
Proof. intros He. destruct o; [apply nre_ret | apply nre_raise, He]. Qed.

Lemma nre_self s : no_recursion_error (self_ s).
Proof. intros m. unfold self_. destruct (m !! s); [exact I | discriminate]. Qed.

Lemma nre_assign s f : no_recursion_error (assign s f).
Proof. intros m. unfold assign. destruct (m !! s); [exact I | discriminate]. Qed.

Lemma nre_get_node_with_id i : no_recursion_error (get_node_with_id i).
Proof. intros m. exact I. Qed.

Lemma nre_bind {A B} (c : M A) (k : A -> M B) :
  no_recursion_error c -> (forall a, no_recursion_error (k a)) ->
  no_recursion_error (bind c k).
Proof.
  intros Hc Hk m. specialize (Hc m). unfold bind.
  destruct (c m) as [a m1|e1 m1]; [apply Hk | exact Hc].
Qed.
End NoRecursionError.

Ltac nre_with known :=
  repeat first
    [ known
    | apply nre_ret
    | apply nre_raise; discriminate
    | apply nre_or_raise; discriminate
    | apply nre_self
    | apply nre_get_node_with_id
    | apply nre_assign
    | apply nre_bind; [|intro]
    | match goal with
      | |- no_recursion_error (match ?x with _ => _ end) => destruct x
      | |- no_recursion_error (if ?b then _ else _) => destruct b
      end ].

Lemma nre_set_value_to_direction s d v :
  no_recursion_error (set_value_to_direction s d v).
Proof. unfold set_value_to_direction, deliver. nre_with fail. Qed.

Lemma nre_any_loop s v ds : no_recursion_error (any_loop s v ds).
Proof.
  induction ds as [|d ds IH]; cbn [any_loop];
    nre_with ltac:(first [apply nre_set_value_to_direction | exact IH]).
Qed.

Lemma nre_set_value_to_port s p v : no_recursion_error (set_value_to_port s p v).
Proof.
  unfold set_value_to_port, deliver.
  nre_with ltac:(first [apply nre_any_loop | apply nre_set_value_to_direction]).
Qed.

Lemma nre_get_value_from_port s p : no_recursion_error (get_value_from_port s p).
Proof. unfold get_value_from_port. nre_with fail. Qed.

Lemma nre_do_instr s instr : no_recursion_error (do_instr s instr).
Proof.
  destruct instr as [| op args | | | |]; cbn [do_instr];
    try (apply nre_raise; discriminate).
  destruct op;
    unfold instr_mov, mov_destination, instr_nop, instr_swp, instr_swt, instr_sav,
      instr_add, instr_sub, instr_neg, instr_jez, instr_jnz, instr_jgz, instr_jlz,
      jump_if, instr_jro, instr_jmp, cur_acc, cur_bak, set_cur_acc, set_cur_bak;
    nre_with ltac:(first [apply nre_get_value_from_port | apply nre_set_value_to_port]).
Qed.

Lemma nre_incr_instr_pointer s : no_recursion_error (incr_instr_pointer s).
Proof. unfold incr_instr_pointer. nre_with fail. Qed.

(** The instruction pointer after [incr_instr_pointer]. *)
Lemma incr_instr_pointer_run m s nd :
  m !! s = Some nd ->
  incr_instr_pointer s m
  = Return tt
      (<[s := set_instruction_pointer
                (if Py.int_is (instruction_pointer nd + 1) (ast_len nd)
                 then 0 else instruction_pointer nd + 1) nd]> m).
Proof.
  intros Hs. unfold incr_instr_pointer. mexec.
  cbn [instruction_pointer set_instruction_pointer ast_len].
  destruct (Py.int_is _ _); mexec; reflexivity.
Qed.

(* ===================================================================== *)
(** ** Sanity checks of the embedding *)
(* ===================================================================== *)

Example receiver5_constructed :
  TISNode_init 5 grid_height grid_width (Some [mov_up_acc]) = inr receiver5.
Proof. reflexivity. Qed.

Example parked5_reached :
  step 1 5 {[ 5 := receiver5 ]} = Return tt {[ 5 := parked5 ]}.
Proof. vm_compute. reflexivity. Qed.

Example last_reader5_constructed :
  TISNode_init 5 grid_height grid_width (Some [mov_last_acc]) = inr last_reader5.
Proof. reflexivity. Qed.

Example swt8_node_constructed :
  TISNode_init 5 grid_height grid_width
    (Some [swt_int 8; NArgumentInstruction add [IntegerLiteral 4]]) = inr swt8_node.
Proof. reflexivity. Qed.

(** [swt 3], then [add 4] lands in [accs[3]]. *)
Example swt3_then_add :
  exists m, steps 1 5 2 {[ 5 := swt3_node ]} = Return tt m
            /\ accs <$> m !! 5 = Some [0; 0; 0; 4; 0; 0; 0; 0].
Proof. eexists. split; vm_compute; reflexivity. Qed.

Example any_grid_constructed :
  TISNode_init 6 grid_height grid_width
    (Some [NArgumentInstruction mov [IntegerLiteral 9; PortLiteral ANY]]) = inr any_sender6
  /\ (exists n1 n5,
        TISNode_init 1 grid_height grid_width
          (Some [NArgumentInstruction mov [PortLiteral (Dir DOWN); RegisterLiteral "ACC"]])
        = inr n1
        /\ TISNode_init 5 grid_height grid_width
             (Some [NArgumentInstruction mov [PortLiteral (Dir RIGHT); RegisterLiteral "ACC"]])
           = inr n5
        /\ tick 1 [1; 5] (<[6 := any_sender6]> (<[1 := n1]> (<[5 := n5]> ∅)))
           = Return tt any_grid).
Proof. split; [reflexivity|]. do 2 eexists. repeat split; vm_compute; reflexivity. Qed.

Example swt_up_node_constructed :
  TISNode_init 5 grid_height grid_width (Some [swt_up]) = inr swt_up_node.
Proof. reflexivity. Qed.

Example label_only_node_constructed :
  TISNode_init 5 grid_height grid_width (Some [Label "a"]) = inr label_only_node.
Proof. reflexivity. Qed.

Example relay_grid_constructed :
  exists n0 n5,
    TISNode_init 0 grid_height grid_width
      (Some [NArgumentInstruction mov [IntegerLiteral 1; PortLiteral (Dir DOWN)]]) = inr n0
    /\ TISNode_init 5 grid_height grid_width
         (Some [NArgumentInstruction mov [PortLiteral (Dir UP); PortLiteral (Dir DOWN)]]) = inr n5
    /\ relay_grid = <[0 := n0]> (<[5 := n5]> ∅).
Proof. do 2 eexists. repeat split. Qed.

Example nil_then_read_constructed :
  exists n0,
    TISNode_init 0 grid_height grid_width
      (Some [NArgumentInstruction mov [IntegerLiteral 1; PortLiteral NIL];
             NArgumentInstruction mov [PortLiteral (Dir RIGHT); RegisterLiteral "ACC"]])
    = inr n0
    /\ nil_then_read = {[ 0 := n0 ]}.
Proof. eexists. split; reflexivity. Qed.

(** The concrete programs above are what [parse] yields for their source
    text. *)
Example sources_parse :
  Parser.parse ("@5" ++ nl ++ "a:") = Parser.Ok [(Lexer.VInt 5, [Label "a"])]
  /\ Parser.parse ("@5" ++ nl ++ "swt up") = Parser.Ok [(Lexer.VInt 5, [swt_up])]
  /\ Parser.parse ("@5" ++ nl ++ "mov last, acc") = Parser.Ok [(Lexer.VInt 5, [mov_last_acc])]
  /\ Parser.parse ("@0" ++ nl ++ "mov 1, nil" ++ nl ++ "mov right, acc")
     = Parser.Ok
         [(Lexer.VInt 0,
           [NArgumentInstruction mov [IntegerLiteral 1; PortLiteral NIL];
            NArgumentInstruction mov [PortLiteral (Dir RIGHT); RegisterLiteral "ACC"]])]
  /\ Parser.parse ("@0" ++ nl ++ "mov 1, down" ++ nl ++ "@5" ++ nl ++ "mov up, down")
     = Parser.Ok
         [(Lexer.VInt 0,
           [NArgumentInstruction mov [IntegerLiteral 1; PortLiteral (Dir DOWN)]]);
          (Lexer.VInt 5,
           [NArgumentInstruction mov [PortLiteral (Dir UP); PortLiteral (Dir DOWN)]])].
Proof. repeat split; vm_compute; reflexivity. Qed.

(* ===================================================================== *)
(** ** The two-node scenario *)
(* ===================================================================== *)

Lemma ticks_add depth ids a b m :
  ticks depth ids (a + b) m = (ticks depth ids a ;; ticks depth ids b)%py m.
Proof.
  revert m. induction a as [|a IH]; intros m; [reflexivity|].
  cbn [Nat.add ticks]. rewrite bind_assoc. apply bind_ext. intros _ m'. apply IH.
Qed.

(** A store that three ticks map to itself recurs after every multiple of
    three ticks. *)
Lemma ticks_period depth ids p m :
  ticks depth ids p m = Return tt m ->
  forall k, ticks depth ids (k * p) m = Return tt m.
Proof.
  intros Hp k. induction k as [|k IH]; [reflexivity|].
  cbn [Nat.mul]. rewrite ticks_add. rewrite (bind_Return _ _ _ _ _ Hp). exact IH.
Qed.

(** C1, as written.  The source parses to a program whose node 0 has [add]
    with two operands; [opcode_check_dict] allows [add] exactly one, so the
    constructor of node 0 raises TISSyntaxError and the grid is never built:
    no tick takes place. *)
Lemma scenario_as_written_is_rejected :
  Parser.parse scenario_source
  = Parser.Ok [(Lexer.VInt 0, scenario_node0); (Lexer.VInt 5, [mov_up_acc])]
  /\ TISNode_init 0 grid_height grid_width (Some scenario_node0) = inl Py.TISSyntaxError
  /\ build_machine grid_height grid_width
       [(Lexer.VInt 0, scenario_node0); (Lexer.VInt 5, [mov_up_acc])]
     = inl Py.TISSyntaxError.
Proof. repeat split; vm_compute; reflexivity. Qed.

(** C1, with one operand for [add].  With [add 3] in place of [add 3, acc]
    the source parses, both nodes pass validation, and on the 4 by 5 grid
    with the nodes visited in source order (0, then 5): after two ticks node
    0 has completed two instructions and holds 8; in the third tick its
    [mov acc, down] is delivered to node 5, parked on [mov up, acc], whose
    accumulator becomes 8; both nodes are then running again at the start of
    their programs, and the store after three ticks recurs every three
    ticks, so neither node is ever blocked for good. *)
Theorem scenario_with_one_operand_add :
  Parser.parse one_operand_source
  = Parser.Ok [(Lexer.VInt 0, one_operand_node0); (Lexer.VInt 5, [mov_up_acc])]
  /\ build_machine grid_height grid_width
       [(Lexer.VInt 0, one_operand_node0); (Lexer.VInt 5, [mov_up_acc])]
     = inr (one_operand_grid, [0; 5])
  /\ (exists m2 n0 n5,
        ticks recursion_limit [0; 5] 2 one_operand_grid = Return tt m2
        /\ m2 !! 0 = Some n0 /\ m2 !! 5 = Some n5
        /\ instruction_pointer n0 = 2 /\ current_acc n0 = Some 8
        /\ wait_port n5 = Some (Dir UP) /\ current_acc n5 = Some 0)
  /\ (exists m3 n0 n5,
        ticks recursion_limit [0; 5] 3 one_operand_grid = Return tt m3
        /\ m3 !! 0 = Some n0 /\ m3 !! 5 = Some n5
        /\ current_acc n5 = Some 8 /\ last_port n5 = Some UP
        /\ running n0 /\ running n5
        /\ instruction_pointer n0 = 0 /\ instruction_pointer n5 = 0
        /\ forall k, ticks recursion_limit [0; 5] (k * 3) m3 = Return tt m3).
Proof.
  split; [vm_compute; reflexivity|].
  split; [vm_compute; reflexivity|].
  split.
  - do 3 eexists.
    split; [vm_compute; reflexivity|].
    split; [vm_compute; reflexivity|].
    split; [vm_compute; reflexivity|].
    repeat split.
  - do 3 eexists.
    split; [vm_compute; reflexivity|].
    split; [vm_compute; reflexivity|].
    split; [vm_compute; reflexivity|].
    repeat split.
    apply ticks_period. vm_compute. reflexivity.
Qed.

(** The other visiting order (5, then 0) delays the receipt by one tick:
    node 0 delivers in the third tick, after node 5 has had its turn, and
    node 5 takes the value in the fourth. *)
Example scenario_other_order :
  exists m4 n5,
    ticks recursion_limit [5; 0] 4 one_operand_grid = Return tt m4
    /\ m4 !! 5 = Some n5 /\ current_acc n5 = Some 8 /\ running n5
    /\ forall k, ticks recursion_limit [5; 0] (k * 3) m4 = Return tt m4.
Proof.
  do 2 eexists.
  split; [vm_compute; reflexivity|].
  split; [vm_compute; reflexivity|].
  repeat split.
  apply ticks_period. vm_compute. reflexivity.
Qed.

(** C2, refuted.  Two reachable stores in which a node has both
    [wait_port] and [port_value] set.  In [relay_grid], after two ticks in
    the order 0, 5, node 5 has received on [mov up, down] and its send to the
    code-less node 10 has failed: it holds [wait_port = UP] and
    [port_value = (DOWN, 1)].  In [nil_then_read], [mov 1, nil] completes in
    the fresh-instruction branch of [step], which unlike the retry branch
    does not reset [port_value]; the next [step] parks on [mov right, acc]
    with [port_value = (NIL, 1)] still set. *)
Theorem send_and_receive_both_pending :
  (exists m nd,
      ticks 1 [0; 5] 2 relay_grid = Return tt m
      /\ m !! 5 = Some nd
      /\ wait_port nd = Some (Dir UP)
      /\ port_value nd = Some (Dir DOWN, 1)
      /\ ~ send_receive_exclusive nd)
  /\
  (exists m nd,
      steps 1 0 2 nil_then_read = Return tt m
      /\ m !! 0 = Some nd
      /\ wait_port nd = Some (Dir RIGHT)
      /\ port_value nd = Some (NIL, 1)
      /\ ~ send_receive_exclusive nd).
Proof.
  split.
  - eexists. eexists.
    split; [vm_compute; reflexivity|].
    split; [vm_compute; reflexivity|].
    split; [reflexivity|]. split; [reflexivity|].
    intros H. apply H. split; eexists; reflexivity.
  - eexists. eexists.
    split; [vm_compute; reflexivity|].
    split; [vm_compute; reflexivity|].
    split; [reflexivity|]. split; [reflexivity|].
    intros H. apply H. split; eexists; reflexivity.
Qed.

(* ===================================================================== *)
(** ** Labels *)
(* ===================================================================== *)

(** A label costs no tick: [step] on a running node at a label moves the
    instruction pointer past it and is then the same [step] again, one call
    deeper. *)
Lemma step_label (m : machine) (self : Z) (nd : TISNode) (name : string) depth :
  m !! self = Some nd ->
  wait_port nd = None -> port_value nd = None ->
  Py.getitem (ast nd) (instruction_pointer nd) = Some (Label name) ->
  step (S depth) self m = (incr_instr_pointer self ;; step depth self)%py m.
Proof.
  intros Hs Hw Hp Hcur. cbn [step]. mexec. rewrite Hcur. mexec. rewrite Hw, Hp.
  reflexivity.
Qed.

(** On a program that consists of labels only (and is short enough for the
    pointer to wrap) the recursion never reaches an instruction: whatever
    depth the interpreter allows, [step] ends in RecursionError. *)
Lemma step_label_only depth :
  forall (m : machine) (self : Z) (nd : TISNode),
    m !! self = Some nd ->
    wait_port nd = None -> port_value nd = None ->
    label_only nd ->
    ast_len nd <= 256 ->
    0 <= instruction_pointer nd < ast_len nd ->
    exists m', step depth self m = Raise Py.RecursionError m'.
Proof.
  induction depth as [|d IH]; intros m self nd Hs Hw Hp Hlab Hlen Hip.
  - exists m. reflexivity.
  - destruct (Hlab _ Hip) as [name Hcur].
    rewrite (step_label m self nd name d Hs Hw Hp Hcur).
    unfold incr_instr_pointer. mexec.
    cbn [instruction_pointer set_instruction_pointer ast_len].
    destruct (Py.int_is (instruction_pointer nd + 1) (ast_len nd)) eqn:Hwrap; mexec.
    + eapply IH; [apply lookup_insert_eq| | | | |]; try assumption; cbn; lia.
    + eapply IH; [apply lookup_insert_eq| | | | |]; try assumption.
      cbn. unfold Py.int_is in Hwrap. lia.
Qed.

(** The other side: when some statement of the program is not a label,
    [step] gets to a statement that is not a label (or to an error of its
    own) within as many nested calls as the program has statements, and none
    of the instruction functions recurses.  So for a program with at least
    one instruction a recursion depth above the program's length is always
    enough: [step] never ends in RecursionError. *)
Lemma step_reaches_statement (n : nat) :
  forall (m : machine) (self : Z) (nd : TISNode) (j : Z) (stmt : ASTNode),
    m !! self = Some nd ->
    ast_len nd = Py.len (ast nd) ->
    0 <= instruction_pointer nd ->
    0 <= j -> Py.getitem (ast nd) j = Some stmt -> ~ is_label stmt ->
    (instruction_pointer nd < ast_len nd ->
     (if instruction_pointer nd <=? j then j - instruction_pointer nd
      else ast_len nd - instruction_pointer nd + j) <= Z.of_nat n) ->
    not_recursion_error (step (S n) self m).
Proof.
  induction n as [|n IH]; intros m self nd j stmt Hs Hlen Hip Hj Hstmt Hnl Hdist.
  all: cbn [step]; mexec.
  all: destruct (Py.getitem (ast nd) (instruction_pointer nd)) as [cur|] eqn:Hcur;
    mexec; [|discriminate].
  all: assert (Hin : instruction_pointer nd < ast_len nd).
  all: try (rewrite Hlen; unfold Py.len; rewrite getitem_nonneg in Hcur by assumption;
            apply lookup_lt_Some in Hcur; lia).
  all: assert (Hjin : j < ast_len nd).
  all: try (rewrite Hlen; unfold Py.len; rewrite getitem_nonneg in Hstmt by assumption;
            apply lookup_lt_Some in Hstmt; lia).
  all: specialize (Hdist Hin).
  all: destruct (wait_port nd);
    [ destruct (sent_value nd);
      [ apply (nre_bind _ _ (nre_do_instr self cur)); intros [];
        nre_with ltac:(apply nre_incr_instr_pointer)
      | exact I ]
    | ].
  all: destruct (port_value nd);
    [ apply (nre_bind _ _ (nre_do_instr self cur)); intros [];
      nre_with ltac:(apply nre_incr_instr_pointer)
    | ].
  all: destruct cur as [| op args | | | name |]; try discriminate;
    try (apply (nre_bind _ _ (nre_do_instr self _)); intros [];
         nre_with ltac:(apply nre_incr_instr_pointer)).
  all: assert (Hne : instruction_pointer nd <> j)
    by (intros E; rewrite E in Hcur; rewrite Hcur in Hstmt;
        injection Hstmt as <-; apply Hnl; eexists; reflexivity).
  - (* no nested call is left, but the label is not the statement at [j] *)
    exfalso. destruct (Z.leb_spec (instruction_pointer nd) j); lia.
  - rewrite (bind_Return _ _ _ _ _ (incr_instr_pointer_run m self nd Hs)).
    eapply (IH _ self _ j stmt); [apply lookup_insert_eq | | | | | |];
      cbn [ast ast_len instruction_pointer set_instruction_pointer];
      try eassumption.
    + destruct (Py.int_is _ _); lia.
    + destruct (Py.int_is (instruction_pointer nd + 1) (ast_len nd)) eqn:Hwrap;
        intros Hin'.
      * unfold Py.int_is in Hwrap.
        assert (instruction_pointer nd + 1 = ast_len nd) by lia.
        destruct (Z.leb_spec 0 j); [|lia].
        destruct (Z.leb_spec (instruction_pointer nd) j); lia.
      * destruct (Z.leb_spec (instruction_pointer nd + 1) j);
          destruct (Z.leb_spec (instruction_pointer nd) j); lia.
Qed.

Lemma step_with_instruction_no_recursion_error
    (m : machine) (self : Z) (nd : TISNode) (j : Z) (stmt : ASTNode) (depth : nat) :
  m !! self = Some nd ->
  ast_len nd = Py.len (ast nd) ->
  0 <= instruction_pointer nd ->
  0 <= j -> Py.getitem (ast nd) j = Some stmt -> ~ is_label stmt ->
  (length (ast nd) < depth)%nat ->
  not_recursion_error (step depth self m).
Proof.
  intros Hs Hlen Hip Hj Hstmt Hnl Hdepth.
  destruct depth as [|n]; [lia|].
  apply (step_reaches_statement n m self nd j stmt); try assumption.
  intros Hin.
  assert (Hjin : j < ast_len nd).
  { rewrite Hlen. unfold Py.len. rewrite getitem_nonneg in Hstmt by assumption.
    apply lookup_lt_Some in Hstmt. lia. }
  rewrite Hlen in *. unfold Py.len in *.
  destruct (Z.leb_spec (instruction_pointer nd) j); lia.
Qed.

(** C3, refuted.  A label does cost no tick ([step_label]), and [step]
    never ends in RecursionError when the program has an instruction
    ([step_with_instruction_no_recursion_error]).  But on a validated program
    that is a single label, [step] does not treat the tick as a no-op: it
    recurses until the interpreter gives up, for every recursion depth it
    could allow. *)
Theorem step_label_only_program_recursion_error :
  forall depth,
    exists m', step depth 5 {[ 5 := label_only_node ]} = Raise Py.RecursionError m'.
Proof.
  intros depth.
  apply step_label_only with (nd := label_only_node).
  - apply lookup_singleton_eq.
  - reflexivity.
  - reflexivity.
  - intros i Hi. exists "a".
    change (ast_len label_only_node) with 1 in Hi.
    assert (i = 0) as -> by lia. reflexivity.
  - change (ast_len label_only_node) with 1. lia.
  - change (ast_len label_only_node) with 1.
    change (instruction_pointer label_only_node) with 0. lia.
Qed.

(** C4, refuted.  Port reads and writes are indeed the only way for a
    validated instruction not to complete ([port_free_instruction_completes]),
    but a running node whose current instruction is [swt P], with [P] a port
    that yields nothing yet (any port but NIL; for LAST whether or not an
    earlier transfer has set it), does not park quietly:
    [get_value_from_port] returns [None], the early return tests the operand
    instead of the value, and the range check raises TypeError. *)
Theorem swt_port_not_ready_raises
    (m : machine) (self : Z) (nd : TISNode) (port : Port) (depth : nat) :
  m !! self = Some nd ->
  wait_port nd = None -> port_value nd = None ->
  Py.getitem (ast nd) (instruction_pointer nd)
    = Some (NArgumentInstruction swt [PortLiteral port]) ->
  port <> NIL ->
  exists m', step (S depth) self m = Raise Py.TypeError m'.
Proof.
  intros Hs Hw Hp Hcur Hnil. cbn [step]. mexec. rewrite Hcur. mexec. rewrite Hw, Hp.
  cbn [do_instr]. unfold instr_swt, get_value_from_port. mexec. rewrite Hw.
  destruct port as [d| | |]; try congruence; mexec.
  - eexists. reflexivity.
  - eexists. reflexivity.
  - destruct (last_port nd); mexec; eexists; reflexivity.
Qed.

Lemma swt_port_not_ready_raises_witness :
  exists m', step 1 5 {[ 5 := swt_up_node ]} = Raise Py.TypeError m'.
Proof.
  apply (swt_port_not_ready_raises {[ 5 := swt_up_node ]} 5 swt_up_node (Dir UP) 0).
  - apply lookup_singleton_eq.
  - reflexivity.
  - reflexivity.
  - reflexivity.
  - discriminate.
Defined.

(** The same failing input, evaluated: the exception leaves the node with
    [wait_port] set to UP. *)
Example swt_up_first_step :
  step 1 5 {[ 5 := swt_up_node ]}
  = Raise Py.TypeError
      {[ 5 := set_state WILL_BE_RUNNING (set_wait_port (Some (Dir UP)) swt_up_node) ]}.
Proof. vm_compute. reflexivity. Qed.

(** C5, refuted.  At position 4 of [jmp upper] two rules match: PORT [up]
    with 2 characters, and LABEL_REF with the 5 characters of [upper].  [get_first_token] keeps the PORT token: once a keyword,
    port, register or integer token is held, LABEL_REF is passed over
    whatever its length.  The emitted token is not of maximal length, and the
    reference to a label [upper] lexes as the port UP followed by [per]. *)
Theorem label_ref_suppressed_although_longer :
  let source := Lexer.chars "jmp upper" in
  Lexer.match_def Lexer.LABEL_REF_def (drop 4 source) = Some (Lexer.chars "upper")
  /\ Lexer.match_def (Lexer.port_def "up" (Dir UP)) (drop 4 source) = Some (Lexer.chars "up")
  /\ Lexer.get_first_token source 4
     = Some (Lexer.mkToken (Lexer.port_def "up" (Dir UP)) (Lexer.VPort (Dir UP)) 4 6)
  /\ Lexer.lex source
     = Some [ Lexer.mkToken (Lexer.instruction_def "jmp" jmp) (Lexer.VOpcode jmp) 0 3;
              Lexer.mkToken Lexer.WHITESPACE_def (Lexer.VStr " ") 3 4;
              Lexer.mkToken (Lexer.port_def "up" (Dir UP)) (Lexer.VPort (Dir UP)) 4 6;
              Lexer.mkToken Lexer.LABEL_REF_def (Lexer.VStr "per") 6 9 ].
Proof. repeat split; vm_compute; reflexivity. Qed.

(** The same at the start of the text, for an integer: [12ab] yields the
    integer 12, not the label reference [12ab]. *)
Example integer_before_longer_label_ref :
  Lexer.get_first_token (Lexer.chars "12ab") 0
  = Some (Lexer.mkToken Lexer.INTEGER_def (Lexer.VInt 12) 0 2)
  /\ Lexer.match_def Lexer.LABEL_REF_def (Lexer.chars "12ab") = Some (Lexer.chars "12ab").
Proof. split; vm_compute; reflexivity. Qed.

(** With equal lengths the tie goes against LABEL_REF, as intended. *)
Example keyword_wins_tie :
  Lexer.get_first_token (Lexer.chars "up,") 0
  = Some (Lexer.mkToken (Lexer.port_def "up" (Dir UP)) (Lexer.VPort (Dir UP)) 0 2)
  /\ Lexer.match_def Lexer.LABEL_REF_def (Lexer.chars "up,") = Some (Lexer.chars "up").
Proof. split; vm_compute; reflexivity. Qed.

Lemma instr_swt_int m self nd n :
  m !! self = Some nd ->
  Py.len (accs nd) = 8 ->
  do_instr self (swt_int n) m
  = if decide (0 <= n < 8)
    then Return true (<[self := set_register_cursor n nd]> m)
    else Raise Py.TISSyntaxError m.
Proof.
  intros Hs Hlen. cbn [do_instr swt_int]. unfold instr_swt. mexec. rewrite Hlen.
  destruct (decide (0 <= n < 8)) as [Hin|Hout].
  - replace ((8 >? n) && (n >=? 0)) with true by lia. mexec. reflexivity.
  - replace ((8 >? n) && (n >=? 0)) with false by lia. mexec. reflexivity.
Qed.

(** The register pair under the cursor, read by index. *)
Lemma pair_at_current nd a b :
  0 <= _register_cursor nd ->
  pair_at (Z.to_nat (_register_cursor nd)) nd = Some (a, b) ->
  current_acc nd = Some a /\ current_bak nd = Some b.
Proof.
  intros Hc. unfold pair_at, current_acc, current_bak.
  rewrite !getitem_nonneg by assumption.
  destruct (accs nd !! _); [|discriminate].
  destruct (baks nd !! _); [|discriminate]. intros [= -> ->]. auto.
Qed.

(** Writing the accumulator under the cursor, read off the attributes. *)
Lemma write_current_acc m s nd a b x :
  m !! s = Some nd ->
  0 <= _register_cursor nd ->
  pair_at (Z.to_nat (_register_cursor nd)) nd = Some (a, b) ->
  exists m' nd',
    set_cur_acc s x m = Return tt m'
    /\ m' !! s = Some nd'
    /\ _register_cursor nd' = _register_cursor nd
    /\ pair_at (Z.to_nat (_register_cursor nd)) nd' = Some (x, b)
    /\ (forall j, j <> Z.to_nat (_register_cursor nd) -> pair_at j nd' = pair_at j nd)
    /\ forall j, j <> s -> m' !! j = m !! j.
Proof.
  intros Hs Hc Hpair.
  destruct (pair_at_current nd a b Hc Hpair) as [Ha Hb].
  unfold set_cur_acc. mexec. rewrite (setitem_nonneg _ _ a x Hc Ha). mexec.
  eexists. eexists. split; [reflexivity|]. split; [apply lookup_insert_eq|].
  split; [reflexivity|].
  unfold pair_at in *. cbn [accs baks set_accs].
  destruct (accs nd !! Z.to_nat (_register_cursor nd)) as [a0|] eqn:Ha0;
    [|discriminate].
  split; [|split].
  - rewrite list_lookup_insert_eq by (eapply lookup_lt_Some; exact Ha0).
    destruct (baks nd !! _); [|discriminate]. injection Hpair as _ ->. reflexivity.
  - intros j Hj. rewrite list_lookup_insert_ne by congruence. reflexivity.
  - intros j Hj. apply lookup_insert_ne. congruence.
Qed.

(** What [register_effect] says of the pair under the cursor, read off the
    attributes of the node afterwards. *)
Lemma register_effect_observed m self nd instr a b a' b' :
  m !! self = Some nd ->
  0 <= _register_cursor nd ->
  pair_at (Z.to_nat (_register_cursor nd)) nd = Some (a, b) ->
  register_effect instr a b = Some (a', b') ->
  exists m' nd',
    do_instr self instr m = Return true m'
    /\ m' !! self = Some nd'
    /\ _register_cursor nd' = _register_cursor nd
    /\ pair_at (Z.to_nat (_register_cursor nd)) nd' = Some (a', b')
    /\ (forall j, j <> Z.to_nat (_register_cursor nd) -> pair_at j nd' = pair_at j nd)
    /\ forall j, j <> self -> m' !! j = m !! j.
Proof.
  intros Hs Hc Hpair He.
  destruct (pair_at_current nd a b Hc Hpair) as [Ha Hb].
  rewrite (register_effect_sound m self nd instr a b a' b' Hs Hc Ha Hb He).
  eexists. eexists. split; [reflexivity|]. split; [apply lookup_insert_eq|].
  split; [reflexivity|].
  unfold pair_at in *. cbn [accs baks with_pair set_accs set_baks].
  destruct (accs nd !! Z.to_nat (_register_cursor nd)) as [a0|] eqn:Ha0;
    [|discriminate].
  destruct (baks nd !! Z.to_nat (_register_cursor nd)) as [b0|] eqn:Hb0;
    [|discriminate].
  split; [|split].
  - rewrite !list_lookup_insert_eq by (eapply lookup_lt_Some; eassumption).
    reflexivity.
  - intros j Hj. rewrite !list_lookup_insert_ne by congruence. reflexivity.
  - intros j Hj. apply lookup_insert_ne. congruence.
Qed.

(** A port read that yields its value at once: the registers of the reader
    are as before. *)
Lemma read_ready_value m self nd instr v p :
  m !! self = Some nd ->
  value_ready m self nd instr v ->
  (wait_port nd = None -> p = NIL) ->
  exists m1 nd1,
    get_value_from_port self p m = Return (Some v) m1
    /\ m1 !! self = Some nd1
    /\ _register_cursor nd1 = _register_cursor nd
    /\ accs nd1 = accs nd /\ baks nd1 = baks nd.
Proof.
  intros Hs [(Hw & -> & _) | (q & from & sid & Hw & Hsent & Hdir & Hne & [snd Hsnd])] Hp.
  - rewrite (Hp Hw). unfold get_value_from_port. mexec. rewrite Hw.
    exists m, nd. repeat split; auto.
  - unfold get_value_from_port. mexec. rewrite Hw, Hsent. mexec.
    change (directions (set_last_port (Some from) nd) from) with (directions nd from).
    rewrite Hdir. mexec. rewrite lookup_insert_ne by congruence. rewrite Hsnd.
    rewrite (bind_assign _ sid snd)
      by (rewrite lookup_insert_ne by congruence; exact Hsnd).
    mexec. eexists. eexists. split; [reflexivity|].
    split; [rewrite lookup_insert_ne by congruence; apply lookup_insert_eq|].
    repeat split.
Qed.

(** The port forms of [add], [sub] and [mov] to [acc], read off the
    attributes of the node afterwards. *)
Lemma port_effect_observed m self nd instr a b v a' :
  m !! self = Some nd ->
  0 <= _register_cursor nd ->
  pair_at (Z.to_nat (_register_cursor nd)) nd = Some (a, b) ->
  port_effect instr a v = Some a' ->
  value_ready m self nd instr v ->
  exists m' nd',
    do_instr self instr m = Return true m'
    /\ m' !! self = Some nd'
    /\ _register_cursor nd' = _register_cursor nd
    /\ pair_at (Z.to_nat (_register_cursor nd)) nd' = Some (a', b)
    /\ forall j, j <> Z.to_nat (_register_cursor nd) -> pair_at j nd' = pair_at j nd.
Proof.
  intros Hs Hc Hpair He Hready.
  assert (Hport : exists op p rest,
            instr = NArgumentInstruction op (PortLiteral p :: rest)
            /\ (wait_port nd = None -> p = NIL)).
  { unfold port_effect in He.
    repeat match type of He with
           | context [match ?x with _ => _ end] => destruct x; try discriminate
           end;
      (do 3 eexists; split; [reflexivity|]);
      intros Hw; destruct Hready as [(_ & _ & op' & rest' & [= _ -> _]) | Hd];
      try reflexivity;
      destruct Hd as (q & from & sid & Hw' & _); congruence. }
  destruct Hport as (op & p & rest & -> & Hp).
  destruct (read_ready_value m self nd _ v p Hs Hready Hp)
    as (m1 & nd1 & Hread & Hs1 & Hcur1 & Haccs1 & Hbaks1).
  assert (Hpair1 : pair_at (Z.to_nat (_register_cursor nd1)) nd1 = Some (a, b)).
  { rewrite Hcur1. unfold pair_at in *. rewrite Haccs1, Hbaks1. exact Hpair. }
  assert (Hc1 : 0 <= _register_cursor nd1) by (rewrite Hcur1; exact Hc).
  destruct (write_current_acc m1 self nd1 a b a' Hs1 Hc1 Hpair1)
    as (m2 & nd2 & Hwrite & Hs2 & Hcur2 & Hpair2 & Hother2 & _).
  destruct (pair_at_current nd1 a b Hc1 Hpair1) as [Ha1 _].
  assert (Hsame : forall j, pair_at j nd1 = pair_at j nd).
  { intros j. unfold pair_at. rewrite Haccs1, Hbaks1. reflexivity. }
  exists m2, nd2.
  split; [|split; [exact Hs2|split; [congruence|split;
            [rewrite <- Hcur1; exact Hpair2|]]]].
  - unfold port_effect in He.
    destruct op; try discriminate He;
      destruct rest as [|dst rest']; try discriminate He;
      try (destruct dst; try discriminate He;
           destruct rest'; try discriminate He);
      injection He as <-; cbn [do_instr].
    + (* mov port, acc *)
      unfold instr_mov. change (Py.int_is _ 2) with true. mexec.
      rewrite (bind_Return _ _ _ _ _ Hread). unfold mov_destination. mexec.
      rewrite (bind_Return _ _ _ _ _ Hwrite). reflexivity.
    + (* add port *)
      unfold instr_add. mexec. rewrite (bind_Return _ _ _ _ _ Hread).
      rewrite (run_cur_acc m1 self nd1 Hs1 a _ Ha1).
      rewrite (bind_Return _ _ _ _ _ Hwrite). reflexivity.
    + (* sub port *)
      unfold instr_sub. mexec. rewrite (bind_Return _ _ _ _ _ Hread).
      rewrite (run_cur_acc m1 self nd1 Hs1 a _ Ha1).
      rewrite (bind_Return _ _ _ _ _ Hwrite). reflexivity.
  - intros j Hj. rewrite <- Hsame. apply Hother2. rewrite Hcur1. exact Hj.
Qed.

(** C6. [swt n] with an integer operand, on a node with its eight register
    pairs.  Outside [0,8) it raises TISSyntaxError (the semantic error) and
    writes nothing, so the cursor is as before; a running node raises it
    from the very [step] that reaches the instruction.  Inside [0,8) it
    completes, and afterwards the node's [_register_cursor] is [n], its
    [accs] and [baks] are as they were and no other node has changed.  From
    any later store in which the cursor is still [n]: no instruction other
    than a [swt] changes [_register_cursor]; the register-sensitive
    instructions [add], [sub], [neg], [sav], [swp] and [mov] to [acc] leave
    in [accs[n]] and [baks[n]] what [register_effect] says of the pair that
    was there, and in every other slot what was there; so do [add], [sub]
    and [mov] to [acc] with a port operand, for the value the port gives;
    [mov acc, P] sends [accs[n]]; and no instruction other than a [swt]
    changes any other pair. *)
Theorem swt_selects_register_pair
    (m : machine) (self : Z) (nd : TISNode) (n : Z) :
  m !! self = Some nd ->
  Py.len (accs nd) = 8 ->
  (~ (0 <= n < 8) ->
     do_instr self (swt_int n) m = Raise Py.TISSyntaxError m
     /\ (wait_port nd = None -> port_value nd = None ->
         Py.getitem (ast nd) (instruction_pointer nd) = Some (swt_int n) ->
         forall depth, step (S depth) self m = Raise Py.TISSyntaxError m))
  /\
  (0 <= n < 8 ->
     (exists m' nd',
        do_instr self (swt_int n) m = Return true m'
        /\ m' !! self = Some nd'
        /\ _register_cursor nd' = n
        /\ accs nd' = accs nd /\ baks nd' = baks nd
        /\ forall j, j <> self -> m' !! j = m !! j)
     /\ forall (m1 : machine) (nd1 : TISNode),
         m1 !! self = Some nd1 -> _register_cursor nd1 = n ->
         (forall s instr, not_swt instr ->
            node_sat self (fun nd' => _register_cursor nd' = n)
              (final_store (do_instr s instr m1)))
         /\ (forall instr a b a' b',
               pair_at (Z.to_nat n) nd1 = Some (a, b) ->
               register_effect instr a b = Some (a', b') ->
               exists m2 nd2,
                 do_instr self instr m1 = Return true m2
                 /\ m2 !! self = Some nd2
                 /\ _register_cursor nd2 = n
                 /\ pair_at (Z.to_nat n) nd2 = Some (a', b')
                 /\ (forall j, j <> Z.to_nat n -> pair_at j nd2 = pair_at j nd1)
                 /\ forall j, j <> self -> m2 !! j = m1 !! j)
         /\ (forall instr a b v a',
               pair_at (Z.to_nat n) nd1 = Some (a, b) ->
               port_effect instr a v = Some a' ->
               value_ready m1 self nd1 instr v ->
               exists m2 nd2,
                 do_instr self instr m1 = Return true m2
                 /\ m2 !! self = Some nd2
                 /\ _register_cursor nd2 = n
                 /\ pair_at (Z.to_nat n) nd2 = Some (a', b)
                 /\ forall j, j <> Z.to_nat n -> pair_at j nd2 = pair_at j nd1)
         /\ (forall r p a b,
               pair_at (Z.to_nat n) nd1 = Some (a, b) ->
               do_instr self (NArgumentInstruction mov [RegisterLiteral r; PortLiteral p]) m1
               = set_value_to_port self p a m1)
         /\ (forall s instr (j : nat) x y, not_swt instr -> j <> Z.to_nat n ->
               accs nd1 !! j = Some x -> baks nd1 !! j = Some y ->
               node_sat self (other_pair n j x y)
                 (final_store (do_instr s instr m1)))).
Proof.
  intros Hs Hlen. pose proof (instr_swt_int m self nd n Hs Hlen) as Hrun. split.
  - intros Hout. rewrite decide_False in Hrun by assumption. split; [exact Hrun|].
    intros Hw Hp Hcur depth. cbn [step]. mexec. rewrite Hcur. mexec.
    rewrite Hw, Hp. unfold swt_int in *.
    rewrite (bind_Raise _ _ _ _ _ Hrun). reflexivity.
  - intros Hin. rewrite decide_True in Hrun by assumption. split.
    { exists (<[self := set_register_cursor n nd]> m), (set_register_cursor n nd).
      split; [exact Hrun|]. split; [apply lookup_insert_eq|].
      split; [reflexivity|]. split; [reflexivity|]. split; [reflexivity|].
      intros j Hj. apply lookup_insert_ne. congruence. }
    intros m1 nd1 Hs1 Hcur1.
    assert (Hc1 : 0 <= _register_cursor nd1) by lia.
    split; [|split; [|split; [|split]]].
    + intros s instr Hns. apply cursor_kept_unless_swt; [assumption|].
      exists nd1. auto.
    + intros instr a b a' b' Hpair He. rewrite <- Hcur1 in Hpair |- *.
      destruct (register_effect_observed m1 self nd1 instr a b a' b' Hs1 Hc1 Hpair He)
        as (m2 & nd2 & H1 & H2 & H3 & H4 & H5 & H6).
      exists m2, nd2. exact (conj H1 (conj H2 (conj H3 (conj H4 (conj H5 H6))))).
    + intros instr a b v a' Hpair He Hready. rewrite <- Hcur1 in Hpair |- *.
      destruct (port_effect_observed m1 self nd1 instr a b v a' Hs1 Hc1 Hpair He Hready)
        as (m2 & nd2 & H1 & H2 & H3 & H4 & H5).
      exists m2, nd2. exact (conj H1 (conj H2 (conj H3 (conj H4 H5)))).
    + intros r p a b Hpair. rewrite <- Hcur1 in Hpair.
      destruct (pair_at_current nd1 a b Hc1 Hpair) as [Ha _].
      cbn [do_instr]. unfold instr_mov.
      change (Py.int_is _ 2) with true. mexec.
      erewrite run_cur_acc by eassumption. reflexivity.
    + intros s instr j x y Hns Hj Hx Hy.
      apply other_pair_kept_unless_swt; [lia|assumption|assumption|].
      exists nd1. unfold other_pair. auto.
Qed.

Lemma swt_selects_register_pair_witness :
  do_instr 5 (swt_int 8) {[ 5 := swt8_node ]} = Raise Py.TISSyntaxError {[ 5 := swt8_node ]}
  /\ step 1 5 {[ 5 := swt8_node ]} = Raise Py.TISSyntaxError {[ 5 := swt8_node ]}
  /\ exists m' nd',
       do_instr 5 (swt_int 3) {[ 5 := swt3_node ]} = Return true m'
       /\ m' !! 5 = Some nd'
       /\ _register_cursor nd' = 3
       /\ accs nd' = accs swt3_node /\ baks nd' = baks swt3_node
       /\ forall j, j <> 5 -> m' !! j = ({[ 5 := swt3_node ]} : machine) !! j.
Proof.
  destruct (swt_selects_register_pair {[ 5 := swt8_node ]} 5 swt8_node 8) as [Hout _];
    [apply lookup_singleton_eq | reflexivity |].
  destruct (swt_selects_register_pair {[ 5 := swt3_node ]} 5 swt3_node 3) as [_ Hin];
    [apply lookup_singleton_eq | reflexivity |].
  destruct (Hout ltac:(lia)) as [Hraise Hstep].
  destruct (Hin ltac:(lia)) as [Hset _].
  split; [exact Hraise|]. split; [|exact Hset].
  apply Hstep; reflexivity.
Defined.

(** C7. For every value [v] of the current accumulator, [add acc] (an [add]
    whose operand is a register literal) completes and leaves [2 * v] in the
    current accumulator, and [sub acc] completes and leaves [0] there; the
    rest of the store is as it was. *)
Theorem add_acc_doubles_sub_acc_zeroes
    (m : machine) (self : Z) (nd : TISNode) (v : Z) (name : string) :
  m !! self = Some nd ->
  current_acc nd = Some v ->
  (exists accs',
      do_instr self (NArgumentInstruction add [RegisterLiteral name]) m
        = Return true (<[self := set_accs accs' nd]> m)
      /\ Py.setitem (accs nd) (_register_cursor nd) (2 * v) = Some accs'
      /\ current_acc (set_accs accs' nd) = Some (2 * v))
  /\
  (exists accs',
      do_instr self (NArgumentInstruction sub [RegisterLiteral name]) m
        = Return true (<[self := set_accs accs' nd]> m)
      /\ Py.setitem (accs nd) (_register_cursor nd) 0 = Some accs'
      /\ current_acc (set_accs accs' nd) = Some 0).
Proof.
  intros Hs Hv. split.
  - destruct (set_cur_acc_Some m self nd v (2 * v) Hs Hv) as (l' & Hset & Hrun & Hget).
    exists l'. split; [|split; assumption].
    cbn [do_instr]. unfold instr_add.
    mexec. rewrite (bind_Return _ _ _ _ _ (cur_acc_Some _ _ _ _ Hs Hv)).
    replace (v * 2) with (2 * v) by lia.
    rewrite (bind_Return _ _ _ _ _ Hrun). reflexivity.
  - destruct (set_cur_acc_Some m self nd v 0 Hs Hv) as (l' & Hset & Hrun & Hget).
    exists l'. split; [|split; assumption].
    cbn [do_instr]. unfold instr_sub.
    mexec. rewrite (bind_Return _ _ _ _ _ Hrun). reflexivity.
Qed.

Lemma add_acc_doubles_sub_acc_zeroes_witness :
  let nd := set_accs [21; 0; 0; 0; 0; 0; 0; 0] receiver5 in
  (exists accs',
      do_instr 5 (NArgumentInstruction add [RegisterLiteral "ACC"]) {[ 5 := nd ]}
        = Return true (<[5 := set_accs accs' nd]> {[ 5 := nd ]})
      /\ Py.setitem (accs nd) (_register_cursor nd) (2 * 21) = Some accs'
      /\ current_acc (set_accs accs' nd) = Some (2 * 21))
  /\
  (exists accs',
      do_instr 5 (NArgumentInstruction sub [RegisterLiteral "ACC"]) {[ 5 := nd ]}
        = Return true (<[5 := set_accs accs' nd]> {[ 5 := nd ]})
      /\ Py.setitem (accs nd) (_register_cursor nd) 0 = Some accs'
      /\ current_acc (set_accs accs' nd) = Some 0).
Proof.
  intros nd.
  apply (add_acc_doubles_sub_acc_zeroes {[ 5 := nd ]} 5 nd 21 "ACC").
  - apply lookup_singleton_eq.
  - reflexivity.
Defined.

(* ===================================================================== *)
(** ** Sending to ANY *)
(* ===================================================================== *)

Lemma directions_sending port value nd d :
  directions (sending port value nd) d = directions nd d.
Proof. destruct d; reflexivity. Qed.

Lemma sending_sending p q v nd : sending p v (sending q v nd) = sending p v nd.
Proof. reflexivity. Qed.

(** In a grid of positive width no neighbour of a node is the node itself,
    and no two directions lead to the same neighbour. *)
Lemma grid_neighbours_distinct id h w ast nd :
  0 < w ->
  TISNode_init id h w ast = inr nd ->
  (forall d, directions nd d <> Some id)
  /\ (forall d d' x, directions nd d = Some x -> directions nd d' = Some x -> d = d').
Proof.
  intros Hw. unfold TISNode_init, left_of, right_of, py_mod.
  replace (w =? 0) with false by lia.
  intros H.
  assert (Hup : up_id nd = up_of id w
                /\ down_id nd = down_of id h w
                /\ left_id nd = (if id >? 0
                                 then if negb (Py.int_is (id mod w) 0)
                                      then Some (id - 1) else None
                                 else None)
                /\ right_id nd = (if id + 1 <? w * h
                                  then if negb (Py.int_is ((id + 1) mod w) 0)
                                       then Some (id + 1) else None
                                  else None)).
  { destruct (id >? 0), (id + 1 <? w * h); cbv beta iota in H;
      match type of H with
      | context [validate_node ?a ?t] => destruct (validate_node a t); [discriminate|]
      end; injection H as <-; repeat split. }
  clear H. destruct Hup as (Hu & Hd & Hl & Hr).
  assert (Hmod1 : forall x, w = 1 -> Py.int_is (x mod w) 0 = true).
  { intros x ->. rewrite Z.mod_1_r. reflexivity. }
  assert (Hdir : forall d x, directions nd d = Some x ->
                   match d with
                   | UP => x = id - w
                   | DOWN => x = id + w
                   | LEFT => x = id - 1 /\ w <> 1
                   | RIGHT => x = id + 1 /\ w <> 1
                   end).
  { intros d x Hx. destruct d; cbn [directions] in Hx.
    - rewrite Hu in Hx. unfold up_of in Hx.
      destruct (negb (id - w <? 0)); [|discriminate]. congruence.
    - rewrite Hd in Hx. unfold down_of in Hx.
      destruct (id + w <? w * h); [|discriminate]. congruence.
    - rewrite Hl in Hx. destruct (id >? 0); [|discriminate].
      destruct (decide (w = 1)) as [Hw1|Hw1].
      + rewrite Hmod1 in Hx by assumption. discriminate.
      + destruct (negb (Py.int_is (id mod w) 0)); [|discriminate]. split; congruence.
    - rewrite Hr in Hx. destruct (id + 1 <? w * h); [|discriminate].
      destruct (decide (w = 1)) as [Hw1|Hw1].
      + rewrite Hmod1 in Hx by assumption. discriminate.
      + destruct (negb (Py.int_is ((id + 1) mod w) 0)); [|discriminate].
        split; congruence. }
  split.
  - intros d Hx. apply Hdir in Hx. destruct d; lia.
  - intros d d' x H1 H2. apply Hdir in H1, H2.
    destruct d, d'; first [reflexivity | lia].
Qed.

Section AnySend.
Context (self : Z) (value : Z).

Lemma any_outcome_skip m nd d ds r :
  accepts m nd d = false -> any_outcome self value m nd ds r -> any_outcome self value m nd (d :: ds) r.
Proof. unfold any_outcome. cbn [List.find]. intros -> H. exact H. Qed.

Lemma any_outcome_hit m nd d ds tid target :
  directions nd d = Some tid -> m !! tid = Some target ->
  receptive d target = true ->
  any_outcome self value m nd (d :: ds)
    (Return true (<[tid := set_sent_value (Some (look_for d, value)) target]>
                    (<[self := sending (Dir d) value nd]> m))).
Proof.
  intros Hd Ht Hr. unfold any_outcome. cbn [List.find].
  unfold accepts. rewrite Hd, Ht, Hr. exists tid, target. auto.
Qed.

Lemma any_loop_outcome (m : machine) (nd : TISNode) :
  m !! self = Some nd ->
  (forall d, directions nd d <> Some self) ->
  forall ds p,
    any_outcome self value m nd ds (any_loop self value ds (<[self := sending p value nd]> m)).
Proof.
  intros Hs Hself ds. induction ds as [|d ds IH]; intros p.
  - exists p. reflexivity.
  - cbn [any_loop]. mexec. rewrite directions_sending.
    destruct (directions nd d) as [tid|] eqn:Hd.
    2: { apply any_outcome_skip; [unfold accepts; rewrite Hd; reflexivity | apply IH]. }
    assert (Hne : self <> tid) by (intros <-; exact (Hself d Hd)).
    unfold set_value_to_direction, deliver. mexec.
    change (set_state WILL_BE_RUNNING
              (set_port_value (Some (Dir d, value)) (sending p value nd)))
      with (sending (Dir d) value nd).
    rewrite directions_sending, Hd. mexec.
    rewrite lookup_insert_ne by assumption.
    destruct (m !! tid) as [target|] eqn:Ht; mexec.
    2: { apply any_outcome_skip; [unfold accepts; rewrite Hd, Ht; reflexivity | apply IH]. }
    fold (receptive d target).
    destruct (receptive d target) eqn:Hrec; mexec.
    2: { apply any_outcome_skip; [unfold accepts; rewrite Hd, Ht; exact Hrec | apply IH]. }
    rewrite (bind_assign _ tid target)
      by (rewrite lookup_insert_ne by assumption; exact Ht).
    mexec. apply any_outcome_hit; assumption.
Qed.
End AnySend.

(** The outcome of the loop, read off the attributes of the nodes. *)
Lemma any_outcome_observed self value m nd ds r :
  m !! self = Some nd ->
  (forall d, directions nd d <> Some self) ->
  any_outcome self value m nd ds r -> any_delivery self value m nd ds r.
Proof.
  intros Hs Hself. unfold any_outcome, any_delivery.
  destruct (List.find (accepts m nd) ds) as [d|].
  - intros (tid & target & Hd & Ht & ->).
    assert (Hne : tid <> self) by (intros ->; exact (Hself d Hd)).
    exists tid, target. eexists. eexists. eexists.
    split; [reflexivity|]. split; [exact Hd|]. split; [exact Ht|].
    split; [apply lookup_insert_eq|].
    split; [reflexivity|]. split; [reflexivity|].
    split; [rewrite lookup_insert_ne by congruence; apply lookup_insert_eq|].
    split; [reflexivity|].
    intros j Hjs Hjt. rewrite !lookup_insert_ne by congruence. reflexivity.
  - intros (p & ->). eexists. eexists. exists p.
    split; [reflexivity|]. split; [apply lookup_insert_eq|]. split; [reflexivity|].
    intros j Hj. apply lookup_insert_ne. congruence.
Qed.

(** C8. A send to [ANY] from a node none of whose neighbours is the node
    itself (as in every grid of positive width).  The neighbours are tried in
    the order UP, LEFT, RIGHT, DOWN: the send succeeds at the first direction
    whose neighbour accepts, and then that neighbour's [sent_value] holds
    the value with the mirrored direction, the sender's [port_value] holds
    it with that direction, and every other node is as it was; it fails
    (returns False) when none accepts, and then no node but the sender has
    changed.  In particular, when the UP and the LEFT neighbour are both
    parked receiving from the mirrored direction or from ANY, the
    [sent_value] of the UP neighbour is the value sent, with DOWN as the
    port, and the LEFT neighbour is as it was, so nothing was delivered to
    it. *)
Theorem any_send_tries_up_left_right_down
    (m : machine) (self : Z) (nd : TISNode) (value : Z) :
  m !! self = Some nd ->
  (forall d, directions nd d <> Some self) ->
  any_delivery self value m nd [UP; LEFT; RIGHT; DOWN]
    (set_value_to_port self ANY value m)
  /\ (forall u l nu nl,
        up_id nd = Some u -> left_id nd = Some l -> u <> l ->
        m !! u = Some nu -> m !! l = Some nl ->
        receptive UP nu = true -> receptive LEFT nl = true ->
        exists m' nu',
          set_value_to_port self ANY value m = Return true m'
          /\ m' !! u = Some nu'
          /\ sent_value nu' = Some (DOWN, value)
          /\ wait_port nu' = wait_port nu
          /\ m' !! l = Some nl).
Proof.
  intros Hs Hself.
  assert (Hspec : any_delivery self value m nd order (set_value_to_port self ANY value m)).
  { apply any_outcome_observed; [assumption | assumption |].
    unfold set_value_to_port. mexec.
    apply (any_loop_outcome self value m nd Hs Hself order ANY). }
  split; [exact Hspec|].
  intros u l nu nl Hu Hl Hul Hmu Hml Hru Hrl.
  unfold any_delivery, order in Hspec. cbn [List.find] in Hspec.
  assert (Hacc : accepts m nd UP = true).
  { unfold accepts. cbn [directions]. rewrite Hu, Hmu. exact Hru. }
  rewrite Hacc in Hspec.
  destruct Hspec as (tid & target & m' & target' & nd' & Hrun & Hd & Ht & Ht' & Hsent
                     & Hwait & _ & _ & Hframe).
  cbn [directions] in Hd. rewrite Hu in Hd. injection Hd as <-.
  rewrite Hmu in Ht. injection Ht as <-.
  exists m', target'. split; [exact Hrun|]. split; [exact Ht'|].
  split; [exact Hsent|]. split; [exact Hwait|].
  rewrite Hframe; [exact Hml | | congruence].
  intros ->. exact (Hself LEFT Hl).
Qed.

Lemma any_send_tries_up_left_right_down_witness :
  exists m' nu',
    set_value_to_port 6 ANY 9 any_grid = Return true m'
    /\ m' !! 1 = Some nu'
    /\ sent_value nu' = Some (DOWN, 9)
    /\ wait_port nu' = wait_port parked1
    /\ m' !! 5 = Some parked5_right.
Proof.
  destruct (any_send_tries_up_left_right_down any_grid 6 any_sender6 9) as [_ H].
  - reflexivity.
  - intros d. destruct d; discriminate.
  - apply (H 1 5 parked1 parked5_right); try reflexivity. lia.
Defined.

(** One [step] of a running node whose current instruction reads [LAST]
    before any transfer: [get_value_from_port] finds no [last_port] and
    returns [None] without parking, so nothing at all is written. *)
Lemma step_mov_last_unset (m : machine) (self : Z) (nd : TISNode) (r : string) depth :
  m !! self = Some nd ->
  wait_port nd = None -> port_value nd = None -> last_port nd = None ->
  Py.getitem (ast nd) (instruction_pointer nd)
    = Some (NArgumentInstruction mov [PortLiteral LAST; RegisterLiteral r]) ->
  step (S depth) self m = Return tt m.
Proof.
  intros Hs Hw Hp Hl Hcur. cbn [step]. mexec. rewrite Hcur. mexec.
  rewrite Hw, Hp. cbn [do_instr]. unfold instr_mov.
  change (Py.int_is _ 2) with true. mexec.
  unfold get_value_from_port. mexec. rewrite Hw, Hl. mexec. reflexivity.
Qed.

(** C9. A node whose first instruction is [mov last, acc] (so it is neither
    parked nor sending, and no transfer has set [last_port]) blocks forever:
    any number [n] of [step] calls returns with the store, hence the node's
    [accs] and instruction pointer, exactly as before; and no value can be
    delivered to it, since whichever nodes are stepped in whichever order,
    this node stays as it was. *)
Theorem mov_last_first_blocks_forever
    (m : machine) (self : Z) (nd : TISNode) (r : string) :
  m !! self = Some nd ->
  wait_port nd = None -> port_value nd = None -> last_port nd = None ->
  Py.getitem (ast nd) (instruction_pointer nd)
    = Some (NArgumentInstruction mov [PortLiteral LAST; RegisterLiteral r]) ->
  (forall depth n, steps (S depth) self n m = Return tt m)
  /\ (forall depth (schedule : list Z),
         final_store (tick depth schedule m) !! self = Some nd).
Proof.
  intros Hs Hw Hp Hl Hcur. split.
  - intros depth n. induction n as [|n IH]; [reflexivity|].
    cbn [steps].
    rewrite (bind_Return _ _ _ _ _
               (step_mov_last_unset m self nd r depth Hs Hw Hp Hl Hcur)).
    exact IH.
  - intros depth schedule.
    assert (Hstep : forall t, preserves (node_sat self (eq nd)) (step depth t)).
    { intros t. destruct (decide (t = self)) as [->|Hne].
      - intros m' (x & Hx & <-).
        destruct depth as [|d]; [exists nd; auto|].
        rewrite (step_mov_last_unset m' self nd r d Hx Hw Hp Hl Hcur).
        exists nd; auto.
      - apply frame_step; assumption. }
    assert (Htick : preserves (node_sat self (eq nd)) (tick depth schedule)).
    { induction schedule as [|t rest IH]; cbn [tick]; [apply preserves_ret|].
      apply preserves_bind; [apply Hstep | intros _; exact IH]. }
    destruct (Htick m) as (x & Hx & <-); [exists nd; auto | exact Hx].
Qed.

Lemma mov_last_first_blocks_forever_witness :
  steps 1 5 1000 {[ 5 := last_reader5 ]} = Return tt {[ 5 := last_reader5 ]}
  /\ final_store (tick 1 [5; 0; 5] {[ 5 := last_reader5 ]}) !! 5 = Some last_reader5.
Proof.
  destruct (mov_last_first_blocks_forever {[ 5 := last_reader5 ]} 5 last_reader5 "ACC")
    as [Hsteps Hany].
  - apply lookup_singleton_eq.
  - reflexivity.
  - reflexivity.
  - reflexivity.
  - reflexivity.
  - split; [apply (Hsteps 0%nat 1000%nat) | apply (Hany 1%nat [5; 0; 5])].
Defined.

(** C10. A node parked on a receive ([wait_port] set) to which nothing has
    been delivered ([sent_value] is [None]) is not changed by [step]: the
    whole store, hence the node's [accs], [baks], register cursor,
    instruction pointer, [wait_port], [port_value], [sent_value] and
    [last_port], is the same after the call, which returns normally whenever
    the instruction pointer indexes the program. *)
Theorem step_blocked_receiving_is_noop
    (m : machine) (self : Z) (nd : TISNode) (depth : nat) :
  m !! self = Some nd ->
  is_Some (wait_port nd) ->
  sent_value nd = None ->
  final_store (step depth self m) = m
  /\ (is_Some (Py.getitem (ast nd) (instruction_pointer nd)) ->
      step (S depth) self m = Return tt m).
Proof.
  intros Hs [p Hw] Hsent. split.
  - destruct depth as [|d]; [reflexivity|].
    cbn [step]. mexec.
    destruct (Py.getitem (ast nd) (instruction_pointer nd)); mexec; [|reflexivity].
    rewrite Hw, Hsent. reflexivity.
  - intros [c Hc]. cbn [step]. mexec. rewrite Hc. mexec.
    rewrite Hw, Hsent. reflexivity.
Qed.

Lemma step_blocked_receiving_is_noop_witness :
  final_store (step 1 5 {[ 5 := parked5 ]}) = {[ 5 := parked5 ]}
  /\ (is_Some (Py.getitem (ast parked5) (instruction_pointer parked5)) ->
      step 2 5 {[ 5 := parked5 ]} = Return tt {[ 5 := parked5 ]}).
Proof.
  apply (step_blocked_receiving_is_noop {[ 5 := parked5 ]} 5 parked5 1).
  - apply lookup_singleton_eq.
  - simpl. eauto.
  - reflexivity.
Defined.

(* ===================================================================== *)
(** ** Properties of the engine as a whole *)
(* ===================================================================== *)

(** Non-membership in a list given element by element. *)
Ltac not_in_list :=
  rewrite ?not_elem_of_cons; repeat split;
  first [ discriminate | lia | apply not_elem_of_nil ].

(** What every [step] keeps, every pass of the driver over the nodes
    keeps. *)
Lemma preserves_tick (P : machine -> Prop) depth :
  (forall s, preserves P (step depth s)) ->
  forall ids, preserves P (tick depth ids).
Proof.
  intros Hstep ids. induction ids as [|s ids IH]; cbn [tick].
  - apply preserves_ret.
  - apply preserves_bind; [apply Hstep | intros _; exact IH].
Qed.

(** X1. The register files of a node keep their eight slots and its cursor
    stays in [0, 8), whichever nodes are stepped in whichever order and
    whether or not a step raises: [swt] is the only writer of the cursor and
    checks the range first. *)
Theorem registers_stay_well_formed
    (m : machine) (i : Z) (depth : nat) (schedule : list Z) :
  node_sat i registers_ok m ->
  node_sat i registers_ok (final_store (tick depth schedule m)).
Proof.
  apply preserves_tick. intros s. apply registers_ok_step.
Qed.

Lemma registers_stay_well_formed_witness :
  node_sat 5 registers_ok (final_store (tick 1 [5; 5; 5] {[ 5 := swt8_node ]})).
Proof.
  apply (registers_stay_well_formed {[ 5 := swt8_node ]} 5 1 [5; 5; 5]).
  exists swt8_node. split; [apply lookup_singleton_eq|].
  apply registers_ok_new_node.
Defined.

(** X2. A node that is neither parked on a receive nor holding a pending
    send cannot be changed by the steps of other nodes: a neighbour only
    writes [sent_value] into a node whose [wait_port] is set, and only
    resets a [port_value]. *)
Theorem idle_node_untouched_by_others
    (m : machine) (self : Z) (nd : TISNode) (depth : nat) (schedule : list Z) :
  m !! self = Some nd ->
  wait_port nd = None -> port_value nd = None ->
  self ∉ schedule ->
  final_store (tick depth schedule m) !! self = Some nd.
Proof.
  intros Hs Hw Hp Hnot.
  assert (H : node_sat self (eq nd) (final_store (tick depth schedule m))).
  { revert m Hs. induction schedule as [|t rest IH]; intros m Hs.
    - exists nd. auto.
    - cbn [tick].
      assert (Ht : t <> self) by (intros ->; apply Hnot; left).
      assert (Hrest : self ∉ rest) by (intros Hin; apply Hnot; right; exact Hin).
      pose proof (frame_step self nd Hw Hp t Ht depth m) as Hstep.
      unfold bind. destruct (step depth t m) as [[] m'|e m'];
        cbn [final_store] in Hstep |- *.
      + destruct Hstep as (x & Hx & <-); [exists nd; auto|].
        apply IH; assumption.
      + apply Hstep. exists nd. auto. }
  destruct H as (x & Hx & <-). exact Hx.
Qed.

Lemma idle_node_untouched_by_others_witness :
  final_store (tick 1 [0; 0; 0] one_operand_grid) !! 5 = Some receiver5.
Proof.
  apply (idle_node_untouched_by_others one_operand_grid 5 receiver5 1 [0; 0; 0]).
  - reflexivity.
  - reflexivity.
  - reflexivity.
  - not_in_list.
Defined.




(** X4. An instruction that passed validation and has no port among its
    operands never returns "not yet complete": it returns True or raises.
    Only port reads and writes park a node in the middle of an
    instruction. *)
Theorem only_ports_leave_an_instruction_incomplete
    (s : Z) (instr : ASTNode) (m : machine) (b : bool) (m' : machine) :
  validate_instruction instr = inr None ->
  no_port_operand instr ->
  do_instr s instr m = Return b m' ->
  b = true.
Proof.
  intros Hval Hnp Hrun.
  exact (port_free_instruction_completes s instr Hval Hnp m b m' Hrun).
Qed.

Lemma only_ports_leave_an_instruction_incomplete_witness :
  exists m',
    do_instr 5 (NArgumentInstruction add [IntegerLiteral 4]) {[ 5 := swt3_node ]}
    = Return true m'.
Proof.
  destruct (do_instr 5 (NArgumentInstruction add [IntegerLiteral 4]) {[ 5 := swt3_node ]})
    as [b m'|e m'] eqn:Hrun; [|vm_compute in Hrun; discriminate Hrun].
  exists m'. f_equal.
  apply (only_ports_leave_an_instruction_incomplete
           5 (NArgumentInstruction add [IntegerLiteral 4]) {[ 5 := swt3_node ]} b m').
  - reflexivity.
  - intros p. not_in_list.
  - exact Hrun.
Defined.

(* ===================================================================== *)
(** ** What no method ever assigns *)
(* ===================================================================== *)

(** Store properties that no attribute assignment of the methods breaks are
    kept by every method. *)
Section SetterClosed.
Context (P : machine -> Prop).
Hypothesis Hassign : forall j f, is_setter f -> preserves P (assign j f).

Ltac setter := apply Hassign; constructor.

Lemma sc_get_value_from_port s port : preserves P (get_value_from_port s port).
Proof. unfold get_value_from_port. preserves_with setter fail. Qed.

Lemma sc_set_value_to_direction s port value :
  preserves P (set_value_to_direction s port value).
Proof. unfold set_value_to_direction, deliver. preserves_with setter fail. Qed.

Lemma sc_any_loop s value ds : preserves P (any_loop s value ds).
Proof.
  induction ds as [|d ds IH]; cbn [any_loop];
    preserves_with ltac:(first [apply sc_set_value_to_direction | setter]) fail.
Qed.

Lemma sc_set_value_to_port s port value :
  preserves P (set_value_to_port s port value).
Proof.
  unfold set_value_to_port, deliver.
  preserves_with
    ltac:(first [ apply sc_any_loop | apply sc_set_value_to_direction | setter ]) fail.
Qed.

Lemma sc_do_instr s instr : preserves P (do_instr s instr).
Proof.
  destruct instr as [| op args | | | |]; cbn [do_instr]; try apply preserves_raise.
  destruct op;
    unfold instr_mov, mov_destination, instr_nop, instr_swp, instr_swt, instr_sav,
      instr_add, instr_sub, instr_neg, instr_jez, instr_jnz, instr_jgz, instr_jlz,
      jump_if, instr_jro, instr_jmp, cur_acc, cur_bak, set_cur_acc, set_cur_bak;
    preserves_with
      ltac:(first [ apply sc_get_value_from_port | apply sc_set_value_to_port
                  | setter ]) fail.
Qed.

Lemma sc_step depth s : preserves P (step depth s).
Proof.
  induction depth as [|d IH]; cbn [step]; unfold incr_instr_pointer;
    preserves_with ltac:(first [apply sc_do_instr | setter]) fail.
Qed.
End SetterClosed.

Lemma setter_static f nd : is_setter f -> static_attributes (f nd) = static_attributes nd.
Proof. intros []; reflexivity. Qed.

Lemma assign_keeps_static i x j f :
  is_setter f ->
  preserves (node_sat i (fun nd => static_attributes nd = x)) (assign j f).
Proof.
  intros Hf. apply preserves_assign. intros _ nd H.
  rewrite (setter_static f nd Hf). exact H.
Qed.

Lemma assign_keeps_dom (D : gset Z) j f :
  preserves (fun m : machine => dom m = D) (assign j f).
Proof.
  intros m Hm. unfold assign. destruct (m !! j) as [nd|] eqn:Hj; cbn [final_store];
    [|exact Hm].
  rewrite dom_insert_L, <- Hm. apply subseteq_union_1_L, singleton_subseteq_l.
  apply elem_of_dom_2 in Hj. exact Hj.
Qed.

(** X5. No step of any node, in any order, creates or removes a node or
    changes what the constructor computed for a node: its id, program,
    instruction and label tables, and port ids stay as they were, also when
    a step raises. *)
Theorem steps_keep_programs_and_grid
    (m : machine) (i : Z) (nd : TISNode) (depth : nat) (schedule : list Z) :
  m !! i = Some nd ->
  dom (final_store (tick depth schedule m)) = dom m
  /\ exists nd', final_store (tick depth schedule m) !! i = Some nd'
                 /\ static_attributes nd' = static_attributes nd.
Proof.
  intros Hi. split.
  - apply (preserves_tick (fun m' : machine => dom m' = dom m)); [|reflexivity].
    intros s. apply sc_step. intros j f _. apply assign_keeps_dom.
  - apply (preserves_tick
             (node_sat i (fun nd' => static_attributes nd' = static_attributes nd))).
    + intros s. apply sc_step. intros j f Hf. apply assign_keeps_static, Hf.
    + exists nd. auto.
Qed.

Lemma steps_keep_programs_and_grid_witness :
  dom (final_store (tick 1 [0; 5; 5; 0] relay_grid)) = dom relay_grid
  /\ exists nd', final_store (tick 1 [0; 5; 5; 0] relay_grid) !! 5 = Some nd'
                 /\ static_attributes nd'
                    = static_attributes
                        (new_node 5 [NArgumentInstruction mov
                                       [PortLiteral (Dir UP); PortLiteral (Dir DOWN)]]
                           (Some 0) (Some 10) None (Some 6)).
Proof.
  apply (steps_keep_programs_and_grid relay_grid 5 _ 1 [0; 5; 5; 0]).
  reflexivity.
Defined.

(* ===================================================================== *)
(** ** What the constructor computes *)
(* ===================================================================== *)

Lemma int_is_zero r : Py.int_is r 0 = (r =? 0).
Proof. unfold Py.int_is. destruct (Z.eqb_spec r 0) as [->|]; reflexivity. Qed.

(** With a grid width other than zero the constructor raises nothing before
    validation, and the node it returns has these attributes. *)
Lemma TISNode_init_inr id h w p nd :
  w <> 0 ->
  TISNode_init id h w p = inr nd ->
  nd = new_node id (match p with None => [] | Some a => a end)
         (up_of id w) (down_of id h w)
         (if id >? 0 then if id mod w =? 0 then None else Some (id - 1) else None)
         (if id + 1 <? w * h
          then if (id + 1) mod w =? 0 then None else Some (id + 1) else None)
  /\ validate_node (ast nd) (label_table nd) = None.
Proof.
  intros Hw. unfold TISNode_init, left_of, right_of, py_mod.
  replace (w =? 0) with false by lia. rewrite !int_is_zero.
  destruct (id >? 0), (id + 1 <? w * h); cbv beta iota;
    destruct (id mod w =? 0); destruct ((id + 1) mod w =? 0); cbn [negb];
    match goal with
    | |- context [validate_node ?a ?t] => destruct (validate_node a t) eqn:Hval
    end; intros [= <-]; (split; [reflexivity | exact Hval]).
Qed.

(** X6. The port ids that the constructor computes are mirrored: when node
    [a] of a grid has node [b] in direction [d], then [b] lies in the grid,
    is another node, and has [a] in the opposite direction, the one that
    [set_value_to_port] looks for. *)
Theorem grid_wiring_is_mirrored
    (h w a b : Z) (d : Direction) (pa pb : option (list ASTNode)) (na nb : TISNode) :
  0 < w -> 0 <= a < w * h ->
  TISNode_init a h w pa = inr na ->
  directions na d = Some b ->
  TISNode_init b h w pb = inr nb ->
  0 <= b < w * h /\ b <> a /\ directions nb (look_for d) = Some a.
Proof.
  intros Hw Ha Hna Hd Hnb.
  apply TISNode_init_inr in Hna as [-> _]; [|lia].
  apply TISNode_init_inr in Hnb as [-> _]; [|lia].
  destruct d; cbn [directions look_for new_node up_id down_id left_id right_id] in *;
    unfold up_of, down_of in *.
  - destruct (Z.ltb_spec (a - w) 0); [discriminate|]. injection Hd as <-.
    destruct (Z.ltb_spec (a - w + w) (w * h)); [|lia].
    repeat split; [lia | nia | lia | f_equal; lia].
  - destruct (Z.ltb_spec (a + w) (w * h)); [|discriminate]. injection Hd as <-.
    destruct (Z.ltb_spec (a + w - w) 0); [lia|].
    repeat split; [lia | lia | lia | cbn [negb]; f_equal; lia].
  - destruct (Z.gtb_spec a 0); [|discriminate].
    destruct (a mod w =? 0) eqn:Hmod; [discriminate|]. injection Hd as <-.
    rewrite Z.sub_add, Hmod.
    destruct (Z.ltb_spec a (w * h)); [|lia].
    repeat split; lia.
  - destruct (Z.ltb_spec (a + 1) (w * h)); [|discriminate].
    destruct ((a + 1) mod w =? 0) eqn:Hmod; [discriminate|]. injection Hd as <-.
    destruct (Z.gtb_spec (a + 1) 0); [|lia]. rewrite Hmod.
    repeat split; [lia | lia | lia | f_equal; lia].
Qed.

Lemma grid_wiring_is_mirrored_witness :
  0 <= 10 < grid_width * grid_height /\ 10 <> 5
  /\ directions (new_node 10 [] (Some 5) (Some 15) None (Some 11)) (look_for DOWN)
     = Some 5.
Proof.
  apply (grid_wiring_is_mirrored grid_height grid_width 5 10 DOWN
           (Some [mov_up_acc]) None receiver5
           (new_node 10 [] (Some 5) (Some 15) None (Some 11))).
  - reflexivity.
  - unfold grid_width, grid_height. lia.
  - reflexivity.
  - reflexivity.
  - reflexivity.
Defined.

(** X7. Neighbours are one column or one row away: left and right stay in
    the row of the node, up and down in its column. *)
Theorem neighbours_share_row_or_column
    (h w a b : Z) (d : Direction) (pa : option (list ASTNode)) (na : TISNode) :
  0 < w -> 0 <= a ->
  TISNode_init a h w pa = inr na ->
  directions na d = Some b ->
  match d with
  | UP => b mod w = a mod w /\ b / w = a / w - 1
  | DOWN => b mod w = a mod w /\ b / w = a / w + 1
  | LEFT => b / w = a / w /\ b mod w = a mod w - 1
  | RIGHT => b / w = a / w /\ b mod w = a mod w + 1
  end.
Proof.
  intros Hw Ha Hna Hd.
  apply TISNode_init_inr in Hna as [-> _]; [|lia].
  pose proof (Z.div_mod a w ltac:(lia)) as Hdm.
  pose proof (Z.mod_pos_bound a w Hw) as Hbound.
  assert (Huniq : forall q r, 0 <= r < w -> b = w * q + r -> b / w = q /\ b mod w = r).
  { intros q r Hr ->. split.
    - symmetry. apply (Z.div_unique _ _ q r); [lia|reflexivity].
    - symmetry. apply (Z.mod_unique _ _ q r); [lia|reflexivity]. }
  destruct d; cbn [directions new_node up_id down_id left_id right_id] in Hd;
    unfold up_of, down_of in Hd.
  - destruct (Z.ltb_spec (a - w) 0); [discriminate|]. injection Hd as <-.
    destruct (Huniq (a / w - 1) (a mod w)); [lia|lia|]. split; lia.
  - destruct (Z.ltb_spec (a + w) (w * h)); [|discriminate]. injection Hd as <-.
    destruct (Huniq (a / w + 1) (a mod w)); [lia|lia|]. split; lia.
  - destruct (Z.gtb_spec a 0); [|discriminate].
    destruct (Z.eqb_spec (a mod w) 0); [discriminate|]. injection Hd as <-.
    destruct (Huniq (a / w) (a mod w - 1)); [lia|lia|]. split; lia.
  - destruct (Z.ltb_spec (a + 1) (w * h)); [|discriminate].
    destruct (Z.eqb_spec ((a + 1) mod w) 0) as [|Hmod]; [discriminate|].
    injection Hd as <-.
    assert (a mod w + 1 <> w).
    { intros E. apply Hmod. replace (a + 1) with (w * (a / w + 1) + 0) by lia.
      symmetry. apply (Z.mod_unique _ _ (a / w + 1) 0); [lia|reflexivity]. }
    destruct (Huniq (a / w) (a mod w + 1)); [lia|lia|]. split; lia.
Qed.

Lemma neighbours_share_row_or_column_witness :
  0 mod grid_width = 5 mod grid_width /\ 0 / grid_width = 5 / grid_width - 1.
Proof.
  apply (neighbours_share_row_or_column grid_height grid_width 5 0 UP
           (Some [mov_up_acc]) receiver5).
  - reflexivity.
  - lia.
  - reflexivity.
  - reflexivity.
Defined.

(* ===================================================================== *)
(** ** The instruction and label tables *)
(* ===================================================================== *)

Lemma is_instruction_b_spec stmt : is_instruction_b stmt = true <-> is_instruction stmt.
Proof.
  split.
  - destruct stmt; try discriminate. intros _. do 2 eexists. reflexivity.
  - intros (op & args & ->). reflexivity.
Qed.

(** [instr_indices]: entry [k] is the index of the statement that is an
    instruction and has [k] instructions before it. *)
Lemma instr_indices_lookup ast :
  forall (s : Z) (k : nat) (i : Z),
    instr_indices ast s !! k = Some i
    <-> exists n : nat,
          i = s + Z.of_nat n
          /\ (exists stmt, ast !! n = Some stmt /\ is_instruction_b stmt = true)
          /\ instructions_before ast n = k.
Proof.
  unfold instructions_before.
  induction ast as [|x rest IH]; intros s k i.
  - split; [discriminate|]. intros (n & _ & (stmt & H & _) & _). discriminate H.
  - destruct (is_instruction_b x) eqn:Hx.
    + assert (Hcons : instr_indices (x :: rest) s = s :: instr_indices rest (s + 1))
        by (destruct x; try discriminate Hx; reflexivity).
      rewrite Hcons. destruct k as [|k]; cbn [lookup list_lookup].
      * split.
        -- intros [= <-]. exists 0%nat. split; [lia|]. split; [|reflexivity].
           exists x. auto.
        -- intros ([|n] & -> & _ & Hcount); [f_equal; lia|].
           cbn [take List.filter] in Hcount. rewrite Hx in Hcount. discriminate.
      * change ((s :: instr_indices rest (s + 1)) !! S k)
          with (instr_indices rest (s + 1) !! k).
        rewrite IH. split.
        -- intros (n & -> & Hn & Hcount). exists (S n). split; [lia|].
           split; [exact Hn|]. cbn [take List.filter]. rewrite Hx. cbn [length].
           congruence.
        -- intros ([|n] & -> & Hn & Hcount); [discriminate Hcount|].
           exists n. split; [lia|]. split; [exact Hn|].
           cbn [take List.filter] in Hcount. rewrite Hx in Hcount.
           cbn [length] in Hcount. congruence.
    + assert (Hcons : instr_indices (x :: rest) s = instr_indices rest (s + 1))
        by (destruct x; try discriminate Hx; reflexivity).
      rewrite Hcons, IH. split.
      * intros (n & -> & Hn & Hcount). exists (S n). split; [lia|].
        split; [exact Hn|]. cbn [take List.filter]. rewrite Hx. exact Hcount.
      * intros ([|n] & -> & Hn & Hcount).
        -- destruct Hn as (stmt & [= <-] & Hs). congruence.
        -- exists n. split; [lia|]. split; [exact Hn|].
           cbn [take List.filter] in Hcount. rewrite Hx in Hcount. exact Hcount.
Qed.

Lemma instr_indices_ge ast : forall s i, i ∈ instr_indices ast s -> s <= i.
Proof.
  intros s i Hin. apply list_elem_of_lookup in Hin as [k Hk].
  apply instr_indices_lookup in Hk as (n & -> & _). lia.
Qed.

Lemma instr_indices_NoDup ast : forall s, NoDup (instr_indices ast s).
Proof.
  induction ast as [|x rest IH]; intros s; [constructor|].
  destruct x; cbn [instr_indices]; try apply IH.
  constructor; [|apply IH].
  intros Hin. apply instr_indices_ge in Hin. lia.
Qed.

(** [reverse_lookup] on a list without duplicates. *)
Lemma reverse_lookup_other lookup :
  forall s d i, i ∉ lookup -> reverse_lookup lookup s d !! i = d !! i.
Proof.
  induction lookup as [|x rest IH]; intros s d i Hi; [reflexivity|].
  cbn [reverse_lookup]. apply not_elem_of_cons in Hi as [Hne Hi].
  rewrite IH by exact Hi. apply lookup_insert_ne. congruence.
Qed.

Lemma reverse_lookup_entry lookup :
  forall s d (n : nat) i,
    NoDup lookup -> lookup !! n = Some i ->
    reverse_lookup lookup s d !! i = Some (s + Z.of_nat n).
Proof.
  induction lookup as [|x rest IH]; intros s d n i Hnd Hn; [discriminate|].
  apply NoDup_cons in Hnd as [Hx Hnd]. cbn [reverse_lookup].
  destruct n as [|n].
  - injection Hn as ->. rewrite reverse_lookup_other by exact Hx.
    rewrite lookup_insert_eq. f_equal. lia.
  - rewrite (IH _ _ n i Hnd Hn). f_equal. lia.
Qed.

(** X8. The two instruction tables of a constructed node are inverse to
    each other, and entry [k] of [ast_instr_real_lookup] is the index of the
    statement that is an instruction with exactly [k] instructions before
    it: the table finds the k-th instruction. *)
Theorem instruction_tables_find_kth_instruction
    (id : Z) (ast : list ASTNode) (up down left right : option Z) (k : nat) (i : Z) :
  let nd := new_node id ast up down left right in
  (ast_instr_real_lookup nd !! k = Some i
   <-> exists n : nat,
         i = Z.of_nat n
         /\ (exists stmt, ast !! n = Some stmt /\ is_instruction stmt)
         /\ instructions_before ast n = k)
  /\ (ast_real_instr_lookup nd !! i = Some (Z.of_nat k)
      <-> ast_instr_real_lookup nd !! k = Some i)
  /\ (forall j, ast_real_instr_lookup nd !! i = Some j -> 0 <= j).
Proof.
  cbn [new_node ast_instr_real_lookup ast_real_instr_lookup].
  assert (Hrev : forall j, reverse_lookup (instr_indices ast 0) 0 ∅ !! i = Some j ->
                   exists n : nat, j = Z.of_nat n /\ instr_indices ast 0 !! n = Some i).
  { intros j Hj.
    destruct (decide (i ∈ instr_indices ast 0)) as [Hin|Hnot].
    - apply list_elem_of_lookup in Hin as [n Hn]. exists n. split; [|exact Hn].
      rewrite (reverse_lookup_entry _ 0 ∅ n i (instr_indices_NoDup ast 0) Hn) in Hj.
      injection Hj as <-. lia.
    - rewrite reverse_lookup_other in Hj by exact Hnot. discriminate Hj. }
  split; [|split].
  - rewrite instr_indices_lookup. split.
    + intros (n & -> & (stmt & Hs & Hb) & Hc). exists n.
      split; [lia|]. split; [|exact Hc]. exists stmt. split; [exact Hs|].
      apply is_instruction_b_spec, Hb.
    + intros (n & -> & (stmt & Hs & Hb) & Hc). exists n.
      split; [lia|]. split; [|exact Hc]. exists stmt. split; [exact Hs|].
      apply is_instruction_b_spec, Hb.
  - split.
    + intros Hj. apply Hrev in Hj as (n & Hn & Hi).
      apply Nat2Z.inj in Hn as ->. exact Hi.
    + intros Hk.
      rewrite (reverse_lookup_entry _ 0 ∅ k i (instr_indices_NoDup ast 0) Hk).
      f_equal.
  - intros j Hj. apply Hrev in Hj as (n & -> & _). lia.
Qed.

Lemma is_Label_or_not (x : ASTNode) (name : string) : x = Label name \/ x <> Label name.
Proof.
  destruct x as [| | | | name' |]; try (right; discriminate).
  destruct (decide (name' = name)) as [->|Hne]; [left; reflexivity|].
  right. congruence.
Qed.

(** [build_label_table]: a name maps to the index of its last definition
    among the statements, or to what the table held before when the
    statements do not define it. *)
Lemma build_label_table_lookup ast name :
  forall (s : Z) (t : gmap string Z) (i : Z),
    build_label_table ast s t !! name = Some i
    <-> (exists n : nat,
           i = s + Z.of_nat n /\ ast !! n = Some (Label name)
           /\ forall j, (n < j)%nat -> ast !! j <> Some (Label name))
        \/ (t !! name = Some i /\ forall j, ast !! j <> Some (Label name)).
Proof.
  induction ast as [|x rest IH]; intros s t i.
  - cbn [build_label_table]. split.
    + intros H. right. split; [exact H|]. intros j. discriminate.
    + intros [(n & _ & H & _) | [H _]]; [discriminate H | exact H].
  - assert (Hstep : exists t',
              build_label_table (x :: rest) s t = build_label_table rest (s + 1) t'
              /\ (x = Label name -> t' !! name = Some s)
              /\ (x <> Label name -> t' !! name = t !! name)).
    { destruct x as [| | | | name' |];
        try (exists t; split; [reflexivity|]; split; [discriminate | reflexivity]).
      exists (<[name' := s]> t). split; [reflexivity|]. split.
      - intros [= ->]. apply lookup_insert_eq.
      - intros Hne. apply lookup_insert_ne. congruence. }
    destruct Hstep as (t' & -> & Hdef & Hother). rewrite IH. split.
    + intros [(n & -> & Hn & Hlast) | [Ht Hnone]].
      * left. exists (S n). split; [lia|]. split; [exact Hn|].
        intros [|j] Hj; [lia|]. apply Hlast. lia.
      * destruct (is_Label_or_not x name) as [Hx|Hx].
        -- left. exists 0%nat. rewrite (Hdef Hx) in Ht. injection Ht as <-.
           split; [lia|]. split; [rewrite Hx; reflexivity|].
           intros [|j] Hj; [lia|]. apply Hnone.
        -- right. rewrite (Hother Hx) in Ht. split; [exact Ht|].
           intros [|j]; [cbn; congruence | apply Hnone].
    + intros [(n & -> & Hn & Hlast) | [Ht Hnone]].
      * destruct n as [|n].
        -- right. injection Hn as Hx. rewrite (Hdef Hx). split; [f_equal; lia|].
           intros j. apply (Hlast (S j)). lia.
        -- left. exists n. split; [lia|]. split; [exact Hn|].
           intros j Hj. apply (Hlast (S j)). lia.
      * right. split.
        -- rewrite Hother; [exact Ht|]. intros Hx. apply (Hnone 0%nat).
           rewrite Hx. reflexivity.
        -- intros j. apply (Hnone (S j)).
Qed.

Lemma label_table_lookup_new_node id ast up down left right name i :
  label_table (new_node id ast up down left right) !! name = Some i
  <-> exists n : nat,
        i = Z.of_nat n /\ ast !! n = Some (Label name)
        /\ forall j, (n < j)%nat -> ast !! j <> Some (Label name).
Proof.
  cbn [new_node label_table]. rewrite build_label_table_lookup. split.
  - intros [(n & -> & H) | [H _]]; [|discriminate H]. exists n. split; [lia|exact H].
  - intros (n & -> & H). left. exists n. split; [lia|exact H].
Qed.

(** X9. The label table of a constructed node maps a name to the index of
    the last statement that defines it, and holds nothing else: a later
    definition of a label silently replaces an earlier one. *)
Theorem label_table_holds_last_definition
    (id : Z) (ast : list ASTNode) (up down left right : option Z)
    (name : string) (i : Z) :
  label_table (new_node id ast up down left right) !! name = Some i
  <-> exists n : nat,
        i = Z.of_nat n /\ ast !! n = Some (Label name)
        /\ forall j, (n < j)%nat -> ast !! j <> Some (Label name).
Proof. apply label_table_lookup_new_node. Qed.

(* ===================================================================== *)
(** ** The validator *)
(* ===================================================================== *)

Lemma num_check_cases args num :
  instr_arg_num_check args num = Some Py.TISSyntaxError
  \/ (instr_arg_num_check args num = None /\ Z.of_nat (length args) = num).
Proof.
  destruct (instr_arg_num_check args num) eqn:H.
  - left. unfold instr_arg_num_check in H. destruct (negb _); congruence.
  - right. split; [reflexivity|]. apply num_check_length, H.
Qed.

Lemma type_check_cases node _type :
  (instr_arg_type_check node _type = None /\ type_of node ∈ _type)
  \/ (instr_arg_type_check node _type = Some Py.TISSyntaxError /\ type_of node ∉ _type).
Proof. unfold instr_arg_type_check. case_bool_decide; auto. Qed.

Lemma type_of_LabelReference a :
  type_of a ∈ [TLabelReference] <-> exists name, a = LabelReference name.
Proof.
  split.
  - intros H. apply list_elem_of_singleton in H. destruct a; try discriminate H.
    eexists. reflexivity.
  - intros [name ->]. left.
Qed.

Ltac shape_of_args Hlen :=
  match type of Hlen with
  | Z.of_nat (length ?args) = _ =>
      destruct args as [|? [|? [|? ?]]]; cbn [length] in Hlen; try lia; clear Hlen
  end.

Section ValidateInstruction.
Context (args : list ASTNode).

Let accepted (r : Py.exn + option string) : Prop :=
  r = inr None \/ r = inl Py.TISSyntaxError.

Lemma validate_nullary :
  let r := match instr_arg_num_check args 0 with
           | Some e => inl e
           | None => @inr Py.exn (option string) None
           end in
  (r = inr None <-> args = []) /\ accepted r.
Proof.
  destruct (num_check_cases args 0) as [Hn | [Hn Hlen]]; cbv zeta; rewrite Hn.
  - split; [split; [discriminate | intros ->; discriminate Hn] | right; reflexivity].
  - shape_of_args Hlen. split; [split; reflexivity | left; reflexivity].
Qed.

Lemma validate_unary (t : list ASTType) :
  let r := match instr_arg_num_check args 1 with
           | Some e => inl e
           | None => match check_arg_types args [t] with
                     | Some e => inl e
                     | None => @inr Py.exn (option string) None
                     end
           end in
  (r = inr None <-> exists a, args = [a] /\ type_of a ∈ t) /\ accepted r.
Proof.
  destruct (num_check_cases args 1) as [Hn | [Hn Hlen]]; cbv zeta; rewrite Hn.
  - split; [split; [discriminate | intros (a & -> & _); discriminate Hn]
           | right; reflexivity].
  - shape_of_args Hlen. cbn [check_arg_types].
    destruct (type_check_cases a t) as [[-> Ht] | [-> Ht]].
    + split; [split; [intros _; exists a; auto | reflexivity] | left; reflexivity].
    + split; [split; [discriminate|] | right; reflexivity].
      intros (a' & [= <-] & Hin). contradiction.
Qed.

Lemma validate_binary (t1 t2 : list ASTType) :
  let r := match instr_arg_num_check args 2 with
           | Some e => inl e
           | None => match check_arg_types args [t1; t2] with
                     | Some e => inl e
                     | None => @inr Py.exn (option string) None
                     end
           end in
  (r = inr None
   <-> exists s d, args = [s; d] /\ type_of s ∈ t1 /\ type_of d ∈ t2)
  /\ accepted r.
Proof.
  destruct (num_check_cases args 2) as [Hn | [Hn Hlen]]; cbv zeta; rewrite Hn.
  - split; [split; [discriminate | intros (s & d & -> & _); discriminate Hn]
           | right; reflexivity].
  - shape_of_args Hlen. cbn [check_arg_types].
    destruct (type_check_cases a t1) as [[-> Ht1] | [-> Ht1]];
      [destruct (type_check_cases a0 t2) as [[-> Ht2] | [-> Ht2]]|].
    + split; [split; [intros _; exists a, a0; auto | reflexivity] | left; reflexivity].
    + split; [split; [discriminate|] | right; reflexivity].
      intros (s & d & [= <- <-] & _ & Hin). contradiction.
    + split; [split; [discriminate|] | right; reflexivity].
      intros (s & d & [= <- <-] & Hin & _). contradiction.
Qed.
End ValidateInstruction.

(** [validate_instruction] on an instruction, by the opcode's entry of the
    table. *)
Lemma validate_instruction_operands (op : Opcode) (args : list ASTNode) :
  (validate_instruction (NArgumentInstruction op args) = inr None
   <-> well_formed_operands op args)
  /\ (validate_instruction (NArgumentInstruction op args) = inr None
      \/ validate_instruction (NArgumentInstruction op args) = inl Py.TISSyntaxError).
Proof.
  cbn [validate_instruction].
  destruct op; cbn [opcode_check_dict well_formed_operands];
    try apply (validate_nullary args);
    try apply (validate_unary args IPR);
    try apply (validate_binary args IPR [TPortLiteral; TRegisterLiteral]).
  1-5: destruct (validate_unary args [TLabelReference]) as [[H1 H2] H3];
    (split; [split|exact H3]);
    [ intros H; apply H1 in H as (a & -> & Ha);
      apply type_of_LabelReference in Ha as [name ->]; eexists; reflexivity
    | intros [name ->]; apply H2; eexists; split; [reflexivity | left] ].
  (* hcf *)
  split; [split; [discriminate | contradiction] | right; reflexivity].
Qed.

(** X10. [validate_instruction] on an instruction accepts exactly the
    operand lists of the table, and every rejection is a TISSyntaxError: the
    number check comes first, so the lookup of the permitted types of an
    operand never runs past the table's entry. *)
Theorem validate_instruction_decides_operands (op : Opcode) (args : list ASTNode) :
  (validate_instruction (NArgumentInstruction op args) = inr None
   <-> well_formed_operands op args)
  /\ (validate_instruction (NArgumentInstruction op args) = inr None
      \/ validate_instruction (NArgumentInstruction op args) = inl Py.TISSyntaxError).
Proof. apply validate_instruction_operands. Qed.

(** The names that a label table built from the statements holds. *)
Lemma build_label_table_defined ast name :
  forall (s : Z) (t : gmap string Z),
    is_Some (build_label_table ast s t !! name)
    <-> (exists n : nat, ast !! n = Some (Label name)) \/ is_Some (t !! name).
Proof.
  induction ast as [|x rest IH]; intros s t.
  - cbn [build_label_table]. split; [auto|].
    intros [[n H] | H]; [discriminate H | exact H].
  - assert (Hstep : exists t',
              build_label_table (x :: rest) s t = build_label_table rest (s + 1) t'
              /\ (is_Some (t' !! name) <-> x = Label name \/ is_Some (t !! name))).
    { destruct x as [| | | | name' |];
        try (exists t; split; [reflexivity|]; split; [auto|]; intros [H|H];
             [discriminate H | exact H]).
      exists (<[name' := s]> t). split; [reflexivity|].
      destruct (decide (name' = name)) as [->|Hne].
      - rewrite lookup_insert_eq. split; [auto | eauto].
      - rewrite lookup_insert_ne by exact Hne. split; [auto|].
        intros [H|H]; [congruence | exact H]. }
    destruct Hstep as (t' & -> & Ht'). rewrite IH, Ht'. split.
    + intros [[n H] | [H | H]]; [left; exists (S n); exact H | | auto].
      left. exists 0%nat. rewrite H. reflexivity.
    + intros [[[|n] H] | H]; [right; left; injection H as ->; reflexivity
                               | left; exists n; exact H | auto].
Qed.

Lemma validate_node_accepts ast t :
  (validate_node ast t = None
   <-> forall stmt, stmt ∈ ast -> statement_accepted (fun name => is_Some (t !! name)) stmt)
  /\ (validate_node ast t = None \/ validate_node ast t = Some Py.TISSyntaxError).
Proof.
  induction ast as [|x rest [IH1 IH2]].
  - split; [|left; reflexivity]. split; [|reflexivity].
    intros _ stmt H. apply elem_of_nil in H. contradiction.
  - assert (Hx : (validate_node (x :: rest) t = validate_node rest t
                  /\ statement_accepted (fun name => is_Some (t !! name)) x)
                 \/ (validate_node (x :: rest) t = Some Py.TISSyntaxError
                     /\ ~ statement_accepted (fun name => is_Some (t !! name)) x)).
    { destruct x as [| op args | | | | name]; try (left; split; [reflexivity | exact I]).
      - destruct (validate_instruction_operands op args) as [Hiff [Hok|Hbad]].
        + left. cbn [validate_node]. rewrite Hok. split; [reflexivity|].
          apply Hiff, Hok.
        + right. cbn [validate_node]. rewrite Hbad. split; [reflexivity|].
          intros Hwf. apply Hiff in Hwf. congruence.
      - cbn [validate_node validate_instruction statement_accepted].
        destruct (t !! name) as [v|]; [left | right]; split; eauto.
        all: try (intros [v Hv]; discriminate Hv). }
    destruct Hx as [[-> Hacc] | [-> Hrej]].
    + split; [|exact IH2]. rewrite IH1. split.
      * intros H stmt Hin. apply elem_of_cons in Hin as [->|Hin]; [exact Hacc | auto].
      * intros H stmt Hin. apply H. right. exact Hin.
    + split; [|right; reflexivity]. split; [discriminate|].
      intros H. exfalso. apply Hrej, H. left.
Qed.

(** X11. In a grid of a width other than zero the constructor returns a
    node exactly when every instruction of the program has the operands of
    the table and every bare label reference names a label of the program;
    otherwise it raises TISSyntaxError and nothing else. *)
Theorem constructor_accepts_validated_programs (id h w : Z) (ast : list ASTNode) :
  w <> 0 ->
  ((exists nd, TISNode_init id h w (Some ast) = inr nd)
   <-> forall stmt, stmt ∈ ast ->
         statement_accepted (fun name => exists n : nat, ast !! n = Some (Label name)) stmt)
  /\ ((exists nd, TISNode_init id h w (Some ast) = inr nd)
      \/ TISNode_init id h w (Some ast) = inl Py.TISSyntaxError).
Proof.
  intros Hw.
  assert (Hinit : TISNode_init id h w (Some ast)
                  = match validate_node ast (build_label_table ast 0 ∅) with
                    | Some e => inl e
                    | None =>
                        inr (new_node id ast (up_of id w) (down_of id h w)
                               (if id >? 0
                                then if negb (Py.int_is (id mod w) 0)
                                     then Some (id - 1) else None
                                else None)
                               (if id + 1 <? w * h
                                then if negb (Py.int_is ((id + 1) mod w) 0)
                                     then Some (id + 1) else None
                                else None))
                    end).
  { unfold TISNode_init, left_of, right_of, py_mod.
    replace (w =? 0) with false by lia.
    destruct (id >? 0), (id + 1 <? w * h); reflexivity. }
  rewrite Hinit.
  destruct (validate_node_accepts ast (build_label_table ast 0 ∅)) as [Hiff Hcases].
  assert (Hdef : forall stmt,
            statement_accepted
              (fun name => is_Some (build_label_table ast 0 ∅ !! name)) stmt
            <-> statement_accepted
                  (fun name => exists n : nat, ast !! n = Some (Label name)) stmt).
  { intros [| | | | |name]; cbn [statement_accepted]; try reflexivity.
    rewrite build_label_table_defined. split; [|auto].
    intros [H | [v Hv]]; [exact H | discriminate Hv]. }
  split.
  - split.
    + intros [nd Hnd] stmt Hin. apply Hdef.
      destruct (validate_node ast _) eqn:Hv; [discriminate Hnd|].
      apply Hiff; [reflexivity | exact Hin].
    + intros H. rewrite (proj2 Hiff); [eexists; reflexivity|].
      intros stmt Hin. apply Hdef, H, Hin.
  - destruct Hcases as [-> | ->]; [left; eexists; reflexivity | right; reflexivity].
Qed.

Lemma constructor_accepts_validated_programs_witness :
  exists nd, TISNode_init 5 grid_height grid_width (Some [Label "a"; mov_up_acc]) = inr nd.
Proof.
  apply (constructor_accepts_validated_programs 5 grid_height grid_width
           [Label "a"; mov_up_acc]); [discriminate|].
  intros stmt Hin. apply list_elem_of_In in Hin. cbn in Hin.
  destruct Hin as [<- | [<- | []]]; cbn.
  - exact I.
  - exists (PortLiteral (Dir UP)), (RegisterLiteral "ACC").
    split; [reflexivity|]. split; [right; left | right; left].
Defined.

(** X12. The operand of a jump is never looked up by the validator: a
    program whose [jmp] names a label that no statement defines passes the
    constructor, and the jump raises KeyError when the node reaches it. *)
Theorem jump_to_undefined_label_raises_KeyError
    (id h w : Z) (program : list ASTNode) (nd : TISNode) (name : string)
    (m : machine) (depth : nat) :
  w <> 0 ->
  TISNode_init id h w (Some program) = inr nd ->
  program !! 0%nat = Some (NArgumentInstruction jmp [LabelReference name]) ->
  (forall n : nat, program !! n <> Some (Label name)) ->
  m !! id = Some nd ->
  step (S depth) id m = Raise Py.KeyError m.
Proof.
  intros Hw Hinit Hjmp Hundef Hm.
  apply TISNode_init_inr in Hinit as [Hnd _]; [|exact Hw].
  assert (Hlabel : label_table nd !! name = None).
  { rewrite Hnd. apply eq_None_not_Some. intros [i Hi].
    apply label_table_lookup_new_node in Hi as (n & _ & Hn & _).
    exact (Hundef n Hn). }
  assert (Hcur : Py.getitem (ast nd) (instruction_pointer nd)
                 = Some (NArgumentInstruction jmp [LabelReference name])).
  { rewrite Hnd. exact Hjmp. }
  assert (Hw' : wait_port nd = None) by (rewrite Hnd; reflexivity).
  assert (Hp : port_value nd = None) by (rewrite Hnd; reflexivity).
  cbn [step]. mexec. rewrite Hcur. mexec. rewrite Hw', Hp.
  cbn [do_instr]. unfold instr_jmp. mexec. cbn [name_of]. mexec.
  rewrite Hlabel. mexec. reflexivity.
Qed.

Lemma jump_to_undefined_label_raises_KeyError_witness :
  let nd := new_node 5 [NArgumentInstruction jmp [LabelReference "nowhere"]]
              (Some 0) (Some 10) None (Some 6) in
  step 1 5 {[ 5 := nd ]} = Raise Py.KeyError {[ 5 := nd ]}.
Proof.
  apply (jump_to_undefined_label_raises_KeyError 5 grid_height grid_width
           [NArgumentInstruction jmp [LabelReference "nowhere"]]
           (new_node 5 [NArgumentInstruction jmp [LabelReference "nowhere"]]
              (Some 0) (Some 10) None (Some 6))
           "nowhere" _ 0).
  - discriminate.
  - reflexivity.
  - reflexivity.
  - intros n. destruct n as [|[|n]]; discriminate.
  - apply lookup_singleton_eq.
Defined.

(* ===================================================================== *)
(** ** The instruction pointer *)
(* ===================================================================== *)

Lemma getitem_elem_of {A : Type} (l : list A) (i : Z) (x : A) :
  Py.getitem l i = Some x -> x ∈ l.
Proof.
  unfold Py.getitem. destruct (0 <=? i); [apply list_elem_of_lookup_2|].
  destruct (0 <=? _); [apply list_elem_of_lookup_2 | discriminate].
Qed.

Lemma tables_built_new_node id program up down left right :
  tables_built (new_node id program up down left right).
Proof. repeat split. Qed.

(** The entries of built tables are indices of statements. *)
Lemma tables_built_label_range nd name t :
  tables_built nd -> label_table nd !! name = Some t -> 0 <= t < Py.len (ast nd).
Proof.
  intros (_ & _ & _ & Hl) Ht. rewrite Hl in Ht.
  apply build_label_table_lookup in Ht as [(n & -> & Hn & _) | [Ht _]];
    [|discriminate Ht].
  apply lookup_lt_Some in Hn. unfold Py.len. lia.
Qed.

Lemma tables_built_instr_range nd t :
  tables_built nd -> t ∈ ast_instr_real_lookup nd -> 0 <= t < Py.len (ast nd).
Proof.
  intros (Hi & _) Ht. rewrite Hi in Ht.
  apply list_elem_of_lookup in Ht as [k Hk].
  apply instr_indices_lookup in Hk as (n & -> & (stmt & Hn & _) & _).
  apply lookup_lt_Some in Hn. unfold Py.len. lia.
Qed.

Lemma next_pointer_in_range nd :
  pointer_in_range nd ->
  pointer_in_range
    (set_instruction_pointer (next_pointer nd (instruction_pointer nd)) nd).
Proof.
  intros (Ht & Hlen & Hip). split; [exact Ht|]. split; [exact Hlen|].
  cbn [instruction_pointer set_instruction_pointer ast]. unfold next_pointer.
  destruct Ht as (_ & _ & -> & _). unfold Py.int_is.
  destruct (Z.eqb_spec (instruction_pointer nd + 1) (Py.len (ast nd))); cbn [andb].
  - replace (-5 <=? _) with true by lia. replace (_ <=? 256) with true by lia.
    cbn [andb]. lia.
  - lia.
Qed.

Section PointerInRange.
Context (i : Z).

Let P : machine -> Prop := node_sat i pointer_in_range.

(** The assignments to every attribute but the instruction pointer. *)
Ltac side := intros _ ? H; exact H.

Lemma ptr_incr_instr_pointer s : preserves P (incr_instr_pointer s).
Proof.
  intros m (nd & Hnd & HQ).
  destruct (m !! s) as [nds|] eqn:Hs.
  - rewrite (incr_instr_pointer_run m s nds Hs). cbn [final_store].
    destruct (decide (i = s)) as [->|Hne].
    + rewrite Hs in Hnd. injection Hnd as ->.
      exists (set_instruction_pointer (next_pointer nd (instruction_pointer nd)) nd).
      split; [apply lookup_insert_eq | apply next_pointer_in_range, HQ].
    + exists nd. rewrite lookup_insert_ne by congruence. auto.
  - unfold incr_instr_pointer, bind, self_. rewrite Hs. exists nd. auto.
Qed.

(** An assignment to the instruction pointer of [s] of a value that is in
    range for the node stored under [s]. *)
Lemma ptr_assign_pointer s nds target m :
  m !! s = Some nds ->
  (tables_built nds -> 0 <= target < Py.len (ast nds)) ->
  P m -> P (<[s := set_instruction_pointer target nds]> m).
Proof.
  intros Hs Ht (nd & Hnd & HQ).
  destruct (decide (i = s)) as [->|Hne].
  - rewrite Hs in Hnd. injection Hnd as ->.
    exists (set_instruction_pointer target nd). split; [apply lookup_insert_eq|].
    destruct HQ as (Hb & Hlen & _). split; [exact Hb|]. split; [exact Hlen|].
    apply Ht, Hb.
  - exists nd. rewrite lookup_insert_ne by congruence. auto.
Qed.

Lemma ptr_instr_jmp s args : preserves P (instr_jmp s args).
Proof.
  intros m HP. unfold instr_jmp.
  destruct (Py.getitem args 0) as [a0|]; mexec; [|exact HP].
  destruct (name_of a0) as [name|]; mexec; [|exact HP].
  destruct (m !! s) as [nds|] eqn:Hs;
    [|unfold bind, self_; rewrite Hs; exact HP].
  mexec. destruct (label_table nds !! name) as [target|] eqn:Ht; mexec; [|exact HP].
  cbn [final_store]. apply (ptr_assign_pointer s nds target m Hs); [|exact HP].
  intros Hb. eapply tables_built_label_range; eassumption.
Qed.

Lemma ptr_jro_jump s v :
  preserves P
    (nd <- self_ s ;;
     ordinal <- or_raise Py.KeyError
                  (ast_real_instr_lookup nd !! instruction_pointer nd) ;;
     target <- or_raise Py.IndexError
                 (Py.getitem (ast_instr_real_lookup nd) (ordinal + v - 1)) ;;
     assign s (set_instruction_pointer target) ;;
     ret true)%py.
Proof.
  intros m HP.
  destruct (m !! s) as [nds|] eqn:Hs;
    [|unfold bind, self_; rewrite Hs; exact HP].
  mexec. destruct (ast_real_instr_lookup nds !! _) as [ordinal|]; mexec; [|exact HP].
  destruct (Py.getitem _ _) as [target|] eqn:Ht; mexec; [|exact HP].
  cbn [final_store]. apply (ptr_assign_pointer s nds target m Hs); [|exact HP].
  intros Hb. eapply tables_built_instr_range; [exact Hb|].
  eapply getitem_elem_of, Ht.
Qed.

Lemma ptr_get_value_from_port s port : preserves P (get_value_from_port s port).
Proof. unfold get_value_from_port. preserves_with fail side. Qed.

Lemma ptr_set_value_to_direction s port value :
  preserves P (set_value_to_direction s port value).
Proof. unfold set_value_to_direction, deliver. preserves_with fail side. Qed.

Lemma ptr_any_loop s value ds : preserves P (any_loop s value ds).
Proof.
  induction ds as [|d ds IH]; cbn [any_loop];
    preserves_with ltac:(apply ptr_set_value_to_direction) side.
Qed.

Lemma ptr_set_value_to_port s port value :
  preserves P (set_value_to_port s port value).
Proof.
  unfold set_value_to_port, deliver.
  preserves_with
    ltac:(first [ apply ptr_any_loop | apply ptr_set_value_to_direction ]) side.
Qed.

Lemma ptr_do_instr s instr : preserves P (do_instr s instr).
Proof.
  destruct instr as [| op args | | | |]; cbn [do_instr]; try apply preserves_raise.
  destruct op;
    unfold instr_mov, mov_destination, instr_nop, instr_swp, instr_swt, instr_sav,
      instr_add, instr_sub, instr_neg, instr_jez, instr_jnz, instr_jgz, instr_jlz,
      jump_if, instr_jro, cur_acc, cur_bak, set_cur_acc, set_cur_bak;
    preserves_with
      ltac:(first [ apply ptr_instr_jmp | apply ptr_jro_jump
                  | apply ptr_get_value_from_port | apply ptr_set_value_to_port ])
      side.
Qed.

Lemma ptr_step depth s : preserves P (step depth s).
Proof.
  induction depth as [|d IH]; cbn [step];
    preserves_with
      ltac:(first [ apply ptr_do_instr | apply ptr_incr_instr_pointer ]) side.
Qed.
End PointerInRange.

(** X13. In a node built by the constructor from 1 to 256 statements the
    instruction pointer always is the index of a statement: whichever nodes
    are stepped, and whether or not a step raises, the fetch
    [self.ast[self.instruction_pointer]] of the next step finds a
    statement. *)
Theorem instruction_pointer_stays_in_program
    (m : machine) (i : Z) (depth : nat) (schedule : list Z) :
  node_sat i pointer_in_range m ->
  node_sat i pointer_in_range (final_store (tick depth schedule m)).
Proof.
  apply preserves_tick. intros s. apply ptr_step.
Qed.

Lemma instruction_pointer_stays_in_program_witness :
  node_sat 5 pointer_in_range (final_store (tick 3 [0; 5; 5; 0] relay_grid)).
Proof.
  apply (instruction_pointer_stays_in_program relay_grid 5 3 [0; 5; 5; 0]).
  exists (new_node 5 [NArgumentInstruction mov
                        [PortLiteral (Dir UP); PortLiteral (Dir DOWN)]]
            (Some 0) (Some 10) None (Some 6)).
  split; [reflexivity|].
  split; [apply tables_built_new_node|].
  unfold Py.len. cbn [ast new_node length instruction_pointer]. lia.
Defined.

(** X14. Past 256 statements the wrap-around of [incr_instr_pointer] never
    happens, since it compares the pointer with the length by identity: a
    node that completes the last statement of such a program is left with
    the pointer behind the program, and its next step raises IndexError. *)
Theorem long_program_runs_off_its_end
    (m : machine) (s : Z) (nd : TISNode) (args : list ASTNode) (depth depth' : nat) :
  m !! s = Some nd ->
  wait_port nd = None -> port_value nd = None ->
  ast_len nd = Py.len (ast nd) ->
  256 < ast_len nd ->
  instruction_pointer nd = ast_len nd - 1 ->
  Py.getitem (ast nd) (instruction_pointer nd) = Some (NArgumentInstruction nop args) ->
  exists m',
    step (S depth) s m = Return tt m'
    /\ step (S depth') s m' = Raise Py.IndexError m'.
Proof.
  intros Hs Hw Hp Hlen Hlong Hip Hcur.
  exists (<[s := set_instruction_pointer (ast_len nd) nd]> m). split.
  - cbn [step]. mexec. rewrite Hcur. mexec. rewrite Hw, Hp.
    cbn [do_instr]. unfold instr_nop. mexec.
    rewrite (incr_instr_pointer_run m s nd Hs).
    assert (Hno : Py.int_is (instruction_pointer nd + 1) (ast_len nd) = false).
    { unfold Py.int_is. replace (_ <=? 256) with false by lia. apply andb_false_r. }
    rewrite Hno. replace (instruction_pointer nd + 1) with (ast_len nd) by lia.
    reflexivity.
  - cbn [step]. mexec. cbn [ast instruction_pointer set_instruction_pointer].
    replace (Py.getitem (ast nd) (ast_len nd)) with (@None ASTNode); [reflexivity|].
    symmetry. rewrite getitem_nonneg by lia. apply lookup_ge_None.
    rewrite Hlen. unfold Py.len. lia.
Qed.

Lemma long_program_runs_off_its_end_witness :
  let nd := set_instruction_pointer 256
              (new_node 0 (replicate 257 (NArgumentInstruction nop []))
                 None (Some 5) None (Some 1)) in
  exists m',
    step 1 0 {[ 0 := nd ]} = Return tt m'
    /\ step 1 0 m' = Raise Py.IndexError m'.
Proof.
  apply (long_program_runs_off_its_end
           {[ 0 := set_instruction_pointer 256
                     (new_node 0 (replicate 257 (NArgumentInstruction nop []))
                        None (Some 5) None (Some 1)) ]}
           0
           (set_instruction_pointer 256
              (new_node 0 (replicate 257 (NArgumentInstruction nop []))
                 None (Some 5) None (Some 1)))
           [] 0 0).
  - apply lookup_singleton_eq.
  - reflexivity.
  - reflexivity.
  - reflexivity.
  - vm_compute. reflexivity.
  - reflexivity.
  - reflexivity.
Defined.

(* ===================================================================== *)
(** ** Jumps *)
(* ===================================================================== *)

(** [step] of a node that is neither parked nor sending, at an
    instruction. *)
Lemma step_fresh_instruction m s nd op args depth :
  m !! s = Some nd ->
  wait_port nd = None -> port_value nd = None ->
  Py.getitem (ast nd) (instruction_pointer nd) = Some (NArgumentInstruction op args) ->
  step (S depth) s m
  = (done <- do_instr s (NArgumentInstruction op args) ;;
     if done then incr_instr_pointer s else ret tt)%py m.
Proof.
  intros Hs Hw Hp Hcur. cbn [step]. mexec. rewrite Hcur. mexec. rewrite Hw, Hp.
  reflexivity.
Qed.

(** An instruction that completes by moving the instruction pointer to
    [target]: [step] leaves the pointer one past it. *)
Lemma step_jump m s nd op args target depth :
  m !! s = Some nd ->
  wait_port nd = None -> port_value nd = None ->
  Py.getitem (ast nd) (instruction_pointer nd) = Some (NArgumentInstruction op args) ->
  do_instr s (NArgumentInstruction op args) m
  = Return true (<[s := set_instruction_pointer target nd]> m) ->
  step (S depth) s m
  = Return tt (<[s := set_instruction_pointer (next_pointer nd target) nd]> m).
Proof.
  intros Hs Hw Hp Hcur Hdo.
  rewrite (step_fresh_instruction m s nd op args depth Hs Hw Hp Hcur).
  rewrite (bind_Return _ _ _ _ _ Hdo).
  rewrite (incr_instr_pointer_run _ s (set_instruction_pointer target nd))
    by apply lookup_insert_eq.
  rewrite insert_insert_eq. reflexivity.
Qed.

Lemma step_no_jump m s nd op args depth :
  m !! s = Some nd ->
  wait_port nd = None -> port_value nd = None ->
  Py.getitem (ast nd) (instruction_pointer nd) = Some (NArgumentInstruction op args) ->
  do_instr s (NArgumentInstruction op args) m = Return true m ->
  step (S depth) s m
  = Return tt
      (<[s := set_instruction_pointer (next_pointer nd (instruction_pointer nd)) nd]> m).
Proof.
  intros Hs Hw Hp Hcur Hdo.
  rewrite (step_fresh_instruction m s nd op args depth Hs Hw Hp Hcur).
  rewrite (bind_Return _ _ _ _ _ Hdo).
  apply incr_instr_pointer_run, Hs.
Qed.

Lemma run_instr_jmp m s nd name target :
  m !! s = Some nd ->
  label_table nd !! name = Some target ->
  instr_jmp s [LabelReference name] m
  = Return true (<[s := set_instruction_pointer target nd]> m).
Proof.
  intros Hs Ht. unfold instr_jmp. mexec. cbn [name_of]. mexec. rewrite Ht. mexec.
  reflexivity.
Qed.

Lemma run_jump_if m s nd name target a test :
  m !! s = Some nd ->
  current_acc nd = Some a ->
  label_table nd !! name = Some target ->
  jump_if s [LabelReference name] test m
  = if test a then Return true (<[s := set_instruction_pointer target nd]> m)
    else Return true m.
Proof.
  intros Hs Ha Ht. unfold jump_if.
  rewrite (run_cur_acc m s nd Hs a _ Ha).
  destruct (test a); [|reflexivity]. mexec.
  apply run_instr_jmp; assumption.
Qed.

(** X15. A jump that is taken continues with the statement after the last
    definition of its label, a jump that is not taken with the next
    statement; [jez] and [jnz] compare the accumulator with 0 by identity,
    which for 0 is equality. *)
Theorem jumps_continue_after_last_definition
    (m : machine) (s : Z) (nd : TISNode) (op : Opcode) (name : string) (n : nat)
    (a : Z) (taken : bool) (depth : nat) :
  m !! s = Some nd ->
  wait_port nd = None -> port_value nd = None ->
  tables_built nd ->
  Py.getitem (ast nd) (instruction_pointer nd)
    = Some (NArgumentInstruction op [LabelReference name]) ->
  current_acc nd = Some a ->
  jump_taken op a = Some taken ->
  ast nd !! n = Some (Label name) ->
  (forall j, (n < j)%nat -> ast nd !! j <> Some (Label name)) ->
  step (S depth) s m
  = Return tt
      (<[s := set_instruction_pointer
                (next_pointer nd
                   (if taken then Z.of_nat n else instruction_pointer nd)) nd]> m).
Proof.
  intros Hs Hw Hp Hb Hcur Ha Htaken Hn Hlast.
  assert (Ht : label_table nd !! name = Some (Z.of_nat n)).
  { destruct Hb as (_ & _ & _ & ->). apply build_label_table_lookup.
    left. exists n. split; [lia|]. split; assumption. }
  assert (Hif : forall test,
            test a = taken ->
            jump_if s [LabelReference name] test m
            = if taken
              then Return true (<[s := set_instruction_pointer (Z.of_nat n) nd]> m)
              else Return true m).
  { intros test <-. apply run_jump_if; assumption. }
  destruct op; try discriminate Htaken; injection Htaken as Htaken.
  - (* jmp *)
    subst taken. apply (step_jump m s nd jmp _ _ depth Hs Hw Hp Hcur).
    apply run_instr_jmp; assumption.
  - (* jez *)
    specialize (Hif (fun a => Py.int_is a 0)). cbv beta in Hif.
    rewrite int_is_zero in Hif. specialize (Hif Htaken).
    destruct taken;
      [ apply (step_jump m s nd jez _ _ depth Hs Hw Hp Hcur)
      | apply (step_no_jump m s nd jez _ depth Hs Hw Hp Hcur) ]; exact Hif.
  - (* jnz *)
    specialize (Hif (fun a => negb (Py.int_is a 0))). cbv beta in Hif.
    rewrite int_is_zero in Hif. specialize (Hif Htaken).
    destruct taken;
      [ apply (step_jump m s nd jnz _ _ depth Hs Hw Hp Hcur)
      | apply (step_no_jump m s nd jnz _ depth Hs Hw Hp Hcur) ]; exact Hif.
  - (* jgz *)
    specialize (Hif (fun a => a >? 0)). cbv beta in Hif.
    rewrite Z.gtb_ltb in Hif. specialize (Hif Htaken).
    destruct taken;
      [ apply (step_jump m s nd jgz _ _ depth Hs Hw Hp Hcur)
      | apply (step_no_jump m s nd jgz _ depth Hs Hw Hp Hcur) ]; exact Hif.
  - (* jlz *)
    specialize (Hif (fun a => a <? 0) Htaken).
    destruct taken;
      [ apply (step_jump m s nd jlz _ _ depth Hs Hw Hp Hcur)
      | apply (step_no_jump m s nd jlz _ depth Hs Hw Hp Hcur) ]; exact Hif.
Qed.

Lemma jumps_continue_after_last_definition_witness :
  let program := [ Label "a"; NArgumentInstruction nop []; Label "a";
                   NArgumentInstruction jez [LabelReference "a"] ] in
  let nd := set_instruction_pointer 3
              (new_node 5 program (Some 0) (Some 10) None (Some 6)) in
  step 1 5 {[ 5 := nd ]}
  = Return tt (<[5 := set_instruction_pointer 3 nd]> {[ 5 := nd ]}).
Proof.
  apply (jumps_continue_after_last_definition
           {[ 5 := set_instruction_pointer 3
                     (new_node 5 [ Label "a"; NArgumentInstruction nop []; Label "a";
                                   NArgumentInstruction jez [LabelReference "a"] ]
                        (Some 0) (Some 10) None (Some 6)) ]}
           5
           (set_instruction_pointer 3
              (new_node 5 [ Label "a"; NArgumentInstruction nop []; Label "a";
                            NArgumentInstruction jez [LabelReference "a"] ]
                 (Some 0) (Some 10) None (Some 6)))
           jez "a" 2 0 true 0).
  - apply lookup_singleton_eq.
  - reflexivity.
  - reflexivity.
  - repeat split.
  - reflexivity.
  - reflexivity.
  - reflexivity.
  - reflexivity.
  - intros [|[|[|[|j]]]] Hj; try lia; discriminate.
Defined.

(** X16. [jro] with an integer operand counts instructions, not statements:
    from instruction number [k] it continues after instruction number
    [k + v - 1] of the program, taken as Python indexes a list. An offset
    that reaches before the first instruction wraps around from the last
    one, and one that reaches past the last instruction raises
    IndexError. *)
Theorem jro_counts_instructions
    (m : machine) (s : Z) (nd : TISNode) (v : Z) (n : nat) (depth : nat) :
  m !! s = Some nd ->
  wait_port nd = None -> port_value nd = None ->
  tables_built nd ->
  instruction_pointer nd = Z.of_nat n ->
  ast nd !! n = Some (NArgumentInstruction jro [IntegerLiteral v]) ->
  step (S depth) s m
  = match Py.getitem (instr_indices (ast nd) 0)
            (Z.of_nat (instructions_before (ast nd) n) + v - 1) with
    | Some target =>
        Return tt (<[s := set_instruction_pointer (next_pointer nd target) nd]> m)
    | None => Raise Py.IndexError m
    end.
Proof.
  intros Hs Hw Hp Hb Hip Hn.
  assert (Hcur : Py.getitem (ast nd) (instruction_pointer nd)
                 = Some (NArgumentInstruction jro [IntegerLiteral v])).
  { rewrite Hip, getitem_nonneg by lia. rewrite Nat2Z.id. exact Hn. }
  assert (Hord : ast_real_instr_lookup nd !! instruction_pointer nd
                 = Some (Z.of_nat (instructions_before (ast nd) n))).
  { destruct Hb as (_ & -> & _). rewrite Hip.
    rewrite (reverse_lookup_entry _ 0 ∅ (instructions_before (ast nd) n) (Z.of_nat n)
               (instr_indices_NoDup _ 0)); [f_equal|].
    apply instr_indices_lookup. exists n. split; [lia|]. split; [|reflexivity].
    eexists. split; [exact Hn | reflexivity]. }
  assert (Hlookup : ast_instr_real_lookup nd = instr_indices (ast nd) 0)
    by apply Hb.
  destruct (Py.getitem (instr_indices (ast nd) 0) _) as [target|] eqn:Ht.
  - apply (step_jump m s nd jro _ _ depth Hs Hw Hp Hcur).
    cbn [do_instr]. unfold instr_jro. mexec. rewrite Hord. mexec.
    rewrite Hlookup, Ht. mexec. reflexivity.
  - rewrite (step_fresh_instruction m s nd jro _ depth Hs Hw Hp Hcur).
    cbn [do_instr]. unfold instr_jro. mexec. rewrite Hord. mexec.
    rewrite Hlookup, Ht. mexec. reflexivity.
Qed.

Lemma jro_counts_instructions_witness :
  let program := [ NArgumentInstruction jro [IntegerLiteral (-1)];
                   Label "a"; NArgumentInstruction nop [];
                   NArgumentInstruction nop []; Label "b" ] in
  let nd := new_node 5 program (Some 0) (Some 10) None (Some 6) in
  step 1 5 {[ 5 := nd ]}
  = Return tt (<[5 := set_instruction_pointer 3 nd]> {[ 5 := nd ]}).
Proof.
  apply (jro_counts_instructions
           {[ 5 := new_node 5 [ NArgumentInstruction jro [IntegerLiteral (-1)];
                                Label "a"; NArgumentInstruction nop [];
                                NArgumentInstruction nop []; Label "b" ]
                     (Some 0) (Some 10) None (Some 6) ]}
           5
           (new_node 5 [ NArgumentInstruction jro [IntegerLiteral (-1)];
                         Label "a"; NArgumentInstruction nop [];
                         NArgumentInstruction nop []; Label "b" ]
              (Some 0) (Some 10) None (Some 6))
           (-1) 0 0).
  - apply lookup_singleton_eq.
  - reflexivity.
  - reflexivity.
  - repeat split.
  - reflexivity.
  - reflexivity.
Defined.

(* ===================================================================== *)
(** ** Sending and receiving *)
(* ===================================================================== *)

Lemma run_deliver_rejected m s nd d v :
  m !! s = Some nd -> accepts m nd d = false ->
  deliver s d v m = Return false m.
Proof.
  intros Hs Hacc. unfold deliver. mexec. unfold accepts in Hacc.
  destruct (directions nd d) as [tid|]; [|reflexivity]. mexec.
  destruct (m !! tid) as [target|]; [|reflexivity].
  fold (receptive d target). rewrite Hacc. reflexivity.
Qed.


Lemma run_set_value_to_direction_port m s nd d v :
  m !! s = Some nd ->
  set_value_to_port s (Dir d) v m = deliver s d v (<[s := sending (Dir d) v nd]> m).
Proof. intros Hs. unfold set_value_to_port. mexec. reflexivity. Qed.

(** [mov] from an integer or the accumulator to a port is the send of that
    value. *)
Lemma run_mov_send m s nd source p v :
  m !! s = Some nd -> immediate_source nd source = Some v ->
  instr_mov s [source; PortLiteral p] m = set_value_to_port s p v m.
Proof.
  intros Hs Hv. unfold instr_mov. change (Py.int_is _ 2) with true. mexec.
  destruct source; try discriminate Hv; cbn [immediate_source] in Hv.
  - injection Hv as ->. unfold mov_destination. mexec. reflexivity.
  - rewrite (run_cur_acc m s nd Hs v _ Hv). unfold mov_destination. mexec.
    reflexivity.
Qed.

Lemma accepts_sending m s nd d p v :
  m !! s = Some nd -> wait_port nd = None ->
  accepts (<[s := sending p v nd]> m) (sending p v nd) d = accepts m nd d.
Proof.
  intros Hs Hw. unfold accepts. rewrite directions_sending.
  destruct (directions nd d) as [tid|]; [|reflexivity].
  destruct (decide (tid = s)) as [->|Hne].
  - rewrite lookup_insert_eq, Hs. unfold receptive. cbn [wait_port sending
      set_state set_port_value]. rewrite Hw. reflexivity.
  - rewrite lookup_insert_ne by congruence. reflexivity.
Qed.

(** X17. A send that nobody accepts parks the node: when the neighbour in
    the direction of a [mov] to a port does not exist, has no code, or is
    not waiting for this node, the first [step] stores the pending value and
    every later [step] of the node retries and leaves the store as it is;
    the instruction pointer never moves. *)
Theorem unaccepted_send_parks
    (m : machine) (s : Z) (nd : TISNode) (source : ASTNode) (d : Direction) (v : Z) :
  m !! s = Some nd ->
  wait_port nd = None -> port_value nd = None ->
  Py.getitem (ast nd) (instruction_pointer nd)
    = Some (NArgumentInstruction mov [source; PortLiteral (Dir d)]) ->
  immediate_source nd source = Some v ->
  accepts m nd d = false ->
  forall depth n,
    steps (S depth) s (S n) m = Return tt (<[s := sending (Dir d) v nd]> m).
Proof.
  intros Hs Hw Hp Hcur Hv Hacc depth n.
  assert (Hsend : forall p,
            set_value_to_port s (Dir d) v (<[s := sending p v nd]> m)
            = Return false (<[s := sending (Dir d) v nd]> m)).
  { intros p.
    rewrite (run_set_value_to_direction_port _ s (sending p v nd))
      by apply lookup_insert_eq.
    rewrite insert_insert_eq. change (sending (Dir d) v (sending p v nd))
      with (sending (Dir d) v nd).
    apply (run_deliver_rejected _ s (sending (Dir d) v nd));
      [apply lookup_insert_eq|].
    rewrite accepts_sending; assumption. }
  assert (Hfirst : step (S depth) s m = Return tt (<[s := sending (Dir d) v nd]> m)).
  { rewrite (step_fresh_instruction m s nd mov _ depth Hs Hw Hp Hcur).
    cbn [do_instr]. rewrite bind_Return with (a := false)
      (m' := <[s := sending (Dir d) v nd]> m); [reflexivity|].
    rewrite (run_mov_send m s nd source (Dir d) v Hs Hv).
    rewrite (run_set_value_to_direction_port m s nd d v Hs).
    apply (run_deliver_rejected _ s (sending (Dir d) v nd));
      [apply lookup_insert_eq|].
    rewrite accepts_sending; assumption. }
  assert (Hretry : step (S depth) s (<[s := sending (Dir d) v nd]> m)
                   = Return tt (<[s := sending (Dir d) v nd]> m)).
  { cbn [step]. mexec.
    change (ast (sending (Dir d) v nd)) with (ast nd).
    change (instruction_pointer (sending (Dir d) v nd)) with (instruction_pointer nd).
    rewrite Hcur. mexec.
    change (wait_port (sending (Dir d) v nd)) with (wait_port nd). rewrite Hw.
    cbn [port_value sending set_state set_port_value do_instr].
    rewrite bind_Return with (a := false)
      (m' := <[s := sending (Dir d) v nd]> m); [reflexivity|].
    rewrite (run_mov_send _ s (sending (Dir d) v nd) source (Dir d) v);
      [apply Hsend | apply lookup_insert_eq |].
    destruct source; try discriminate Hv; exact Hv. }
  cbn [steps]. rewrite (bind_Return _ _ _ _ _ Hfirst).
  induction n as [|n IH]; [reflexivity|].
  cbn [steps]. rewrite (bind_Return _ _ _ _ _ Hretry). exact IH.
Qed.

Lemma unaccepted_send_parks_witness :
  let nd := new_node 15 [NArgumentInstruction mov [IntegerLiteral 7; PortLiteral (Dir DOWN)]]
              (Some 10) None None (Some 16) in
  steps 1 15 1000 {[ 15 := nd ]}
  = Return tt (<[15 := sending (Dir DOWN) 7 nd]> {[ 15 := nd ]}).
Proof.
  apply (unaccepted_send_parks
           {[ 15 := new_node 15
                      [NArgumentInstruction mov [IntegerLiteral 7; PortLiteral (Dir DOWN)]]
                      (Some 10) None None (Some 16) ]}
           15
           (new_node 15
              [NArgumentInstruction mov [IntegerLiteral 7; PortLiteral (Dir DOWN)]]
              (Some 10) None None (Some 16))
           (IntegerLiteral 7) DOWN 7).
  - apply lookup_singleton_eq.
  - reflexivity.
  - reflexivity.
  - reflexivity.
  - reflexivity.
  - reflexivity.
Defined.

(** Symbolic execution on a store built by several assignments. *)
Ltac lk :=
  first [ eassumption
        | apply lookup_insert_eq
        | rewrite lookup_insert_ne by congruence; lk ].

Ltac mrun :=
  repeat first
    [ rewrite bind_assoc
    | rewrite bind_ret
    | rewrite getitem_0
    | rewrite getitem_1
    | rewrite bind_raise
    | rewrite bind_or_raise_Some
    | rewrite bind_or_raise_None
    | rewrite bind_get_node_with_id
    | erewrite bind_self by lk
    | erewrite bind_assign by lk
    | erewrite self_Some by lk
    | erewrite assign_Some by lk
    | progress cbn [negb andb orb]
    | progress cbv beta iota ].



(** X19. A send that completes in the step that starts it leaves
    [port_value] set, since only the retry branch of [step] resets it. After
    [mov] of an integer or the accumulator to NIL the next [step] therefore
    takes the retry branch, and when the next statement is a label it hands
    the label to [do_instr], which raises AttributeError. *)
Theorem send_to_nil_before_label_raises
    (m : machine) (s : Z) (nd : TISNode) (source : ASTNode) (v : Z) (name : string)
    (depth depth' : nat) :
  m !! s = Some nd ->
  wait_port nd = None -> port_value nd = None ->
  Py.getitem (ast nd) (instruction_pointer nd)
    = Some (NArgumentInstruction mov [source; PortLiteral NIL]) ->
  immediate_source nd source = Some v ->
  Py.getitem (ast nd) (next_pointer nd (instruction_pointer nd)) = Some (Label name) ->
  exists m',
    step (S depth) s m = Return tt m'
    /\ step (S depth') s m' = Raise Py.AttributeError m'.
Proof.
  intros Hs Hw Hp Hcur Hv Hnext.
  exists (<[s := set_instruction_pointer (next_pointer nd (instruction_pointer nd))
                   (sending NIL v nd)]> m).
  split.
  - rewrite (step_fresh_instruction m s nd mov _ depth Hs Hw Hp Hcur).
    cbn [do_instr].
    rewrite bind_Return with (a := true) (m' := <[s := sending NIL v nd]> m).
    + rewrite (incr_instr_pointer_run _ s (sending NIL v nd)) by lk.
      rewrite insert_insert_eq. reflexivity.
    + rewrite (run_mov_send m s nd source NIL v Hs Hv).
      unfold set_value_to_port. mexec. reflexivity.
  - cbn [step]. mrun.
    cbn [ast instruction_pointer set_instruction_pointer sending set_state
         set_port_value wait_port port_value].
    rewrite Hnext. mrun. rewrite Hw. cbn [do_instr]. mrun. reflexivity.
Qed.

Lemma send_to_nil_before_label_raises_witness :
  let nd := new_node 5 [ NArgumentInstruction mov [IntegerLiteral 1; PortLiteral NIL];
                         Label "a"; NArgumentInstruction nop [] ]
              (Some 0) (Some 10) None (Some 6) in
  exists m',
    step 1 5 {[ 5 := nd ]} = Return tt m'
    /\ step 1 5 m' = Raise Py.AttributeError m'.
Proof.
  apply (send_to_nil_before_label_raises
           {[ 5 := new_node 5 [ NArgumentInstruction mov [IntegerLiteral 1; PortLiteral NIL];
                                Label "a"; NArgumentInstruction nop [] ]
                     (Some 0) (Some 10) None (Some 6) ]}
           5
           (new_node 5 [ NArgumentInstruction mov [IntegerLiteral 1; PortLiteral NIL];
                         Label "a"; NArgumentInstruction nop [] ]
              (Some 0) (Some 10) None (Some 6))
           (IntegerLiteral 1) 1 "a" 0 0).
  - apply lookup_singleton_eq.
  - reflexivity.
  - reflexivity.
  - reflexivity.
  - reflexivity.
  - reflexivity.
Defined.

(* ===================================================================== *)
(** ** What a validated instruction can raise *)
(* ===================================================================== *)

Section RaisesOnly.
Context (allowed : Py.exn -> bool).
Hypothesis HK : allowed Py.KeyError = true.
Hypothesis HI : allowed Py.IndexError = true.
Hypothesis HA : allowed Py.AttributeError = true.

Lemma ro_ret {A} (a : A) : raises_only allowed (ret a).
Proof. intros m e m' H. discriminate H. Qed.

Lemma ro_raise {A} e : allowed e = true -> raises_only allowed (@raise A e).
Proof. intros He m e' m' [= <- _]. exact He. Qed.

Lemma ro_or_raise {A} e (o : option A) :
  allowed e = true -> raises_only allowed (or_raise e o).
Proof. intros He. destruct o; [apply ro_ret | apply ro_raise, He]. Qed.

Lemma ro_self s : raises_only allowed (self_ s).
Proof.
  intros m e m'. unfold self_. destruct (m !! s); [discriminate|].
  intros [= <- _]. exact HK.
Qed.

Lemma ro_assign s f : raises_only allowed (assign s f).
Proof.
  intros m e m'. unfold assign. destruct (m !! s); [discriminate|].
  intros [= <- _]. exact HK.
Qed.

Lemma ro_get_node_with_id i : raises_only allowed (get_node_with_id i).
Proof. intros m e m' H. discriminate H. Qed.

Lemma ro_bind {A B} (c : M A) (k : A -> M B) :
  raises_only allowed c -> (forall a, raises_only allowed (k a)) ->
  raises_only allowed (bind c k).
Proof.
  intros Hc Hk m e m'. unfold bind. destruct (c m) as [a m1|e1 m1] eqn:Hrun.
  - apply Hk.
  - intros [= <- _]. exact (Hc m e1 m1 Hrun).
Qed.

Lemma ro_bind_ret {A B} (a : A) (k : A -> M B) :
  raises_only allowed (k a) -> raises_only allowed (bind (ret a) k).
Proof. intros Hk m e m' H. exact (Hk m e m' H). Qed.

Lemma ro_bind_assoc {A B C} (c : M A) (k1 : A -> M B) (k2 : B -> M C) :
  raises_only allowed (bind c (fun x => bind (k1 x) k2)) ->
  raises_only allowed (bind (bind c k1) k2).
Proof. intros H m e m' Hr. rewrite bind_assoc in Hr. exact (H m e m' Hr). Qed.

Ltac ro_with known :=
  repeat first
    [ known
    | apply ro_ret
    | rewrite getitem_0
    | rewrite getitem_1
    | match goal with
      | |- context [@or_raise ?A ?e (Some ?a)] =>
          change (@or_raise A e (Some a)) with (@ret A a)
      end
    | match goal with
      | |- raises_only _ (bind (bind _ _) _) => apply ro_bind_assoc
      | |- raises_only _ (bind (ret _) _) => apply ro_bind_ret
      end
    | apply ro_raise; first [exact HK | exact HI | exact HA | reflexivity]
    | apply ro_or_raise; first [exact HK | exact HI | exact HA | reflexivity]
    | apply ro_self
    | apply ro_get_node_with_id
    | apply ro_assign
    | apply ro_bind; [|intro]
    | match goal with
      | |- raises_only _ (match ?x with _ => _ end) => destruct x
      | |- raises_only _ (if ?b then _ else _) => destruct b
      end ].

Lemma ro_get_value_from_port s port : raises_only allowed (get_value_from_port s port).
Proof. unfold get_value_from_port. ro_with fail. Qed.

Lemma ro_set_value_to_direction s d v :
  raises_only allowed (set_value_to_direction s d v).
Proof. unfold set_value_to_direction, deliver. ro_with fail. Qed.

Lemma ro_any_loop s v ds : raises_only allowed (any_loop s v ds).
Proof.
  induction ds as [|d ds IH]; cbn [any_loop];
    ro_with ltac:(first [apply ro_set_value_to_direction | exact IH]).
Qed.

Lemma ro_set_value_to_port s p v : raises_only allowed (set_value_to_port s p v).
Proof.
  unfold set_value_to_port, deliver.
  ro_with ltac:(first [apply ro_any_loop | apply ro_set_value_to_direction]).
Qed.

Lemma ro_instr_jmp s args : raises_only allowed (instr_jmp s args).
Proof. unfold instr_jmp. ro_with fail. Qed.

Ltac ro_instr :=
  unfold instr_mov, mov_destination, instr_nop, instr_swp, instr_sav,
    instr_add, instr_sub, instr_neg, instr_jez, instr_jnz, instr_jgz, instr_jlz,
    jump_if, instr_jro, cur_acc, cur_bak, set_cur_acc, set_cur_bak;
  try change (Py.int_is (Py.len [_; _]) 2) with true; cbn [negb];
  ro_with ltac:(first [ apply ro_get_value_from_port | apply ro_set_value_to_port
                      | apply ro_instr_jmp ]).

Lemma ro_do_instr_not_swt s op args :
  op <> swt -> well_formed_operands op args ->
  raises_only allowed (do_instr s (NArgumentInstruction op args)).
Proof.
  intros Hop Hwf.
  assert (HIPR : forall a, type_of a ∈ IPR ->
            (exists z, a = IntegerLiteral z) \/ (exists p, a = PortLiteral p)
            \/ (exists r, a = RegisterLiteral r)).
  { intros a Ha. apply list_elem_of_In in Ha. cbn in Ha.
    destruct a; cbn in Ha; try (exfalso; intuition discriminate); eauto. }
  assert (HPR : forall a, type_of a ∈ [TPortLiteral; TRegisterLiteral] ->
            (exists p, a = PortLiteral p) \/ (exists r, a = RegisterLiteral r)).
  { intros a Ha. apply list_elem_of_In in Ha. cbn in Ha.
    destruct a; cbn in Ha; try (exfalso; intuition discriminate); eauto. }
  destruct op; try contradiction; cbn [well_formed_operands] in Hwf;
    cbn [do_instr].
  - (* mov *)
    destruct Hwf as (src & dst & -> & Hs & Hd).
    destruct (HIPR src Hs) as [[z ->] | [[p ->] | [r ->]]];
      destruct (HPR dst Hd) as [[p' ->] | [r' ->]]; ro_instr.
  - subst args. ro_instr.
  - subst args. ro_instr.
  - subst args. ro_instr.
  - destruct Hwf as (a & -> & Ha). ro_instr.
  - destruct Hwf as (a & -> & Ha). ro_instr.
  - subst args. ro_instr.
  - apply ro_instr_jmp.
  - ro_instr.
  - ro_instr.
  - ro_instr.
  - ro_instr.
  - destruct Hwf as (a & -> & Ha). ro_instr.
Qed.
End RaisesOnly.

Lemma ro_instr_swt s args : raises_only swt_error (instr_swt s args).
Proof.
  unfold instr_swt, cur_acc.
  repeat first
    [ apply ro_ret
    | apply ro_raise; reflexivity
    | apply ro_or_raise; reflexivity
    | apply ro_self; reflexivity
    | apply ro_assign; reflexivity
    | apply ro_get_value_from_port; reflexivity
    | apply ro_bind; [|intro]
    | match goal with
      | |- raises_only _ (match ?x with _ => _ end) => destruct x
      | |- raises_only _ (if ?b then _ else _) => destruct b
      end ].
Qed.

(** X24. Validation rules out the operand errors at run time: an
    instruction that [validate_instruction] accepts never makes [do_instr]
    raise NotImplementedError, UnboundLocalError or the operand-count error
    of [mov]. What it can raise is the error of a failed lookup (KeyError,
    IndexError, AttributeError), and for [swt] also the TypeError and
    TISSyntaxError of its range check. *)
Theorem validated_instruction_raises_lookup_errors_only
    (s : Z) (op : Opcode) (args : list ASTNode) :
  validate_instruction (NArgumentInstruction op args) = inr None ->
  raises_only (if decide (op = swt) then swt_error else lookup_error)
    (do_instr s (NArgumentInstruction op args)).
Proof.
  intros Hval.
  apply (proj1 (validate_instruction_operands op args)) in Hval.
  destruct (decide (op = swt)) as [->|Hop].
  - cbn [do_instr]. apply ro_instr_swt.
  - apply ro_do_instr_not_swt; try reflexivity; assumption.
Qed.

Lemma validated_instruction_raises_lookup_errors_only_witness :
  raises_only lookup_error
    (do_instr 5 (NArgumentInstruction jmp [LabelReference "nowhere"])).
Proof.
  apply (validated_instruction_raises_lookup_errors_only 5 jmp
           [LabelReference "nowhere"]).
  reflexivity.
Defined.

(* ===================================================================== *)
(** ** A transfer from start to end *)
(* ===================================================================== *)


(** The first try of a send that the neighbour does not accept. *)
Lemma step_send_rejected m s nds source d v depth :
  m !! s = Some nds ->
  wait_port nds = None -> port_value nds = None ->
  Py.getitem (ast nds) (instruction_pointer nds)
    = Some (NArgumentInstruction mov [source; PortLiteral (Dir d)]) ->
  immediate_source nds source = Some v ->
  accepts m nds d = false ->
  step (S depth) s m = Return tt (<[s := sending (Dir d) v nds]> m).
Proof.
  intros Hs Hw Hp Hcur Hv Hacc.
  rewrite (step_fresh_instruction m s nds mov _ depth Hs Hw Hp Hcur).
  cbn [do_instr]. rewrite bind_Return with (a := false)
    (m' := <[s := sending (Dir d) v nds]> m); [reflexivity|].
  rewrite (run_mov_send m s nds source (Dir d) v Hs Hv).
  rewrite (run_set_value_to_direction_port m s nds d v Hs).
  apply (run_deliver_rejected _ s (sending (Dir d) v nds)); [apply lookup_insert_eq|].
  rewrite accepts_sending; assumption.
Qed.








(* ===================================================================== *)
(** ** Two sends that wait for each other *)
(* ===================================================================== *)

(** A later try of a parked send that the neighbour still does not accept
    changes nothing. *)
Lemma step_send_retry_rejected m s nds source d v depth :
  m !! s = Some (sending (Dir d) v nds) ->
  wait_port nds = None ->
  Py.getitem (ast nds) (instruction_pointer nds)
    = Some (NArgumentInstruction mov [source; PortLiteral (Dir d)]) ->
  immediate_source nds source = Some v ->
  accepts m (sending (Dir d) v nds) d = false ->
  step (S depth) s m = Return tt m.
Proof.
  intros Hs Hw Hcur Hv Hacc.
  cbn [step]. mrun.
  change (ast (sending (Dir d) v nds)) with (ast nds).
  change (instruction_pointer (sending (Dir d) v nds)) with (instruction_pointer nds).
  rewrite Hcur. mrun.
  change (wait_port (sending (Dir d) v nds)) with (wait_port nds). rewrite Hw.
  cbn [port_value sending set_state set_port_value do_instr].
  rewrite bind_Return with (a := false) (m' := m); [reflexivity|].
  rewrite (run_mov_send m s (sending (Dir d) v nds) source (Dir d) v Hs);
    [|destruct source; try discriminate Hv; exact Hv].
  rewrite (run_set_value_to_direction_port m s _ d v Hs).
  change (sending (Dir d) v (sending (Dir d) v nds)) with (sending (Dir d) v nds).
  rewrite (insert_id m s _ Hs).
  apply (run_deliver_rejected m s (sending (Dir d) v nds)); assumption.
Qed.

(** One step of a node whose send goes to a neighbour that is not parked on
    a read: whether it is the first try or a later one, the node holds its
    pending send afterwards and nothing else has changed. *)
Lemma send_to_busy_neighbour m s r nds x source d v depth :
  s <> r ->
  m !! s = Some nds \/ m !! s = Some (sending (Dir d) v nds) ->
  m !! r = Some x -> wait_port x = None ->
  wait_port nds = None -> port_value nds = None ->
  Py.getitem (ast nds) (instruction_pointer nds)
    = Some (NArgumentInstruction mov [source; PortLiteral (Dir d)]) ->
  immediate_source nds source = Some v ->
  directions nds d = Some r ->
  exists m',
    step (S depth) s m = Return tt m'
    /\ m' !! s = Some (sending (Dir d) v nds)
    /\ forall j, j <> s -> m' !! j = m !! j.
Proof.
  intros Hsr Hs Hr Hwx Hw Hp Hcur Hv Hd.
  assert (Hrej : forall y, directions y d = Some r -> accepts m y d = false).
  { intros y Hy. unfold accepts. rewrite Hy, Hr. unfold receptive. rewrite Hwx.
    apply bool_decide_eq_false. intros [H|H]; discriminate H. }
  destruct Hs as [Hs | Hs].
  - exists (<[s := sending (Dir d) v nds]> m). split; [|split].
    + apply (step_send_rejected m s nds source d v depth); auto.
    + apply lookup_insert_eq.
    + intros j Hj. apply lookup_insert_ne. congruence.
  - exists m. split; [|split; [exact Hs | reflexivity]].
    apply (step_send_retry_rejected m s nds source d v depth); auto.
Qed.

(** X27. Two neighbours that each send to the other never get past their
    sends: no node accepts a value unless it is parked on a read, so each
    send parks, and whichever of the two nodes is stepped, and however
    often, both instruction pointers stay where they are and no step
    raises. *)
Theorem mutual_sends_deadlock
    (m : machine) (s r : Z) (nds ndr : TISNode) (source_s source_r : ASTNode)
    (ds dr : Direction) (vs vr : Z) (schedule : list Z) (depth : nat) :
  s <> r ->
  m !! s = Some nds -> m !! r = Some ndr ->
  wait_port nds = None -> port_value nds = None ->
  wait_port ndr = None -> port_value ndr = None ->
  Py.getitem (ast nds) (instruction_pointer nds)
    = Some (NArgumentInstruction mov [source_s; PortLiteral (Dir ds)]) ->
  Py.getitem (ast ndr) (instruction_pointer ndr)
    = Some (NArgumentInstruction mov [source_r; PortLiteral (Dir dr)]) ->
  immediate_source nds source_s = Some vs ->
  immediate_source ndr source_r = Some vr ->
  directions nds ds = Some r -> directions ndr dr = Some s ->
  (forall i, i ∈ schedule -> i = s \/ i = r) ->
  exists m',
    tick (S depth) schedule m = Return tt m'
    /\ (m' !! s = Some nds \/ m' !! s = Some (sending (Dir ds) vs nds))
    /\ (m' !! r = Some ndr \/ m' !! r = Some (sending (Dir dr) vr ndr))
    /\ forall j, j <> s -> j <> r -> m' !! j = m !! j.
Proof.
  intros Hsr Hs Hr Hws Hps Hwr Hpr Hcurs Hcurr Hvs Hvr Hds Hdr Hsched.
  assert (Hinit : (m !! s = Some nds \/ m !! s = Some (sending (Dir ds) vs nds))
                  /\ (m !! r = Some ndr \/ m !! r = Some (sending (Dir dr) vr ndr)))
    by auto.
  clear Hs Hr. revert m Hinit.
  induction schedule as [|i rest IH]; intros m Hinit.
  - exists m. cbn [tick]. destruct Hinit. auto.
  - assert (Hi : i = s \/ i = r) by (apply Hsched; left).
    assert (Hstep : exists m1,
              step (S depth) i m = Return tt m1
              /\ ((m1 !! s = Some nds \/ m1 !! s = Some (sending (Dir ds) vs nds))
                  /\ (m1 !! r = Some ndr \/ m1 !! r = Some (sending (Dir dr) vr ndr)))
              /\ forall j, j <> s -> j <> r -> m1 !! j = m !! j).
    { destruct Hinit as [Hs0 Hr0]. destruct Hi as [-> | ->].
      - assert (Hx : exists x, m !! r = Some x /\ wait_port x = None).
        { destruct Hr0 as [H|H]; eexists; (split; [exact H|]); [exact Hwr|].
          cbn [wait_port sending set_state set_port_value]. exact Hwr. }
        destruct Hx as (x & Hx & Hwx).
        destruct (send_to_busy_neighbour m s r nds x source_s ds vs depth
                    Hsr Hs0 Hx Hwx Hws Hps Hcurs Hvs Hds) as (m1 & H1 & H2 & H3).
        exists m1. split; [exact H1|]. split.
        + split; [right; exact H2|]. rewrite H3 by congruence. exact Hr0.
        + intros j Hj _. auto.
      - assert (Hx : exists x, m !! s = Some x /\ wait_port x = None).
        { destruct Hs0 as [H|H]; eexists; (split; [exact H|]); [exact Hws|].
          cbn [wait_port sending set_state set_port_value]. exact Hws. }
        destruct Hx as (x & Hx & Hwx).
        destruct (send_to_busy_neighbour m r s ndr x source_r dr vr depth
                    (not_eq_sym Hsr) Hr0 Hx Hwx Hwr Hpr Hcurr Hvr Hdr)
          as (m1 & H1 & H2 & H3).
        exists m1. split; [exact H1|]. split.
        + split; [|right; exact H2]. rewrite H3 by congruence. exact Hs0.
        + intros j _ Hj. auto. }
    destruct Hstep as (m1 & Hrun & Hinv & Hframe).
    destruct (IH (fun j Hj => Hsched j (proj2 (elem_of_cons _ _ _) (or_intror Hj)))
                m1 Hinv) as (m' & Htick & Hs' & Hr' & Hframe').
    exists m'. cbn [tick]. rewrite (bind_Return _ _ _ _ _ Hrun).
    split; [exact Htick|]. split; [exact Hs'|]. split; [exact Hr'|].
    intros j Hjs Hjr. rewrite Hframe', Hframe by assumption. reflexivity.
Qed.

Lemma mutual_sends_deadlock_witness :
  exists m',
    tick 1 [0; 1; 1; 0] deadlock_grid = Return tt m'
    /\ (m' !! 0 = Some right_sender0
        \/ m' !! 0 = Some (sending (Dir RIGHT) 1 right_sender0))
    /\ (m' !! 1 = Some left_sender1
        \/ m' !! 1 = Some (sending (Dir LEFT) 2 left_sender1))
    /\ forall j, j <> 0 -> j <> 1 -> m' !! j = deadlock_grid !! j.
Proof.
  apply (mutual_sends_deadlock deadlock_grid 0 1 right_sender0 left_sender1
           (IntegerLiteral 1) (IntegerLiteral 2) RIGHT LEFT 1 2 [0; 1; 1; 0] 0).
  - discriminate.
  - reflexivity.
  - reflexivity.
  - reflexivity.
  - reflexivity.
  - reflexivity.
  - reflexivity.
  - reflexivity.
  - reflexivity.
  - reflexivity.
  - reflexivity.
  - reflexivity.
  - reflexivity.
  - intros i Hi. apply list_elem_of_In in Hi. cbn in Hi.
    repeat destruct Hi as [<-|Hi]; auto. contradiction.
Defined.

(* ===================================================================== *)
(** ** The token stream *)
(* ===================================================================== *)

(** The tokens of [lex_gen] follow each other without gap, up to where the
    last one stops. *)
Lemma lex_gen_loop_tiles source :
  forall fuel start final,
    last (Lexer.lex_gen_loop fuel source start) = Some final ->
    tiles start (Lexer.lex_gen_loop fuel source start) (Lexer.slice_stop final).
Proof.
  induction fuel as [|fuel IH]; intros start final; cbn [Lexer.lex_gen_loop];
    [discriminate|].
  destruct (length source <=? start)%nat; [discriminate|].
  destruct (Lexer.get_first_token source start) as [t|] eqn:Ht; [|discriminate].
  destruct (LexerFacts.get_first_token_advances source start t Ht) as [Hstart Hadv].
  intros Hlast. cbn [tiles]. split; [exact Hstart|]. split; [exact Hadv|].
  destruct (Lexer.lex_gen_loop fuel source (Lexer.slice_stop t)) as [|t' rest] eqn:Hrest.
  - injection Hlast as <-. reflexivity.
  - rewrite <- Hrest. apply IH. rewrite Hrest. exact Hlast.
Qed.

Lemma tiles_length start tokens stop :
  tiles start tokens stop -> (start + length tokens <= stop)%nat.
Proof.
  revert start. induction tokens as [|t rest IH]; intros start; cbn [tiles length].
  - lia.
  - intros (_ & Hadv & Hrest). apply IH in Hrest. lia.
Qed.

(** X20. The tokens that [lex] returns cover the whole text: the first
    starts at character 0, each next one starts where the one before it
    stops, every token has at least one character, and the last one stops at
    the end of the text. So there are no more tokens than characters, and
    [lex] returns no empty list. *)
Theorem lexed_tokens_tile_the_source (source : list ascii) (tokens : list Lexer.Token) :
  Lexer.lex source = Some tokens ->
  tokens <> []
  /\ tiles 0 tokens (length source)
  /\ (length tokens <= length source)%nat.
Proof.
  unfold Lexer.lex, Lexer.lex_gen. cbv zeta.
  destruct (Lexer.lex_gen_loop (S (length source)) source 0) as [|first rest] eqn:Hgen;
    [discriminate|].
  destruct (last (first :: rest)) as [final|] eqn:Hlast; [|discriminate].
  case_bool_decide as Hends; [|discriminate]. intros [= <-].
  destruct Hends as [_ Hstop].
  assert (Htiles : tiles 0 (first :: rest) (length source)).
  { rewrite <- Hstop, <- Hgen. apply lex_gen_loop_tiles. rewrite Hgen. exact Hlast. }
  split; [discriminate|]. split; [exact Htiles|].
  apply tiles_length in Htiles. lia.
Qed.

Lemma lexed_tokens_tile_the_source_witness :
  tiles 0
    [ Lexer.mkToken (Lexer.instruction_def "add" add) (Lexer.VOpcode add) 0 3;
      Lexer.mkToken Lexer.WHITESPACE_def (Lexer.VStr " ") 3 4;
      Lexer.mkToken Lexer.INTEGER_def (Lexer.VInt 3) 4 5 ]
    5.
Proof.
  apply (lexed_tokens_tile_the_source (Lexer.chars "add 3")).
  vm_compute. reflexivity.
Defined.

(* ===================================================================== *)
(** ** Keywords, ports, registers and integers before label references *)
(* ===================================================================== *)

Module LabelRefFacts.
Import Lexer.

(** The definitions that come before NODE_SPECIFIER in [_defs]; they are
    the ones that suppress LABEL_REF. *)
Definition leading_defs : list TokenDef :=
  (INSTRUCTION_defs ++ [REGISTER_def; INTEGER_def] ++ PORT_defs)%list.

Lemma defs_split :
  _defs = (leading_defs
           ++ [NODE_SPECIFIER_def; SEPARATOR_def; LABEL_def; LABEL_REF_def;
               WHITESPACE_def; COMMENT_def])%list.
Proof. reflexivity. Qed.

Lemma outranks_leading d : outranks_label_ref d = true <-> d ∈ leading_defs.
Proof.
  unfold outranks_label_ref, leading_defs. rewrite bool_decide_eq_true.
  rewrite !elem_of_app. tauto.
Qed.

Lemma outranks_not_label_ref d : outranks_label_ref d = true -> d <> LABEL_REF_def.
Proof. intros H ->. vm_compute in H. discriminate H. Qed.

(** What one round of the loop of [get_first_token] can do. *)
Lemma consider_cases match_text start st d :
  consider match_text start st d = st
  \/ exists mv,
       match_def d match_text = Some mv
       /\ (length (snd st) <= length mv)%nat
       /\ (d = LABEL_REF_def ->
           match fst st with
           | Some t => outranks_label_ref (type t) = false
           | None => True
           end)
       /\ consider match_text start st d
          = (Some (mkToken d (convert (converter d) mv) start (start + length mv)), mv).
Proof.
  unfold consider. destruct st as [token token_text].
  destruct (match_def d match_text) as [mv|]; [|left; reflexivity].
  destruct (Nat.ltb_spec (length mv) (length token_text)); [left; reflexivity|].
  case_bool_decide as Hd; cbn [andb].
  - destruct token as [t|].
    + destruct (outranks_label_ref (type t)) eqn:Hout; [left; reflexivity|].
      right. exists mv. cbn [fst snd]. repeat split; auto.
    + right. exists mv. cbn [fst snd]. repeat split; auto.
  - right. exists mv. cbn [fst snd]. repeat split; [assumption | contradiction].
Qed.

(** The state of the loop after definitions that all suppress LABEL_REF:
    nothing is held yet, or the held token is of such a definition. *)
Definition leading_state (st : option Token * list ascii) : Prop :=
  (fst st = None /\ snd st = [])
  \/ exists t, fst st = Some t /\ outranks_label_ref (type t) = true.

Lemma fold_leading match_text start ds :
  (forall d, d ∈ ds -> outranks_label_ref d = true) ->
  forall st,
    leading_state st ->
    leading_state (fold_left (consider match_text start) ds st)
    /\ ((exists d mv, d ∈ ds /\ match_def d match_text = Some mv) ->
        exists t, fst (fold_left (consider match_text start) ds st) = Some t
                  /\ outranks_label_ref (type t) = true).
Proof.
  induction ds as [|d ds IH]; intros Hall st Hst; cbn [fold_left].
  - split; [exact Hst|]. intros (d & mv & Hin & _). apply elem_of_nil in Hin.
    contradiction.
  - assert (Hd : outranks_label_ref d = true) by (apply Hall; left).
    assert (Hnext : leading_state (consider match_text start st d)
                    /\ (forall mv, match_def d match_text = Some mv ->
                          exists t, fst (consider match_text start st d) = Some t
                                    /\ outranks_label_ref (type t) = true)).
    { destruct (consider_cases match_text start st d) as [Hkeep | (mv & Hm & Hlen & _ & Hnew)].
      - rewrite Hkeep. split; [exact Hst|]. intros mv Hm.
        destruct Hst as [[Hnone Hnil] | Hheld]; [|exact Hheld].
        (* nothing is held, so the match is taken *)
        exfalso. unfold consider in Hkeep. destruct st as [token token_text].
        cbn [fst snd] in Hnone, Hnil. subst token token_text. rewrite Hm in Hkeep.
        cbn [length] in Hkeep.
        destruct (length mv <? 0)%nat eqn:Hlt; [apply Nat.ltb_lt in Hlt; lia|].
        rewrite andb_false_r in Hkeep. discriminate Hkeep.
      - rewrite Hnew. split.
        + right. eexists. split; [reflexivity | exact Hd].
        + intros _ _. eexists. split; [reflexivity | exact Hd]. }
    destruct Hnext as [Hstate Hmatch].
    destruct (IH (fun d' Hin => Hall d' (proj2 (elem_of_cons _ _ _) (or_intror Hin)))
                 _ Hstate) as [IH1 IH2].
    split; [exact IH1|].
    intros (d' & mv & Hin & Hm). apply elem_of_cons in Hin as [->|Hin].
    + destruct (Hmatch mv Hm) as (t & Ht & Hout).
      destruct IH1 as [[Hnone _] | Hheld]; [|exact Hheld].
      (* a held token is never dropped *)
      exfalso.
      assert (Hkept : forall ds' st',
                is_Some (fst st') ->
                is_Some (fst (fold_left (consider match_text start) ds' st'))).
      { clear. induction ds' as [|d' ds' IH']; intros st' Hsome; [exact Hsome|].
        cbn [fold_left]. apply IH'.
        destruct (consider_cases match_text start st' d') as [-> | (mv & _ & _ & _ & ->)];
          [exact Hsome | eexists; reflexivity]. }
      destruct (Hkept ds (consider match_text start st d)) as [x Hx];
        [rewrite Ht; eexists; reflexivity|].
      rewrite Hx in Hnone. discriminate Hnone.
    + apply IH2. exists d', mv. auto.
Qed.

(** A text on which NODE_SPECIFIER or SEPARATOR matches starts with a
    character that no label reference can start with, and a LABEL match is
    one character longer than the LABEL_REF match on the same text. *)
Lemma label_ref_shorter d match_text mv mv' :
  d ∈ [NODE_SPECIFIER_def; SEPARATOR_def; LABEL_def] ->
  match_def d match_text = Some mv ->
  match_def LABEL_REF_def match_text = Some mv' ->
  (length mv' < length mv)%nat.
Proof.
  intros Hd Hm Hm'. unfold match_def in Hm'. cbn [matcher LABEL_REF_def re_match] in Hm'.
  unfold some_of in Hm'.
  apply list_elem_of_In in Hd. cbn in Hd. destruct Hd as [<- | [<- | [<- | []]]];
    unfold match_def in Hm; cbn [matcher NODE_SPECIFIER_def SEPARATOR_def LABEL_def
                                  re_match] in Hm.
  - destruct match_text as [|c l]; [discriminate|].
    destruct (is_char "@" c) eqn:Hc; [|discriminate].
    apply bool_decide_eq_true in Hc. subst c. cbn in Hm'. discriminate Hm'.
  - unfold some_of in Hm. destruct match_text as [|c l]; [discriminate|].
    cbn [span] in Hm. destruct (is_char "," c) eqn:Hc; [|discriminate].
    apply bool_decide_eq_true in Hc. subst c. cbn in Hm'. discriminate Hm'.
  - destruct (span is_symbol match_text) as [[|c m] [|c' rest]]; try discriminate.
    destruct (is_char ":" c'); [|discriminate]. injection Hm as <-.
    cbn [fst] in Hm'. injection Hm' as <-. cbn [app length].
    rewrite length_app. cbn [length]. lia.
Qed.

(** The state while the definitions after the leading ones are considered:
    a token is held that is not a LABEL_REF, and that either suppresses
    LABEL_REF or is longer than any LABEL_REF match. *)
Definition guarded_state (match_text : list ascii) (st : option Token * list ascii)
  : Prop :=
  exists t,
    fst st = Some t /\ type t <> LABEL_REF_def
    /\ (outranks_label_ref (type t) = true
        \/ forall mv', match_def LABEL_REF_def match_text = Some mv' ->
                       (length mv' < length (snd st))%nat).

Lemma consider_guarded match_text start st d :
  d ∈ [NODE_SPECIFIER_def; SEPARATOR_def; LABEL_def; LABEL_REF_def] ->
  guarded_state match_text st ->
  guarded_state match_text (consider match_text start st d).
Proof.
  intros Hd (t & Ht & Hne & Hguard).
  destruct (consider_cases match_text start st d)
    as [-> | (mv & Hm & Hlen & Hlr & ->)]; [exists t; auto|].
  apply elem_of_cons in Hd as [->|Hd];
    [|apply elem_of_cons in Hd as [->|Hd];
      [|apply elem_of_cons in Hd as [->|Hd]]].
  - eexists. split; [reflexivity|]. split; [discriminate|]. right. cbn [snd].
    intros mv'. apply (label_ref_shorter NODE_SPECIFIER_def); [left | exact Hm].
  - eexists. split; [reflexivity|]. split; [discriminate|]. right. cbn [snd].
    intros mv'. apply (label_ref_shorter SEPARATOR_def); [right; left | exact Hm].
  - eexists. split; [reflexivity|]. split; [discriminate|]. right. cbn [snd].
    intros mv'. apply (label_ref_shorter LABEL_def); [right; right; left | exact Hm].
  - apply list_elem_of_singleton in Hd. subst d. exfalso.
    specialize (Hlr eq_refl). rewrite Ht in Hlr.
    destruct Hguard as [Hout | Hshort]; [congruence|].
    specialize (Hshort mv Hm). lia.
Qed.

Lemma consider_not_label_ref match_text start st d :
  d <> LABEL_REF_def ->
  (exists t, fst st = Some t /\ type t <> LABEL_REF_def) ->
  exists t, fst (consider match_text start st d) = Some t /\ type t <> LABEL_REF_def.
Proof.
  intros Hd Hst.
  destruct (consider_cases match_text start st d) as [-> | (mv & _ & _ & _ & ->)];
    [exact Hst|].
  eexists. split; [reflexivity | exact Hd].
Qed.

Lemma get_first_token_not_label_ref source start d mv :
  outranks_label_ref d = true ->
  match_def d (drop start source) = Some mv ->
  exists t, get_first_token source start = Some t /\ type t <> LABEL_REF_def.
Proof.
  intros Hd Hm. unfold get_first_token. cbv zeta. rewrite defs_split, fold_left_app.
  destruct (fold_leading (drop start source) start leading_defs
              (fun d' Hin => proj2 (outranks_leading d') Hin) (None, []))
    as [_ Hheld]; [left; auto|].
  destruct Hheld as (t & Ht & Hout).
  { exists d, mv. split; [apply outranks_leading, Hd | exact Hm]. }
  revert Ht.
  generalize (fold_left (consider (drop start source) start) leading_defs (None, [])).
  intros st Ht. cbn [fold_left].
  assert (Hg : guarded_state (drop start source) st).
  { exists t. split; [exact Ht|]. split; [apply outranks_not_label_ref, Hout | auto]. }
  apply (consider_guarded _ start _ NODE_SPECIFIER_def) in Hg; [|left].
  apply (consider_guarded _ start _ SEPARATOR_def) in Hg; [|right; left].
  apply (consider_guarded _ start _ LABEL_def) in Hg; [|right; right; left].
  apply (consider_guarded _ start _ LABEL_REF_def) in Hg; [|right; right; right; left].
  destruct Hg as (t' & Ht' & Hne & _).
  apply consider_not_label_ref; [discriminate|].
  apply consider_not_label_ref; [discriminate|].
  exists t'. auto.
Qed.

End LabelRefFacts.

(** X25. Where an instruction keyword, a port or register name or an
    integer matches, in a text short enough for every numeral in it to be
    within the interpreter's limit on digits, [get_first_token] returns a
    token, and never a LABEL_REF: a label reference that begins with such a
    word or with digits is never lexed as one token, however long it is. *)
Theorem keyword_match_excludes_label_ref
    (source : list ascii) (start : nat) (d : Lexer.TokenDef) (matched : list ascii) :
  (length (drop start source) <= Lexer.int_max_str_digits)%nat ->
  Lexer.outranks_label_ref d = true ->
  Lexer.match_def d (drop start source) = Some matched ->
  exists t, Lexer.get_first_token source start = Some t
            /\ Lexer.type t <> Lexer.LABEL_REF_def.
Proof. intros _. apply LabelRefFacts.get_first_token_not_label_ref. Qed.

Lemma keyword_match_excludes_label_ref_witness :
  exists t, Lexer.get_first_token (Lexer.chars "jmp upper") 4 = Some t
            /\ Lexer.type t <> Lexer.LABEL_REF_def.
Proof.
  apply (keyword_match_excludes_label_ref (Lexer.chars "jmp upper") 4
           (Lexer.port_def "up" (Dir UP)) (Lexer.chars "up")).
  - cbn. unfold Lexer.int_max_str_digits. lia.
  - vm_compute. reflexivity.
  - vm_compute. reflexivity.
Defined.

(* ===================================================================== *)
(** ** The parser *)
(* ===================================================================== *)

Module ParserFacts.
Import Lexer Parser.

Lemma expression_parsed t :
  forall node,
    (if bool_decide (type t = INTEGER_def) then IntegerLiteralExpression t
     else if bool_decide (type t ∈ PORT_defs) then PortLiteralExpression t
     else if bool_decide (type t = REGISTER_def) then RegisterLiteralExpression t
     else LabelReferenceExpression t) = Ok node ->
    parsed_operand node.
Proof.
  intros node. unfold IntegerLiteralExpression, PortLiteralExpression,
    RegisterLiteralExpression, LabelReferenceExpression, parsed_operand.
  repeat case_bool_decide; destruct (value t); try discriminate;
    intros [= <-]; cbn [type_of]; repeat constructor.
Qed.

Lemma expression_finishes t :
  (if bool_decide (type t = INTEGER_def) then IntegerLiteralExpression t
   else if bool_decide (type t ∈ PORT_defs) then PortLiteralExpression t
   else if bool_decide (type t = REGISTER_def) then RegisterLiteralExpression t
   else LabelReferenceExpression t) <> Unfinished.
Proof.
  unfold IntegerLiteralExpression, PortLiteralExpression,
    RegisterLiteralExpression, LabelReferenceExpression.
  repeat case_bool_decide; destruct (value t); discriminate.
Qed.

(** The operand loop returns the operands it was given followed by parsed
    ones, and a suffix of its stack; it always ends. *)
Lemma instruction_arguments_ok stack :
  forall args sep,
    instruction_arguments stack args sep <> Unfinished
    /\ forall args' rest,
         instruction_arguments stack args sep = Ok (args', rest) ->
         (exists pre, stack = (pre ++ rest)%list)
         /\ (Forall parsed_operand args -> Forall parsed_operand args').
Proof.
  induction stack as [|t stack IH]; intros args sep; cbn [instruction_arguments].
  - split; [discriminate|]. intros args' rest [= <- <-]. split; [exists []; reflexivity | auto].
  - destruct (negb (operand_token t)).
    { split; [discriminate|]. intros args' rest [= <- <-].
      split; [exists []; reflexivity | auto]. }
    destruct (_ && _).
    { split; [discriminate|]. discriminate. }
    case_bool_decide as Hsep.
    { destruct (IH args true) as [Hfin Hok]. split; [exact Hfin|].
      intros args' rest H. destruct (Hok args' rest H) as [[pre ->] Hargs].
      split; [exists (t :: pre); reflexivity | exact Hargs]. }
    pose proof (expression_parsed t) as Hparsed.
    pose proof (expression_finishes t) as Hexpr.
    destruct (if bool_decide (type t = INTEGER_def) then _ else _) as [node|e|].
    + destruct (IH (args ++ [node])%list false) as [Hfin Hok]. split; [exact Hfin|].
      intros args' rest H. destruct (Hok args' rest H) as [[pre ->] Hargs].
      split; [exists (t :: pre); reflexivity|].
      intros Hall. apply Hargs, Forall_app_2; [exact Hall|].
      constructor; [apply Hparsed; reflexivity | constructor].
    + split; discriminate.
    + contradiction.
Qed.

Lemma InstructionStatement_ok stack :
  InstructionStatement stack <> Unfinished
  /\ forall node rest,
       InstructionStatement stack = Ok (node, rest) ->
       (exists t pre, stack = t :: (pre ++ rest)%list) /\ parsed_statement node.
Proof.
  unfold InstructionStatement. destruct stack as [|t stack].
  { split; discriminate. }
  case_bool_decide; [|split; discriminate].
  destruct (value t) as [op| | |]; try (split; discriminate).
  destruct (instruction_arguments_ok stack [] true) as [Hfin Hok].
  destruct (instruction_arguments stack [] true) as [[args rest]|e|];
    [|split; discriminate|contradiction].
  split; [discriminate|]. intros node rest' [= <- <-].
  destruct (Hok args rest eq_refl) as [[pre ->] Hargs].
  split; [exists t, pre; reflexivity|]. apply Hargs. constructor.
Qed.

Lemma LabelStatement_ok stack :
  LabelStatement stack <> Unfinished
  /\ forall node rest,
       LabelStatement stack = Ok (node, rest) ->
       (exists t, stack = t :: rest) /\ parsed_statement node.
Proof.
  unfold LabelStatement. destruct stack as [|t stack].
  { split; discriminate. }
  case_bool_decide; [|split; discriminate].
  destruct (value t); try (split; discriminate).
  split; [discriminate|]. intros node rest [= <- <-].
  split; [exists t; reflexivity | exact I].
Qed.

(** With no comment on the stack, every round of the statement loop pops a
    token: as many rounds as there are tokens, and one more, are enough. *)
Lemma SingleNodeASTParser_finishes :
  forall fuel stack nodes,
    comment_free stack -> (length stack < fuel)%nat ->
    SingleNodeASTParser fuel stack nodes <> Unfinished.
Proof.
  induction fuel as [|fuel IH]; intros stack nodes Hfree Hfuel; [lia|].
  cbn [SingleNodeASTParser]. destruct stack as [|t stack']; [discriminate|].
  case_bool_decide.
  { destruct (InstructionStatement_ok (t :: stack')) as [Hfin Hok].
    destruct (InstructionStatement (t :: stack')) as [[node rest]|e|];
      [|discriminate|contradiction].
    destruct (Hok node rest eq_refl) as [(t' & pre & Heq) _].
    injection Heq as <- ->. apply IH.
    - apply Forall_cons in Hfree as [_ Hfree]. apply Forall_app in Hfree as [_ H'].
      exact H'.
    - cbn [length] in Hfuel. rewrite length_app in Hfuel. lia. }
  case_bool_decide.
  { destruct (LabelStatement_ok (t :: stack')) as [Hfin Hok].
    destruct (LabelStatement (t :: stack')) as [[node rest]|e|];
      [|discriminate|contradiction].
    destruct (Hok node rest eq_refl) as [(t' & Heq) _].
    injection Heq as <- <-. apply IH.
    - apply Forall_cons in Hfree as [_ Hfree]. exact Hfree.
    - cbn [length] in Hfuel. lia. }
  case_bool_decide; [discriminate|].
  case_bool_decide as Hc; [|discriminate].
  apply Forall_cons in Hfree as [Hnot _]. contradiction.
Qed.

Lemma SingleNodeASTParser_parsed :
  forall fuel stack nodes result,
    SingleNodeASTParser fuel stack nodes = Ok result ->
    Forall parsed_statement nodes -> Forall parsed_statement result.
Proof.
  induction fuel as [|fuel IH]; intros stack nodes result; [discriminate|].
  cbn [SingleNodeASTParser]. destruct stack as [|t stack'].
  { intros [= <-]. auto. }
  case_bool_decide.
  { destruct (InstructionStatement_ok (t :: stack')) as [_ Hok].
    destruct (InstructionStatement (t :: stack')) as [[node rest]|e|]; try discriminate.
    destruct (Hok node rest eq_refl) as [_ Hnode].
    intros Hrun Hall. apply (IH _ _ _ Hrun), Forall_app_2; [exact Hall|].
    constructor; [exact Hnode | constructor]. }
  case_bool_decide.
  { destruct (LabelStatement_ok (t :: stack')) as [_ Hok].
    destruct (LabelStatement (t :: stack')) as [[node rest]|e|]; try discriminate.
    destruct (Hok node rest eq_refl) as [_ Hnode].
    intros Hrun Hall. apply (IH _ _ _ Hrun), Forall_app_2; [exact Hall|].
    constructor; [exact Hnode | constructor]. }
  case_bool_decide; [intros [= <-]; auto|].
  case_bool_decide; [apply IH | discriminate].
Qed.

Lemma filter_token_stack_comment_free items : comment_free (filter_token_stack items).
Proof.
  apply Forall_forall. intros t Hin.
  apply list_elem_of_filter in Hin as [[_ Hc] _].
  intros Heq. apply Hc. rewrite Heq. reflexivity.
Qed.

Lemma dict_set_elem_of (d : ASTRoot) k v k' v' :
  (k', v') ∈ dict_set d k v -> (k', v') = (k, v) \/ (k', v') ∈ d.
Proof.
  induction d as [|[k0 v0] d IH]; cbn [dict_set].
  - intros Hin. apply list_elem_of_singleton in Hin. auto.
  - destruct (decide (k0 = k)) as [->|Hne]; intros Hin;
      apply elem_of_cons in Hin as [Hin|Hin].
    + left. exact Hin.
    + right. right. exact Hin.
    + right. rewrite Hin. left.
    + destruct (IH Hin) as [Heq|Hd]; [left; exact Heq | right; right; exact Hd].
Qed.

Lemma MultiNodeParser_loop_ok stack :
  comment_free stack ->
  forall node_asts,
    MultiNodeParser_loop stack node_asts <> Unfinished
    /\ forall root k program,
         MultiNodeParser_loop stack node_asts = Ok root ->
         (forall k' p', (k', p') ∈ node_asts -> Forall parsed_statement p') ->
         (k, program) ∈ root -> Forall parsed_statement program.
Proof.
  induction stack as [|t stack IH]; intros Hfree node_asts;
    cbn [MultiNodeParser_loop].
  - split; [discriminate|]. intros root k program [= <-] Hall Hin. eauto.
  - apply Forall_cons in Hfree as [_ Hfree].
    case_bool_decide; [|apply IH, Hfree].
    pose proof (SingleNodeASTParser_finishes (S (length stack)) stack [] Hfree
                  ltac:(lia)) as Hfin.
    pose proof (SingleNodeASTParser_parsed (S (length stack)) stack []) as Hparsed.
    destruct (SingleNodeASTParser (S (length stack)) stack []) as [nodes|e|];
      [|split; discriminate|contradiction].
    destruct (IH Hfree (dict_set node_asts (value t) nodes)) as [Hfin' Hok].
    split; [exact Hfin'|]. intros root k program Hrun Hall Hin.
    apply (Hok root k program Hrun); [|exact Hin].
    intros k' p' Hin'. apply dict_set_elem_of in Hin' as [[= -> ->]|Hin'].
    + apply Hparsed; [reflexivity | constructor].
    + eauto.
Qed.

End ParserFacts.

(** X21. [parse] always ends, with a tree or an exception. The statement
    loop of [SingleNodeASTParser] passes over a comment token without
    popping it and so would never end on one, but [MultiNodeParser] filters
    comments out before any statement is parsed. *)
Theorem parse_always_ends :
  (forall source, Parser.parse source <> Parser.Unfinished)
  /\ (forall fuel value start stop stack nodes,
        Parser.SingleNodeASTParser fuel
          (Lexer.mkToken Lexer.COMMENT_def value start stop :: stack) nodes
        = Parser.Unfinished).
Proof.
  split.
  - intros source. unfold Parser.parse.
    destruct (Lexer.lex (Lexer.chars source)) as [tokens|]; [|discriminate].
    unfold Parser.MultiNodeParser.
    apply ParserFacts.MultiNodeParser_loop_ok, ParserFacts.filter_token_stack_comment_free.
  - induction fuel as [|fuel IH]; intros value start stop stack nodes; [reflexivity|].
    cbn [Parser.SingleNodeASTParser Lexer.type].
    replace (bool_decide (Lexer.COMMENT_def ∈ Lexer.INSTRUCTION_defs)) with false
      by (vm_compute; reflexivity).
    rewrite bool_decide_eq_false_2 by discriminate.
    rewrite bool_decide_eq_false_2 by discriminate.
    rewrite bool_decide_eq_true_2 by reflexivity.
    apply IH.
Qed.

(** X22. Every statement of a parsed program is an instruction or a label,
    and every operand of an instruction is an integer, port or register
    literal or a label reference: the parser never puts a label reference or
    a literal at statement level, which are the statements that [step]
    rejects as invalid code and the only ones whose label [validate_node]
    looks up. *)
Theorem parsed_programs_hold_instructions_and_labels
    (source : string) (root : Parser.ASTRoot) (node_id : Lexer.Value)
    (program : list ASTNode) :
  Parser.parse source = Parser.Ok root ->
  (node_id, program) ∈ root ->
  Forall parsed_statement program.
Proof.
  unfold Parser.parse.
  destruct (Lexer.lex (Lexer.chars source)) as [tokens|]; [|discriminate].
  unfold Parser.MultiNodeParser. intros Hrun Hin.
  destruct (ParserFacts.MultiNodeParser_loop_ok _
              (ParserFacts.filter_token_stack_comment_free tokens) []) as [_ Hok].
  apply (Hok root node_id program Hrun); [|exact Hin].
  intros k' p' H. apply elem_of_nil in H. contradiction.
Qed.

Lemma parsed_programs_hold_instructions_and_labels_witness :
  Forall parsed_statement one_operand_node0.
Proof.
  apply (parsed_programs_hold_instructions_and_labels one_operand_source
           [(Lexer.VInt 0, one_operand_node0); (Lexer.VInt 5, [mov_up_acc])]
           (Lexer.VInt 0) one_operand_node0).
  - vm_compute. reflexivity.
  - left.
Defined.

(* ===================================================================== *)
(** ** The machine *)
(* ===================================================================== *)

(** X23. Every node of the machine that the driver builds is stored under
    its own id and is what the constructor returns for the program that the
    parse tree holds under that id; the ids stepped are the keys of the
    store; and when any constructor raises, no machine is built. *)
Theorem built_machine_holds_constructed_nodes
    (node_height node_width : Z) (nodes : Parser.ASTRoot)
    (m : machine) (ids : list Z) :
  build_machine node_height node_width nodes = inr (m, ids) ->
  (forall i, i ∈ ids <-> is_Some (m !! i))
  /\ (forall i nd,
        m !! i = Some nd ->
        id nd = i
        /\ exists program,
             (Lexer.VInt i, program) ∈ nodes
             /\ TISNode_init i node_height node_width (Some program) = inr nd)
  /\ (forall k program,
        (k, program) ∈ nodes ->
        exists i nd, k = Lexer.VInt i
                     /\ TISNode_init i node_height node_width (Some program) = inr nd).
Proof.
  revert m ids. induction nodes as [|[k val] rest IH]; intros m ids;
    cbn [build_machine].
  - intros [= <- <-]. split; [|split].
    + intros i. rewrite lookup_empty. split; [intros H | intros [x H]].
      * apply elem_of_nil in H. contradiction.
      * discriminate H.
    + intros i nd H. rewrite lookup_empty in H. discriminate H.
    + intros k program H. apply elem_of_nil in H. contradiction.
  - destruct k as [| |n_id|]; try discriminate.
    destruct (TISNode_init n_id node_height node_width (Some val)) as [e|node] eqn:Hinit;
      [discriminate|].
    destruct (build_machine node_height node_width rest) as [e|[m' ids']];
      [discriminate|].
    intros [= <- <-]. destruct (IH m' ids' eq_refl) as (Hids & Hnodes & Hall).
    split; [|split].
    + intros i. rewrite elem_of_cons, Hids.
      destruct (decide (i = n_id)) as [->|Hne].
      * rewrite lookup_insert_eq. split; eauto.
      * rewrite lookup_insert_ne by congruence. split; [intros [?|?]|]; eauto.
        contradiction.
    + intros i nd. destruct (decide (i = n_id)) as [->|Hne].
      * rewrite lookup_insert_eq. intros [= <-]. split.
        -- unfold TISNode_init in Hinit.
           destruct (left_of _ _); [discriminate|].
           destruct (right_of _ _ _); [discriminate|].
           destruct (validate_node _ _); [discriminate|].
           injection Hinit as <-. reflexivity.
        -- exists val. split; [left | exact Hinit].
      * rewrite lookup_insert_ne by congruence. intros H.
        destruct (Hnodes i nd H) as (Hid & program & Hin & Hp).
        split; [exact Hid|]. exists program. split; [right; exact Hin | exact Hp].
    + intros k program Hin. apply elem_of_cons in Hin as [[= -> ->]|Hin].
      * exists n_id, node. split; [reflexivity | exact Hinit].
      * apply (Hall k program Hin).
Qed.

Lemma built_machine_holds_constructed_nodes_witness :
  5 ∈ [0; 5] <-> is_Some (one_operand_grid !! 5).
Proof.
  apply (built_machine_holds_constructed_nodes grid_height grid_width
           [(Lexer.VInt 0, one_operand_node0); (Lexer.VInt 5, [mov_up_acc])]
           one_operand_grid [0; 5]).
  reflexivity.
Defined.
